(** * Quiz-react, server-go: the login endpoint and its GitHub-backed ledger

    A shallow embedding of [server-go/main.go].  The server receives a
    submission (name, phone, optional LinkedIn link), reads a JSON array
    from a file of a GitHub repository through the Contents API, appends
    the submission and writes the file back, conditioned on the blob SHA
    it has read.

    The file is organised as the program is:
    - the pieces of Go's standard library the program calls
      ([unicode/utf8], [strings], [encoding/base64], [encoding/json]),
      modelled on byte strings;
    - the remote content store the program talks to;
    - the functions of [main.go], in a state monad over the world;
    - the properties of the append protocol and of the HTTP handler. *)

From Stdlib Require Import String Ascii List NArith ZArith Lia Bool.
From Stdlib Require Import DecimalString DecimalNat.
Import ListNotations.
Local Open Scope string_scope.
Local Open Scope N_scope.
#[local] Set Warnings "-register-all".

(** ** Byte strings

    A Go [string] and a Go [[]byte] are both sequences of bytes: [string]
    here, whose characters are the 8-bit [ascii]. *)

Definition byte_val (c : ascii) : N := N_of_ascii c.

(** Go's conversion [byte(x)]: the low eight bits. *)
Definition to_byte (n : N) : ascii := ascii_of_N (N.land n 0xFF).

Fixpoint take (n : nat) (s : string) : string :=
  match n, s with
  | S n', String c s' => String c (take n' s')
  | _, _ => EmptyString
  end.

Fixpoint drop (n : nat) (s : string) : string :=
  match n, s with
  | S n', String c s' => drop n' s'
  | _, _ => s
  end.

Definition str1 (c : ascii) : string := String c EmptyString.

(** The characters a Rocq string literal cannot hold. *)
Definition ch_quote : ascii := "034"%char.
Definition ch_backslash : ascii := "092"%char.
Definition ch_nl : ascii := "010"%char.
Definition ch_cr : ascii := "013"%char.
Definition ch_tab : ascii := "009"%char.
Definition ch_bs : ascii := "008"%char.
Definition ch_ff : ascii := "012"%char.
Definition ch_vt : ascii := "011"%char.

(** ** unicode/utf8 *)

Module utf8.

Definition RuneError : N := 0xFFFD.
Definition RuneSelf : N := 0x80.
Definition MaxRune : N := 0x10FFFF.
Definition surrogateMin : N := 0xD800.
Definition surrogateMax : N := 0xDFFF.

(** The table [first]: information about the first byte of an encoding.
    The low three bits are the size, the high four bits index
    [acceptRanges]; [0xF0] marks an ASCII byte and [0xF1] an invalid one. *)
Definition first (b : N) : N :=
  if b <? 0x80 then 0xF0
  else if b <? 0xC2 then 0xF1
  else if b <? 0xE0 then 0x02
  else if b =? 0xE0 then 0x13
  else if b <? 0xED then 0x03
  else if b =? 0xED then 0x23
  else if b <? 0xF0 then 0x03
  else if b =? 0xF0 then 0x34
  else if b <? 0xF4 then 0x04
  else if b =? 0xF4 then 0x44
  else 0xF1.

(** The range the second byte must lie in. *)
Definition acceptRanges (i : N) : N * N :=
  match i with
  | 0 => (0x80, 0xBF)
  | 1 => (0xA0, 0xBF)
  | 2 => (0x80, 0x9F)
  | 3 => (0x90, 0xBF)
  | _ => (0x80, 0x8F)
  end.

Definition is_cont (b : N) : bool := (0x80 <=? b) && (b <=? 0xBF).

(** [utf8.DecodeRuneInString]: the first rune of [s] and its width in
    bytes; [(RuneError, 1)] for an encoding that is not valid, and
    [(RuneError, 0)] for the empty string. *)
Definition DecodeRuneInString (s : string) : N * nat :=
  match s with
  | EmptyString => (RuneError, 0%nat)
  | String c0 t0 =>
    let s0 := byte_val c0 in
    let x := first s0 in
    if 0xF0 <=? x then ((if x =? 0xF1 then RuneError else s0), 1%nat)
    else
      let sz := N.land x 7 in
      let accept := acceptRanges (N.shiftr x 4) in
      match t0 with
      | EmptyString => (RuneError, 1%nat)
      | String c1 t1 =>
        let s1 := byte_val c1 in
        if (s1 <? fst accept) || (snd accept <? s1) then (RuneError, 1%nat)
        else if sz <=? 2 then
          (N.lor (N.shiftl (N.land s0 0x1F) 6) (N.land s1 0x3F), 2%nat)
        else
          match t1 with
          | EmptyString => (RuneError, 1%nat)
          | String c2 t2 =>
            let s2 := byte_val c2 in
            if negb (is_cont s2) then (RuneError, 1%nat)
            else if sz <=? 3 then
              (N.lor (N.lor (N.shiftl (N.land s0 0x0F) 12)
                            (N.shiftl (N.land s1 0x3F) 6))
                     (N.land s2 0x3F), 3%nat)
            else
              match t2 with
              | EmptyString => (RuneError, 1%nat)
              | String c3 t3 =>
                let s3 := byte_val c3 in
                if negb (is_cont s3) then (RuneError, 1%nat)
                else
                  (N.lor (N.lor (N.lor (N.shiftl (N.land s0 0x07) 18)
                                       (N.shiftl (N.land s1 0x3F) 12))
                                (N.shiftl (N.land s2 0x3F) 6))
                         (N.land s3 0x3F), 4%nat)
              end
          end
      end
  end.

(** [utf8.AppendRune] on an empty buffer: the UTF-8 encoding of a rune.
    A surrogate or a value past [MaxRune] is written as [RuneError]. *)
Definition EncodeRune (r : N) : string :=
  let enc3 (r : N) :=
    String (to_byte (N.lor 0xE0 (N.shiftr r 12)))
   (String (to_byte (N.lor 0x80 (N.land (N.shiftr r 6) 0x3F)))
   (String (to_byte (N.lor 0x80 (N.land r 0x3F))) EmptyString)) in
  if r <=? 0x7F then str1 (to_byte r)
  else if r <=? 0x7FF then
    String (to_byte (N.lor 0xC0 (N.shiftr r 6)))
   (String (to_byte (N.lor 0x80 (N.land r 0x3F))) EmptyString)
  else if (MaxRune <? r) || ((surrogateMin <=? r) && (r <=? surrogateMax))
    then enc3 RuneError
  else if r <=? 0xFFFF then enc3 r
  else
    String (to_byte (N.lor 0xF0 (N.shiftr r 18)))
   (String (to_byte (N.lor 0x80 (N.land (N.shiftr r 12) 0x3F)))
   (String (to_byte (N.lor 0x80 (N.land (N.shiftr r 6) 0x3F)))
   (String (to_byte (N.lor 0x80 (N.land r 0x3F))) EmptyString))).

(** [utf8.ValidString]. *)
Fixpoint valid_from (fuel : nat) (s : string) : bool :=
  match fuel with
  | O => true
  | S fuel' =>
    match s with
    | EmptyString => true
    | String _ _ =>
      let '(r, size) := DecodeRuneInString s in
      if (r =? RuneError) && (size =? 1)%nat then false
      else valid_from fuel' (drop size s)
    end
  end.

Definition ValidString (s : string) : bool := valid_from (String.length s) s.

(** [utf8.RuneStart]. *)
Definition RuneStart (b : N) : bool := negb (N.land b 0xC0 =? 0x80).

(** The search of [DecodeLastRuneInString] for the start of the last
    rune: from [start] down to [lim], at most three bytes. *)
Fixpoint lastStart (fuel : nat) (s : string) (start lim : Z) : Z :=
  match fuel with
  | O => start
  | S fuel' =>
    if (start <? lim)%Z then start
    else
      match String.get (Z.to_nat start) s with
      | Some c => if RuneStart (byte_val c) then start
                  else lastStart fuel' s (start - 1)%Z lim
      | None => start
      end
  end.

(** [utf8.DecodeLastRuneInString]. *)
Definition DecodeLastRuneInString (s : string) : N * nat :=
  let endp := String.length s in
  match endp with
  | O => (RuneError, 0%nat)
  | S start =>
    match String.get start s with
    | None => (RuneError, 0%nat)
    | Some c =>
      if byte_val c <? RuneSelf then (byte_val c, 1%nat)
      else
        let lim := Z.max 0 (Z.of_nat endp - 4) in
        let st := Z.max 0 (lastStart 4 s (Z.of_nat start - 1) lim) in
        let '(r, size) := DecodeRuneInString (drop (Z.to_nat st) s) in
        if (Z.to_nat st + size =? endp)%nat then (r, size) else (RuneError, 1%nat)
    end
  end.

End utf8.

(** ** unicode and strings *)

Module strings.

(** [unicode.IsSpace]: the white space of Latin-1, and past it the
    ranges of the property White_Space. *)
Definition IsSpace (r : N) : bool :=
  if r <=? 0xFF then
    ((0x09 <=? r) && (r <=? 0x0D)) || (r =? 0x20) || (r =? 0x85) || (r =? 0xA0)
  else
    (r =? 0x1680) || ((0x2000 <=? r) && (r <=? 0x200A))
    || (r =? 0x2028) || (r =? 0x2029) || (r =? 0x202F) || (r =? 0x205F)
    || (r =? 0x3000).

(** The table [asciiSpace]. *)
Definition asciiSpace (c : ascii) : bool :=
  ((c =? ch_tab) || (c =? ch_nl) || (c =? ch_vt) || (c =? ch_ff)
   || (c =? ch_cr) || (c =? " "))%char.

(** [TrimLeftFunc(s, unicode.IsSpace)]. *)
Fixpoint TrimLeftSpace (fuel : nat) (s : string) : string :=
  match fuel with
  | O => s
  | S fuel' =>
    match s with
    | EmptyString => EmptyString
    | String _ _ =>
      let '(r, n) := utf8.DecodeRuneInString s in
      if IsSpace r then TrimLeftSpace fuel' (drop n s) else s
    end
  end.

(** [lastIndexFunc(s, unicode.IsSpace, false)] from index [i] down:
    the index of the last rune that is no space, [None] for [-1]. *)
Fixpoint lastIndexNotSpace (fuel : nat) (s : string) (i : nat) : option nat :=
  match fuel with
  | O => None
  | S fuel' =>
    match i with
    | O => None
    | S _ =>
      let '(r, size) := utf8.DecodeLastRuneInString (take i s) in
      if IsSpace r then lastIndexNotSpace fuel' s (i - size)%nat
      else Some (i - size)%nat
    end
  end.

(** [TrimRightFunc(s, unicode.IsSpace)]. *)
Definition TrimRightSpace (s : string) : string :=
  match lastIndexNotSpace (String.length s) s (String.length s) with
  | None => EmptyString
  | Some i =>
    match String.get i s with
    | Some c =>
      if utf8.RuneSelf <=? byte_val c
      then take (i + snd (utf8.DecodeRuneInString (drop i s))) s
      else take (S i) s
    | None => take (S i) s
    end
  end.

(** The second loop of [TrimSpace], over [s[start:stop]] with [s] cut
    at [start]: ASCII spaces are cut from the end, and a byte that is
    not ASCII hands over to [TrimRightFunc]. *)
Fixpoint trimStop (stop : nat) (s : string) : string :=
  match stop with
  | O => EmptyString
  | S stop' =>
    match String.get stop' s with
    | Some c =>
      if utf8.RuneSelf <=? byte_val c then TrimRightSpace (take stop s)
      else if asciiSpace c then trimStop stop' s
      else take stop s
    | None => EmptyString
    end
  end.

(** [strings.TrimSpace]: the first loop looks for the first byte that
    is no ASCII space, and hands over to [TrimFunc] at a byte that is
    not ASCII. *)
Fixpoint TrimSpace (s : string) : string :=
  match s with
  | EmptyString => EmptyString
  | String c rest =>
    if utf8.RuneSelf <=? byte_val c
    then TrimRightSpace (TrimLeftSpace (String.length s) s)
    else if asciiSpace c then TrimSpace rest
    else trimStop (String.length s) s
  end.

(** [strings.ReplaceAll(s, old, "")] for [old] a single byte. *)
Fixpoint RemoveAll (old : ascii) (s : string) : string :=
  match s with
  | EmptyString => EmptyString
  | String c rest =>
    if (c =? old)%char then RemoveAll old rest else String c (RemoveAll old rest)
  end.

End strings.

(** ** encoding/base64: [StdEncoding] *)

Module base64.

Definition encodeStd : string :=
  "ABCDEFGHIJKLMNOPQRSTUVWXYZabcdefghijklmnopqrstuvwxyz0123456789+/".

Definition encode (v : N) : ascii :=
  match String.get (N.to_nat (N.land v 0x3F)) encodeStd with
  | Some c => c
  | None => "A"%char
  end.

(** [EncodeToString]: three bytes give four characters; what is left
    over is padded. *)
Fixpoint EncodeToString (src : string) : string :=
  match src with
  | EmptyString => EmptyString
  | String a EmptyString =>
    let val := N.shiftl (byte_val a) 16 in
    String (encode (N.shiftr val 18)) (String (encode (N.shiftr val 12)) "==")
  | String a (String b EmptyString) =>
    let val := N.lor (N.shiftl (byte_val a) 16) (N.shiftl (byte_val b) 8) in
    String (encode (N.shiftr val 18)) (String (encode (N.shiftr val 12))
   (String (encode (N.shiftr val 6)) "="))
  | String a (String b (String c rest)) =>
    let val := N.lor (N.lor (N.shiftl (byte_val a) 16) (N.shiftl (byte_val b) 8))
                     (byte_val c) in
    String (encode (N.shiftr val 18)) (String (encode (N.shiftr val 12))
   (String (encode (N.shiftr val 6)) (String (encode val) (EncodeToString rest))))
  end.

(** The table [decodeMap]: [None] is the source's [0xFF]. *)
Definition decodeMap (c : ascii) : option N :=
  let b := byte_val c in
  if (0x41 <=? b) && (b <=? 0x5A) then Some (b - 0x41)
  else if (0x61 <=? b) && (b <=? 0x7A) then Some (b - 0x61 + 26)
  else if (0x30 <=? b) && (b <=? 0x39) then Some (b - 0x30 + 52)
  else if (c =? "+")%char then Some 62
  else if (c =? "/")%char then Some 63
  else None.

Definition bytes3 (v0 v1 v2 v3 : N) : N :=
  N.lor (N.lor (N.lor (N.shiftl v0 18) (N.shiftl v1 12)) (N.shiftl v2 6)) v3.

(** The quanta of the input, once its line ends are skipped: four
    characters give three bytes; padding stands only at the end. *)
Fixpoint decodeQuanta (src : string) : option string :=
  match src with
  | EmptyString => Some EmptyString
  | String c0 (String c1 (String c2 (String c3 rest))) =>
    match decodeMap c0, decodeMap c1 with
    | Some v0, Some v1 =>
      if (c2 =? "=")%char then
        if (c3 =? "=")%char then
          match rest with
          | EmptyString => Some (str1 (to_byte (N.shiftr (bytes3 v0 v1 0 0) 16)))
          | _ => None
          end
        else None
      else
        match decodeMap c2 with
        | Some v2 =>
          if (c3 =? "=")%char then
            match rest with
            | EmptyString =>
              let val := bytes3 v0 v1 v2 0 in
              Some (String (to_byte (N.shiftr val 16)) (str1 (to_byte (N.shiftr val 8))))
            | _ => None
            end
          else
            match decodeMap c3, decodeQuanta rest with
            | Some v3, Some out =>
              let val := bytes3 v0 v1 v2 v3 in
              Some (String (to_byte (N.shiftr val 16))
                   (String (to_byte (N.shiftr val 8))
                   (String (to_byte val) out)))
            | _, _ => None
            end
        | None => None
        end
    | _, _ => None
    end
  | _ => None
  end.

(** [DecodeString]: carriage returns and line feeds are skipped
    wherever they stand; [None] is a [CorruptInputError]. *)
Definition DecodeString (s : string) : option string :=
  decodeQuanta (strings.RemoveAll ch_cr (strings.RemoveAll ch_nl s)).

End base64.

(** ** encoding/json

    The program calls [json.Unmarshal] on the fetched file and
    [json.MarshalIndent] on the extended array, and decodes the request
    body with a [json.Decoder].  The scanner below is the byte-at-a-time
    state machine of [encoding/json/scanner.go]; it carries, beside the
    parse state, the values read so far. *)

Module json.

(** A JSON document.  The program never reads a number, so a number
    carries no literal. *)
Inductive value : Type :=
| Null
| Bool (b : bool)
| Number
| Str (s : string)
| Array (vs : list value)
| Object (ms : list (string * value)).

Definition hex : string := "0123456789abcdef".

Definition hexdigit (n : N) : ascii :=
  match String.get (N.to_nat n) hex with
  | Some c => c
  | None => "0"%char
  end.

(** *** Writing a string: [appendString] with [escapeHTML] set *)

(** [htmlSafeSet]: the ASCII bytes written as they are.  The control
    characters, the quote, the backslash and the characters <, > and &
    are escaped. *)
Definition htmlSafeSet (c : ascii) : bool :=
  let b := byte_val c in
  (0x20 <=? b) && (b <? 0x80)
  && negb (c =? ch_quote)%char && negb (c =? ch_backslash)%char
  && negb (c =? "<")%char && negb (c =? ">")%char && negb (c =? "&")%char.

Definition escapeByte (c : ascii) : string :=
  if ((c =? ch_backslash) || (c =? ch_quote))%char then String ch_backslash (str1 c)
  else if (c =? ch_bs)%char then String ch_backslash "b"
  else if (c =? ch_ff)%char then String ch_backslash "f"
  else if (c =? ch_nl)%char then String ch_backslash "n"
  else if (c =? ch_cr)%char then String ch_backslash "r"
  else if (c =? ch_tab)%char then String ch_backslash "t"
  else
    String ch_backslash
      ("u00" ++ String (hexdigit (N.shiftr (byte_val c) 4))
                       (str1 (hexdigit (N.land (byte_val c) 0xF)))).

(** The loop of [appendString], from position [i] on ([src] is what is
    left of the string there).  Each turn consumes at least one byte, so
    the length of the string is fuel enough. *)
Fixpoint appendStringLoop (fuel : nat) (src : string) : string :=
  match fuel with
  | O => EmptyString
  | S fuel' =>
    match src with
    | EmptyString => EmptyString
    | String b rest =>
      if byte_val b <? utf8.RuneSelf then
        (if htmlSafeSet b then str1 b else escapeByte b)
          ++ appendStringLoop fuel' rest
      else
        let '(c, size) := utf8.DecodeRuneInString (take 4 src) in
        if (c =? utf8.RuneError) && (size =? 1)%nat then
          String ch_backslash "ufffd" ++ appendStringLoop fuel' (drop size src)
        else if (c =? 0x2028) || (c =? 0x2029) then
          String ch_backslash ("u202" ++ str1 (hexdigit (N.land c 0xF)))
            ++ appendStringLoop fuel' (drop size src)
        else
          take size src ++ appendStringLoop fuel' (drop size src)
    end
  end.

Definition appendString (src : string) : string :=
  String ch_quote (appendStringLoop (String.length src) src ++ str1 ch_quote).

(** *** Reading a string literal: [unquote] *)

Definition hexval (c : ascii) : option N :=
  let b := byte_val c in
  if (0x30 <=? b) && (b <=? 0x39) then Some (b - 0x30)
  else if (0x61 <=? b) && (b <=? 0x66) then Some (b - 0x61 + 10)
  else if (0x41 <=? b) && (b <=? 0x46) then Some (b - 0x41 + 10)
  else None.

(** [getu4]: the rune of a backslash-u escape at the head of [s];
    [None] is the source's [-1]. *)
Definition getu4 (s : string) : option N :=
  match s with
  | String c0 (String c1 (String h0 (String h1 (String h2 (String h3 _))))) =>
    if ((c0 =? ch_backslash) && (c1 =? "u"))%char then
      match hexval h0, hexval h1, hexval h2, hexval h3 with
      | Some a, Some b, Some c, Some d => Some (((a * 16 + b) * 16 + c) * 16 + d)
      | _, _, _, _ => None
      end
    else None
  | _ => None
  end.

Definition IsSurrogate (r : N) : bool := (0xD800 <=? r) && (r <? 0xE000).

(** [utf16.DecodeRune]. *)
Definition utf16DecodeRune (r1 r2 : N) : N :=
  if (0xD800 <=? r1) && (r1 <? 0xDC00) && (0xDC00 <=? r2) && (r2 <? 0xE000)
  then N.lor (N.shiftl (r1 - 0xD800) 10) (r2 - 0xDC00) + 0x10000
  else utf8.RuneError.

Definition cons_to (c : ascii) (o : option string) : option string :=
  option_map (String c) o.

Definition app_to (p : string) (o : option string) : option string :=
  option_map (append p) o.

(** The loop of [unquoteBytes] over the inside of a literal; [None] is
    the source's [ok = false].  (The source first looks for a literal
    that needs no unquoting and returns it as it is; the loop computes
    the same bytes for such a literal.) *)
Fixpoint unquoteLoop (fuel : nat) (s : string) : option string :=
  match fuel with
  | O => match s with EmptyString => Some EmptyString | _ => None end
  | S fuel' =>
    match s with
    | EmptyString => Some EmptyString
    | String c r =>
      if (c =? ch_backslash)%char then
        match r with
        | EmptyString => None
        | String e r' =>
          if ((e =? ch_quote) || (e =? ch_backslash) || (e =? "/") || (e =? "'"))%char
          then cons_to e (unquoteLoop fuel' r')
          else if (e =? "b")%char then cons_to ch_bs (unquoteLoop fuel' r')
          else if (e =? "f")%char then cons_to ch_ff (unquoteLoop fuel' r')
          else if (e =? "n")%char then cons_to ch_nl (unquoteLoop fuel' r')
          else if (e =? "r")%char then cons_to ch_cr (unquoteLoop fuel' r')
          else if (e =? "t")%char then cons_to ch_tab (unquoteLoop fuel' r')
          else if (e =? "u")%char then
            match getu4 s with
            | None => None
            | Some rr =>
              let s6 := drop 6 s in
              if IsSurrogate rr then
                let dec := match getu4 s6 with
                           | Some rr1 => utf16DecodeRune rr rr1
                           | None => utf8.RuneError
                           end in
                if negb (dec =? utf8.RuneError) then
                  app_to (utf8.EncodeRune dec) (unquoteLoop fuel' (drop 6 s6))
                else
                  app_to (utf8.EncodeRune utf8.RuneError) (unquoteLoop fuel' s6)
              else app_to (utf8.EncodeRune rr) (unquoteLoop fuel' s6)
            end
          else None
        end
      else if (c =? ch_quote)%char || (byte_val c <? 0x20) then None
      else if byte_val c <? utf8.RuneSelf then cons_to c (unquoteLoop fuel' r)
      else
        let '(rr, size) := utf8.DecodeRuneInString s in
        app_to (utf8.EncodeRune rr) (unquoteLoop fuel' (drop size s))
    end
  end.

Definition unquote (lit : string) : option string :=
  unquoteLoop (String.length lit) lit.

(** *** The scanner *)

Definition isSpace (c : ascii) : bool :=
  ((c =? " ") || (c =? ch_tab) || (c =? ch_cr) || (c =? ch_nl))%char.

Definition isDigit (c : ascii) : bool :=
  (0x30 <=? byte_val c) && (byte_val c <=? 0x39).

Definition isDigit19 (c : ascii) : bool :=
  (0x31 <=? byte_val c) && (byte_val c <=? 0x39).

Definition isHex (c : ascii) : bool :=
  match hexval c with Some _ => true | None => false end.

(** The step functions of the scanner.  A string state carries the
    bytes of the literal read so far (what stands between the quotes). *)
Inductive step : Type :=
| stateBeginValueOrEmpty
| stateBeginValue
| stateBeginStringOrEmpty
| stateBeginString
| stateEndValue
| stateEndTop (v : value)
| stateInString (lit : string)
| stateInStringEsc (lit : string)
| stateInStringEscU (lit : string)
| stateInStringEscU1 (lit : string)
| stateInStringEscU12 (lit : string)
| stateInStringEscU123 (lit : string)
| stateNeg
| state1
| state0
| stateDot
| stateDot0
| stateE
| stateESign
| stateE0
| stateT
| stateTr
| stateTru
| stateF
| stateFa
| stateFal
| stateFals
| stateN
| stateNu
| stateNul.

(** The parse states, each with what the decoder has stored so far:
    the members of an object and the key being read, the elements of an
    array. *)
Inductive parseState : Type :=
| parseObjectKey (ms : list (string * value)) (key : option string)
| parseObjectValue (ms : list (string * value)) (key : option string)
| parseArrayValue (vs : list value).

(** The scanner: [None] is the source's [stateError]. *)
Definition scanner : Type := option (step * list parseState).

Definition maxNestingDepth : N := 10000.

Definition pushParseState (p : parseState) (next : step)
    (stack : list parseState) : scanner :=
  if N.of_nat (List.length (p :: stack)) <=? maxNestingDepth
  then Some (next, p :: stack)
  else None.

(** A value is complete: it goes to the innermost open array or object,
    or it is the document. *)
Definition endValue (v : value) (stack : list parseState) : scanner :=
  match stack with
  | [] => Some (stateEndTop v, [])
  | parseArrayValue vs :: up =>
      Some (stateEndValue, parseArrayValue (vs ++ [v]) :: up)
  | parseObjectValue ms (Some k) :: up =>
      Some (stateEndValue, parseObjectValue (ms ++ [(k, v)]) None :: up)
  | parseObjectKey ms None :: up =>
      match v with
      | Str k => Some (stateEndValue, parseObjectKey ms (Some k) :: up)
      | _ => None
      end
  | _ => None
  end.

Definition stepEndTop (v : value) (c : ascii) : scanner :=
  if isSpace c then Some (stateEndTop v, []) else None.

Definition stepEndValue (stack : list parseState) (c : ascii) : scanner :=
  if isSpace c then Some (stateEndValue, stack)
  else
    match stack with
    | parseObjectKey ms (Some k) :: up =>
        if (c =? ":")%char
        then Some (stateBeginValue, parseObjectValue ms (Some k) :: up)
        else None
    | parseObjectValue ms None :: up =>
        if (c =? ",")%char then Some (stateBeginString, parseObjectKey ms None :: up)
        else if (c =? "}")%char then endValue (Object ms) up
        else None
    | parseArrayValue vs :: up =>
        if (c =? ",")%char then Some (stateBeginValue, stack)
        else if (c =? "]")%char then endValue (Array vs) up
        else None
    | _ => None
    end.

(** The byte after a value that has no closing byte of its own (a
    number): the value ends, and the byte is read in the state after it. *)
Definition afterValue (v : value) (stack : list parseState) (c : ascii) : scanner :=
  match endValue v stack with
  | Some (stateEndTop w, _) => stepEndTop w c
  | Some (stateEndValue, stack') => stepEndValue stack' c
  | _ => None
  end.

Definition stepBeginString (stack : list parseState) (c : ascii) : scanner :=
  if isSpace c then Some (stateBeginString, stack)
  else if (c =? ch_quote)%char then Some (stateInString EmptyString, stack)
  else None.

Definition stepBeginValue (stack : list parseState) (c : ascii) : scanner :=
  if isSpace c then Some (stateBeginValue, stack)
  else if (c =? "{")%char
    then pushParseState (parseObjectKey [] None) stateBeginStringOrEmpty stack
  else if (c =? "[")%char
    then pushParseState (parseArrayValue []) stateBeginValueOrEmpty stack
  else if (c =? ch_quote)%char then Some (stateInString EmptyString, stack)
  else if (c =? "-")%char then Some (stateNeg, stack)
  else if (c =? "0")%char then Some (state0, stack)
  else if (c =? "t")%char then Some (stateT, stack)
  else if (c =? "f")%char then Some (stateF, stack)
  else if (c =? "n")%char then Some (stateN, stack)
  else if isDigit19 c then Some (state1, stack)
  else None.

Definition stepState0 (stack : list parseState) (c : ascii) : scanner :=
  if (c =? ".")%char then Some (stateDot, stack)
  else if ((c =? "e") || (c =? "E"))%char then Some (stateE, stack)
  else afterValue Number stack c.

Definition stepStateESign (stack : list parseState) (c : ascii) : scanner :=
  if isDigit c then Some (stateE0, stack) else None.

Definition expect (want : ascii) (next : scanner) (c : ascii) : scanner :=
  if (c =? want)%char then next else None.

Definition scan_step (st : step) (stack : list parseState) (c : ascii) : scanner :=
  match st with
  | stateBeginValueOrEmpty =>
      if isSpace c then Some (st, stack)
      else if (c =? "]")%char then stepEndValue stack c
      else stepBeginValue stack c
  | stateBeginValue => stepBeginValue stack c
  | stateBeginStringOrEmpty =>
      if isSpace c then Some (st, stack)
      else if (c =? "}")%char then
        match stack with
        | parseObjectKey ms _ :: up => stepEndValue (parseObjectValue ms None :: up) c
        | _ => None
        end
      else stepBeginString stack c
  | stateBeginString => stepBeginString stack c
  | stateEndValue => stepEndValue stack c
  | stateEndTop v => stepEndTop v c
  | stateInString lit =>
      if (c =? ch_quote)%char then
        match unquote lit with
        | Some s => endValue (Str s) stack
        | None => None
        end
      else if (c =? ch_backslash)%char then Some (stateInStringEsc (lit ++ str1 c), stack)
      else if byte_val c <? 0x20 then None
      else Some (stateInString (lit ++ str1 c), stack)
  | stateInStringEsc lit =>
      if ((c =? "b") || (c =? "f") || (c =? "n") || (c =? "r") || (c =? "t")
          || (c =? ch_backslash) || (c =? "/") || (c =? ch_quote))%char
      then Some (stateInString (lit ++ str1 c), stack)
      else if (c =? "u")%char then Some (stateInStringEscU (lit ++ str1 c), stack)
      else None
  | stateInStringEscU lit =>
      if isHex c then Some (stateInStringEscU1 (lit ++ str1 c), stack) else None
  | stateInStringEscU1 lit =>
      if isHex c then Some (stateInStringEscU12 (lit ++ str1 c), stack) else None
  | stateInStringEscU12 lit =>
      if isHex c then Some (stateInStringEscU123 (lit ++ str1 c), stack) else None
  | stateInStringEscU123 lit =>
      if isHex c then Some (stateInString (lit ++ str1 c), stack) else None
  | stateNeg =>
      if (c =? "0")%char then Some (state0, stack)
      else if isDigit19 c then Some (state1, stack)
      else None
  | state1 =>
      if isDigit c then Some (state1, stack) else stepState0 stack c
  | state0 => stepState0 stack c
  | stateDot =>
      if isDigit c then Some (stateDot0, stack) else None
  | stateDot0 =>
      if isDigit c then Some (stateDot0, stack)
      else if ((c =? "e") || (c =? "E"))%char then Some (stateE, stack)
      else afterValue Number stack c
  | stateE =>
      if ((c =? "+") || (c =? "-"))%char then Some (stateESign, stack)
      else stepStateESign stack c
  | stateESign => stepStateESign stack c
  | stateE0 =>
      if isDigit c then Some (stateE0, stack) else afterValue Number stack c
  | stateT => expect "r" (Some (stateTr, stack)) c
  | stateTr => expect "u" (Some (stateTru, stack)) c
  | stateTru => expect "e" (endValue (Bool true) stack) c
  | stateF => expect "a" (Some (stateFa, stack)) c
  | stateFa => expect "l" (Some (stateFal, stack)) c
  | stateFal => expect "s" (Some (stateFals, stack)) c
  | stateFals => expect "e" (endValue (Bool false) stack) c
  | stateN => expect "u" (Some (stateNu, stack)) c
  | stateNu => expect "l" (Some (stateNul, stack)) c
  | stateNul => expect "l" (endValue Null stack) c
  end.

Definition scan (sc : scanner) (c : ascii) : scanner :=
  match sc with
  | Some (st, stack) => scan_step st stack c
  | None => None
  end.

Fixpoint scan_all (sc : scanner) (data : string) : scanner :=
  match data with
  | EmptyString => sc
  | String c rest => scan_all (scan sc c) rest
  end.

Definition reset : scanner := Some (stateBeginValue, []).

(** The scanner's [eof]: a space is fed to end a pending number, and
    the document must be complete. *)
Definition eof (sc : scanner) : option value :=
  match scan sc " "%char with
  | Some (stateEndTop v, _) => Some v
  | _ => None
  end.

(** [checkValid] and the walk of the decoder over valid data: the
    document [data] holds, or [None] for a syntax error. *)
Definition parse (data : string) : option value := eof (scan_all reset data).

(** What a [json.Decoder] reads: the first document of the stream,
    whatever follows it. *)
Fixpoint scan_first (sc : scanner) (data : string) : option value :=
  match sc with
  | Some (stateEndTop v, _) => Some v
  | _ =>
    match data with
    | EmptyString => eof sc
    | String c rest => scan_first (scan sc c) rest
    end
  end.

Definition parse_first (data : string) : option value := scan_first reset data.

(** *** Matching an object key with a field name *)

(** [foldName]: ASCII letters to upper case, and each other rune to
    the smallest rune of its case-folding orbit.  The Kelvin sign folds
    to K and the long s to S; every other orbit holds no ASCII letter,
    so its rune is kept here, as it matches no byte of a field name. *)
Definition foldRune (r : N) : N :=
  if r =? 0x212A then 0x4B else if r =? 0x17F then 0x53 else r.

Fixpoint foldNameLoop (fuel : nat) (s : string) : string :=
  match fuel with
  | O => EmptyString
  | S fuel' =>
    match s with
    | EmptyString => EmptyString
    | String c rest =>
      let b := byte_val c in
      if b <? utf8.RuneSelf then
        String (if (0x61 <=? b) && (b <=? 0x7A) then to_byte (b - 0x20) else c)
               (foldNameLoop fuel' rest)
      else
        let '(r, n) := utf8.DecodeRuneInString s in
        utf8.EncodeRune (foldRune r) ++ foldNameLoop fuel' (drop n s)
    end
  end.

Definition foldName (s : string) : string := foldNameLoop (String.length s) s.

(** *** Storing a value into a Go string *)

(** [literalStore] into a field of kind [string]: a JSON string is
    stored, [null] leaves the field as it is, and anything else is an
    [UnmarshalTypeError]. *)
Definition storeString (v : value) (old : string) : option string :=
  match v with
  | Str s => Some s
  | Null => Some old
  | _ => None
  end.

End json.

(** * main.go *)

(** ** The records *)

Record Submission : Type := mkSubmission {
  Name : string;       (* json: name *)
  Phone : string;      (* json: phone *)
  LinkedIn : string;   (* json: linkedin, omitempty *)
  Timestamp : string   (* json: timestamp *)
}.

Record githubContentResponse : Type := mkContentResponse {
  Content : string;    (* json: content *)
  Encoding : string;   (* json: encoding *)
  SHA : string         (* json: sha *)
}.

(** ** The codec of the ledger: [json.Unmarshal] into a [[]Submission]
    and [json.MarshalIndent] of one *)

Definition zeroSubmission : Submission :=
  mkSubmission EmptyString EmptyString EmptyString EmptyString.

(** One member of an object stored into a [Submission]: the field is
    found by the folded name; a key that names no field is skipped
    ([Unmarshal] does not disallow unknown fields). *)
Definition storeMember (x : Submission) (m : string * json.value) : option Submission :=
  let '(key, v) := m in
  let k := json.foldName key in
  if (k =? "NAME")%string then
    option_map (fun s => mkSubmission s (Phone x) (LinkedIn x) (Timestamp x))
               (json.storeString v (Name x))
  else if (k =? "PHONE")%string then
    option_map (fun s => mkSubmission (Name x) s (LinkedIn x) (Timestamp x))
               (json.storeString v (Phone x))
  else if (k =? "LINKEDIN")%string then
    option_map (fun s => mkSubmission (Name x) (Phone x) s (Timestamp x))
               (json.storeString v (LinkedIn x))
  else if (k =? "TIMESTAMP")%string then
    option_map (fun s => mkSubmission (Name x) (Phone x) (LinkedIn x) s)
               (json.storeString v (Timestamp x))
  else Some x.

Fixpoint storeMembers (x : Submission) (ms : list (string * json.value)) : option Submission :=
  match ms with
  | [] => Some x
  | m :: rest =>
    match storeMember x m with
    | Some x' => storeMembers x' rest
    | None => None
    end
  end.

(** An element of the array into a fresh [Submission]: an object is
    stored member by member, [null] leaves the zero value, anything else
    is a type error. *)
Definition decodeSubmission (v : json.value) : option Submission :=
  match v with
  | json.Object ms => storeMembers zeroSubmission ms
  | json.Null => Some zeroSubmission
  | _ => None
  end.

Fixpoint decodeSubmissions (vs : list json.value) : option (list Submission) :=
  match vs with
  | [] => Some []
  | v :: rest =>
    match decodeSubmission v, decodeSubmissions rest with
    | Some x, Some xs => Some (x :: xs)
    | _, _ => None
    end
  end.

(** [json.Unmarshal(content, &arr)] for [arr] a nil [[]Submission]:
    [Some arr] when it returns no error ([null] leaves the slice nil,
    of length 0), [None] when it returns one (a syntax error, or a value
    that does not fit the type). *)
Definition Unmarshal (content : string) : option (list Submission) :=
  match json.parse content with
  | Some (json.Array vs) => decodeSubmissions vs
  | Some json.Null => Some []
  | _ => None
  end.

Definition nl : string := str1 ch_nl.

(** A member of an object, at depth 2 of the indented output. *)
Definition member (key val : string) : string :=
  "    " ++ json.appendString key ++ ": " ++ json.appendString val.

(** A [Submission], at depth 1: the fields in the order of the struct,
    [linkedin] left out when empty. *)
Definition marshalSubmission (x : Submission) : string :=
  "{" ++ nl ++ member "name" (Name x) ++ "," ++ nl
      ++ member "phone" (Phone x) ++ "," ++ nl
      ++ (if (LinkedIn x =? "")%string then EmptyString
          else member "linkedin" (LinkedIn x) ++ "," ++ nl)
      ++ member "timestamp" (Timestamp x) ++ nl ++ "  }".

Fixpoint marshalElements (sep : string) (arr : list Submission) : string :=
  match arr with
  | [] => EmptyString
  | x :: rest =>
      sep ++ nl ++ "  " ++ marshalSubmission x ++ marshalElements "," rest
  end.

(** [json.MarshalIndent(arr, "", "  ")] for a non-nil slice: it returns
    no error for a slice of structs of strings.  The empty slice is
    written as the two brackets. *)
Definition MarshalIndent (arr : list Submission) : string :=
  match arr with
  | [] => "[]"
  | _ => "[" ++ marshalElements EmptyString arr ++ nl ++ "]"
  end.

(** ** Errors, requests and responses *)

Inductive body : Type :=
| bodyJSON (doc : json.value)
| bodyText (text : string).

(** The errors the program creates or passes on.  The text of an error
    is not modelled: where the program prints one, the model keeps the
    error itself. *)
Inductive error : Type :=
| errNotFound                                   (* github file not found *)
| errGetFailed (status : string) (b : body)     (* github get failed: status: body *)
| errPutFailed (status : string) (b : body)     (* github put failed: status: body *)
| errUnexpectedEncoding (encoding : string)     (* unexpected encoding: ... *)
| errTransport                                  (* an error of http.DefaultClient.Do *)
| errJSON                                       (* an error of encoding/json *)
| errBase64.                                    (* a base64.CorruptInputError *)

Definition is_errNotFound (e : error) : bool :=
  match e with errNotFound => true | _ => false end.

(** An outgoing request: the body is the JSON document the payload is
    marshalled from (its transport as text is not modelled). *)
Record Request : Type := mkRequest {
  Method : string;
  URL : string;
  ReqHeader : list (string * string);
  Payload : option json.value
}.

Record Response : Type := mkResponse {
  StatusCode : Z;
  Status : string;
  RespBody : body
}.

(** The package variables that [loadConfigFromEnv] sets. *)
Record Config : Type := mkConfig {
  githubToken : string;
  githubRepo : string;
  githubFilePath : string;
  githubBranch : string;
  serverPort : string;
  allowOrigin : string
}.

(** A piece of text the program writes: literal bytes, or the text of
    an error. *)
Inductive piece : Type :=
| lit (text : string)
| errText (e : error).

(** ** The remote content store *)

(** What happens at one request of the program: the contents that other
    writers commit to the file before the request is served, and whether
    the request reaches the store. *)
Inductive refusal : Type :=
| conflict      (* 409 *)
| forbidden     (* 403 *)
| serverError   (* 500 *)
| unavailable.  (* 503 *)

Definition statusOf (f : refusal) : Z :=
  match f with
  | conflict => 409
  | forbidden => 403
  | serverError => 500
  | unavailable => 503
  end.

Inductive answer : Type :=
| Served
| Unreachable               (* the transport fails: no response *)
| Refused (f : refusal).    (* answered with a failure status, nothing applied *)

Record turn : Type := mkTurn {
  others : list string;
  reply : answer
}.

Definition quiet : turn := mkTurn [] Served.

(** The world the program runs in: its configuration, the clock (as
    [time.RFC3339] text in UTC), the file at [githubFilePath] of the
    remote repository as the list of the contents committed to it so far
    (oldest first; empty when the file does not exist), what the
    environment does at the coming requests, the exchanges with the
    store so far and the lines logged. *)
(** A request the program has sent, with the status code of the
    response ([None] when the transport failed). *)
Record exchange : Type := mkExchange {
  sent : Request;
  status : option Z
}.

Record World : Type := mkWorld {
  config : Config;
  now : string;
  history : list string;
  schedule : list turn;
  exchanges : list exchange;
  logged : list (list piece)
}.

Definition add_log (l : list piece) (w : World) : World :=
  mkWorld (config w) (now w) (history w) (schedule w) (exchanges w) (logged w ++ [l]).

(** The version token of the file after [n] commits. *)
Definition shaOf (n : nat) : string :=
  String "v" (DecimalString.NilEmpty.string_of_uint (Nat.to_uint n)).

(** The content of the file, when it exists. *)
Definition current (h : list string) : option string :=
  match h with
  | [] => None
  | _ => Some (List.last h EmptyString)
  end.

(** GitHub breaks the base64 text of a file into lines of 60. *)
Fixpoint wrapLines (col : nat) (s : string) : string :=
  match s with
  | EmptyString => str1 ch_nl
  | String c rest =>
    match col with
    | O => String ch_nl (String c (wrapLines 59 rest))
    | S col' => String c (wrapLines col' rest)
    end
  end.

Definition lookup (key : string) (ms : list (string * json.value)) : option json.value :=
  option_map snd (List.find (fun m => (fst m =? key)%string) ms).

Definition statusText (code : Z) : string :=
  (if code =? 200 then "200 OK"
   else if code =? 201 then "201 Created"
   else if code =? 403 then "403 Forbidden"
   else if code =? 404 then "404 Not Found"
   else if code =? 405 then "405 Method Not Allowed"
   else if code =? 409 then "409 Conflict"
   else if code =? 422 then "422 Unprocessable Entity"
   else if code =? 500 then "500 Internal Server Error"
   else if code =? 503 then "503 Service Unavailable"
   else "")%Z.

Definition respond (code : Z) (b : body) : Response :=
  mkResponse code (statusText code) b.

(** Modelled from the spec: the remote store is not part of the
    repository.  It holds one blob with an opaque version token that
    changes on every successful commit; a fetch returns the content
    transport-encoded (base64) with the token, or a not-found signal; a
    commit succeeds only if the version supplied matches the current
    version of the store, an absent version meaning that the file must
    not exist yet; conflict and not-found are distinguishable statuses. *)
Definition serve (req : Request) (h : list string) : Response * list string :=
  if (Method req =? "GET")%string then
    match current h with
    | None => (respond 404 (bodyText "Not Found"), h)
    | Some content =>
      (respond 200 (bodyJSON (json.Object
         [("type", json.Str "file");
          ("encoding", json.Str "base64");
          ("content", json.Str (wrapLines 60 (base64.EncodeToString content)));
          ("sha", json.Str (shaOf (List.length h)))])), h)
    end
  else if (Method req =? "PUT")%string then
    match Payload req with
    | Some (json.Object ms) =>
      match lookup "content" ms with
      | Some (json.Str b64) =>
        match base64.DecodeString b64 with
        | Some content =>
          match lookup "sha" ms, h with
          | None, [] => (respond 201 (bodyJSON (json.Object [])), (h ++ [content])%list)
          | Some (json.Str sha), _ :: _ =>
            if (sha =? shaOf (List.length h))%string
            then (respond 200 (bodyJSON (json.Object [])), (h ++ [content])%list)
            else (respond 409 (bodyText "Conflict"), h)
          | _, _ => (respond 409 (bodyText "Conflict"), h)
          end
        | None => (respond 422 (bodyText "content is not valid Base64"), h)
        end
      | _ => (respond 422 (bodyText "Invalid request"), h)
      end
    | _ => (respond 422 (bodyText "Invalid request"), h)
    end
  else (respond 405 (bodyText "Method Not Allowed"), h).

(** ** The state monad of the program *)

Definition M (A : Type) : Type := World -> A * World.

Definition ret {A : Type} (a : A) : M A := fun w => (a, w).

Definition bind {A B : Type} (m : M A) (k : A -> M B) : M B :=
  fun w => let '(a, w') := m w in k a w'.

Notation "x <- m ;; k" := (bind m (fun x => k))
  (at level 61, m at next level, right associativity).
Notation "m ;;; k" := (bind m (fun _ => k))
  (at level 61, right associativity).

Definition getConfig : M Config := fun w => (config w, w).

(** [time.Now().UTC().Format(time.RFC3339)]. *)
Definition timeNow : M string := fun w => (now w, w).

Definition logPrintf (line : list piece) : M unit := fun w => (tt, add_log line w).

(** The turn of the environment at the next request, and the file as
    that request finds it. *)
Definition next_turn (w : World) : turn :=
  match schedule w with
  | [] => quiet
  | t :: _ => t
  end.

Definition arrive (w : World) : list string := (history w ++ others (next_turn w))%list.

(** The world after an exchange: the turn is used up, the file is as
    the store leaves it, and the exchange is recorded. *)
Definition after (w : World) (req : Request) (st : option Z) (h : list string) : World :=
  mkWorld (config w) (now w) h (List.tl (schedule w))
          (exchanges w ++ [mkExchange req st]) (logged w).

(** [http.DefaultClient.Do]: the environment takes its turn, and the
    store answers the request.  A request that gets no response, or one
    the store refuses, is taken not to have reached the file: a response
    lost after the store has applied the request is not among the
    outcomes. *)
Definition Do (req : Request) : M (Response + error) :=
  fun w =>
    let h := arrive w in
    match reply (next_turn w) with
    | Served =>
      let '(resp, h') := serve req h in
      (inl resp, after w req (Some (StatusCode resp)) h')
    | Unreachable => (inr errTransport, after w req None h)
    | Refused f =>
      (inl (respond (statusOf f) (bodyText EmptyString)),
       after w req (Some (statusOf f)) h)
    end.

(** [json.NewDecoder(resp.Body).Decode(&out)] for the content response:
    the members are stored by folded name, the others skipped. *)
Definition storeContentMember (x : githubContentResponse) (m : string * json.value)
    : option githubContentResponse :=
  let '(key, v) := m in
  let k := json.foldName key in
  if (k =? "CONTENT")%string then
    option_map (fun s => mkContentResponse s (Encoding x) (SHA x))
               (json.storeString v (Content x))
  else if (k =? "ENCODING")%string then
    option_map (fun s => mkContentResponse (Content x) s (SHA x))
               (json.storeString v (Encoding x))
  else if (k =? "SHA")%string then
    option_map (fun s => mkContentResponse (Content x) (Encoding x) s)
               (json.storeString v (SHA x))
  else Some x.

Fixpoint storeContentMembers (x : githubContentResponse)
    (ms : list (string * json.value)) : option githubContentResponse :=
  match ms with
  | [] => Some x
  | m :: rest =>
    match storeContentMember x m with
    | Some x' => storeContentMembers x' rest
    | None => None
    end
  end.

Definition decodeContentResponse (b : body) : option githubContentResponse :=
  match b with
  | bodyJSON (json.Object ms) =>
      storeContentMembers (mkContentResponse EmptyString EmptyString EmptyString) ms
  | bodyJSON json.Null => Some (mkContentResponse EmptyString EmptyString EmptyString)
  | _ => None
  end.

(** ** The store client *)

Definition apiHeaders (cfg : Config) : list (string * string) :=
  [("Authorization", "Bearer " ++ githubToken cfg);
   ("Accept", "application/vnd.github+json");
   ("X-GitHub-Api-Version", "2022-11-28")].

Definition fileURL (cfg : Config) : string :=
  "https://api.github.com/repos/" ++ githubRepo cfg ++ "/contents/" ++ githubFilePath cfg.

(** The request of [getGitHubFile]. *)
Definition getRequest (cfg : Config) : Request :=
  mkRequest "GET" (fileURL cfg ++ "?ref=" ++ githubBranch cfg)
            (apiHeaders cfg ++ [("User-Agent", "react-quiz-server-go")]) None.

(** [getGitHubFile]: the content of the file and its SHA, or an error;
    [errNotFound] for status 404. *)
Definition getGitHubFile : M (string * string * option error) :=
  cfg <- getConfig ;;
  res <- Do (getRequest cfg) ;;
  match res with
  | inr err => ret (EmptyString, EmptyString, Some err)
  | inl resp =>
    if (StatusCode resp =? 404)%Z then ret (EmptyString, EmptyString, Some errNotFound)
    else if (StatusCode resp >=? 300)%Z then
      ret (EmptyString, EmptyString, Some (errGetFailed (Status resp) (RespBody resp)))
    else
      match decodeContentResponse (RespBody resp) with
      | None => ret (EmptyString, EmptyString, Some errJSON)
      | Some out =>
        if negb (Encoding out =? "base64")%string then
          ret (EmptyString, EmptyString, Some (errUnexpectedEncoding (Encoding out)))
        else
          match base64.DecodeString (strings.RemoveAll ch_nl (Content out)) with
          | None => ret (EmptyString, EmptyString, Some errBase64)
          | Some decoded => ret (decoded, SHA out, None)
          end
      end
  end.

(** [json.Marshal(body)] for the [githubUpdateRequest]: [sha] is left
    out when empty. *)
Definition marshalUpdateRequest (message content branch sha : string) : json.value :=
  json.Object
    ([("message", json.Str message);
      ("content", json.Str content);
      ("branch", json.Str branch)]
     ++ (if (sha =? "")%string then [] else [("sha", json.Str sha)])
     ++ [("committer", json.Object [("name", json.Str "React Quiz Bot");
                                    ("email", json.Str "noreply@example.com")])]).

(** The request of [putGitHubFile], sent at time [t]. *)
Definition putRequest (cfg : Config) (t content sha : string) : Request :=
  mkRequest "PUT" (fileURL cfg)
    (apiHeaders cfg ++ [("Content-Type", "application/json");
                        ("User-Agent", "react-quiz-server-go")])
    (Some (marshalUpdateRequest
             ("chore: append quiz login submission (" ++ t ++ ")")
             (base64.EncodeToString content) (githubBranch cfg) sha)).

(** [putGitHubFile]: one PUT of the content, with the SHA when there is
    one; an error for a status of 300 or more. *)
Definition putGitHubFile (content : string) (sha : string) : M (option error) :=
  cfg <- getConfig ;;
  t <- timeNow ;;
  res <- Do (putRequest cfg t content sha) ;;
  match res with
  | inr err => ret (Some err)
  | inl resp =>
    if (StatusCode resp >=? 300)%Z
    then ret (Some (errPutFailed (Status resp) (RespBody resp)))
    else ret None
  end.

(** ** Appending a submission *)

(** [appendSubmissionToGitHub]: fetch the file, start from an empty
    array when it does not exist or does not hold an array, append the
    item and put the file. *)
Definition appendSubmissionToGitHub (item : Submission) : M (option error) :=
  got <- getGitHubFile ;;
  let '(content, sha, err) := got in
  let fetched :=
    match err with
    | Some e => if is_errNotFound e then inl "[]" else inr e
    | None => inl content
    end in
  match fetched with
  | inr e => ret (Some e)
  | inl content =>
    let arr := match Unmarshal content with
               | Some arr => arr
               | None => []
               end in
    let arr := (arr ++ [item])%list in
    let updated := MarshalIndent arr in
    putGitHubFile updated sha
  end.

(** ** The HTTP handlers *)

(** An incoming request, as far as the handlers read it. *)
Record Incoming : Type := mkIncoming {
  method : string;
  rbody : string
}.

(** An [http.ResponseWriter]: the header map, the status code once the
    header is written, and what has been written to the body. *)
Record ResponseWriter : Type := mkResponseWriter {
  header : list (string * string);
  code : option Z;
  written : list piece
}.

Definition newResponseWriter : ResponseWriter := mkResponseWriter [] None [].

Definition HeaderSet (key val : string) (rw : ResponseWriter) : ResponseWriter :=
  mkResponseWriter
    (List.filter (fun kv => negb (fst kv =? key)%string) (header rw) ++ [(key, val)])
    (code rw) (written rw).

(** The first [WriteHeader] fixes the status code. *)
Definition WriteHeader (c : Z) (rw : ResponseWriter) : ResponseWriter :=
  match code rw with
  | Some _ => rw
  | None => mkResponseWriter (header rw) (Some c) (written rw)
  end.

(** A write before any [WriteHeader] sends status 200. *)
Definition Write (data : list piece) (rw : ResponseWriter) : ResponseWriter :=
  let rw := WriteHeader 200 rw in
  mkResponseWriter (header rw) (code rw) (written rw ++ data).

(** [http.Error]. *)
Definition httpError (msg : list piece) (c : Z) (rw : ResponseWriter) : ResponseWriter :=
  let rw := HeaderSet "Content-Type" "text/plain; charset=utf-8" rw in
  let rw := HeaderSet "X-Content-Type-Options" "nosniff" rw in
  let rw := WriteHeader c rw in
  Write (msg ++ [lit nl]) rw.

Definition Handler : Type := Incoming -> ResponseWriter -> M ResponseWriter.

Definition withCORS (next : Handler) : Handler :=
  fun r rw =>
    cfg <- getConfig ;;
    let rw := HeaderSet "Access-Control-Allow-Origin" (allowOrigin cfg) rw in
    let rw := HeaderSet "Access-Control-Allow-Methods" "GET,POST,OPTIONS" rw in
    let rw := HeaderSet "Access-Control-Allow-Headers" "Content-Type, Authorization" rw in
    let rw := HeaderSet "Access-Control-Max-Age" "600" rw in
    if (method r =? "OPTIONS")%string then ret (WriteHeader 204 rw)
    else next r rw.

Definition healthHandler : Handler :=
  fun r rw =>
    let rw := HeaderSet "Content-Type" "application/json" rw in
    ret (Write [lit ("{" ++ json.appendString "status" ++ ":"
                         ++ json.appendString "ok" ++ "}")] rw).

(** The anonymous struct [in] of [loginHandler]. *)
Record loginInput : Type := mkLoginInput {
  inName : string;      (* json: name *)
  inPhone : string;     (* json: phone *)
  inLinkedIn : string   (* json: linkedin *)
}.

(** One member of the request body: with [DisallowUnknownFields], a key
    that names no field is an error. *)
Definition storeLoginMember (x : loginInput) (m : string * json.value) : option loginInput :=
  let '(key, v) := m in
  let k := json.foldName key in
  if (k =? "NAME")%string then
    option_map (fun s => mkLoginInput s (inPhone x) (inLinkedIn x))
               (json.storeString v (inName x))
  else if (k =? "PHONE")%string then
    option_map (fun s => mkLoginInput (inName x) s (inLinkedIn x))
               (json.storeString v (inPhone x))
  else if (k =? "LINKEDIN")%string then
    option_map (fun s => mkLoginInput (inName x) (inPhone x) s)
               (json.storeString v (inLinkedIn x))
  else None.

Fixpoint storeLoginMembers (x : loginInput) (ms : list (string * json.value))
    : option loginInput :=
  match ms with
  | [] => Some x
  | m :: rest =>
    match storeLoginMember x m with
    | Some x' => storeLoginMembers x' rest
    | None => None
    end
  end.

(** [decoder.Decode(&in)] on the request body: the first JSON document
    of the body, stored into the struct; [None] when it returns an
    error. *)
Definition decodeLogin (data : string) : option loginInput :=
  match json.parse_first data with
  | Some (json.Object ms) =>
      storeLoginMembers (mkLoginInput EmptyString EmptyString EmptyString) ms
  | Some json.Null => Some (mkLoginInput EmptyString EmptyString EmptyString)
  | _ => None
  end.

Definition savedReply : string :=
  "{" ++ json.appendString "message" ++ ":" ++ json.appendString "Submission saved"
      ++ "," ++ json.appendString "ok" ++ ":true}" ++ nl.

Definition loginHandler : Handler :=
  fun r rw =>
    if negb (method r =? "POST")%string then
      ret (httpError [lit "method not allowed"] 405 rw)
    else
      match decodeLogin (rbody r) with
      | None => ret (httpError [lit "invalid json: "; errText errJSON] 400 rw)
      | Some inp =>
        if ((strings.TrimSpace (inName inp) =? "")
            || (strings.TrimSpace (inPhone inp) =? ""))%string
        then ret (httpError [lit "name and phone are required"] 400 rw)
        else
          t <- timeNow ;;
          let submission :=
            mkSubmission (strings.TrimSpace (inName inp))
                         (strings.TrimSpace (inPhone inp))
                         (strings.TrimSpace (inLinkedIn inp))
                         t in
          err <- appendSubmissionToGitHub submission ;;
          match err with
          | Some e =>
            logPrintf [lit "append to GitHub failed: "; errText e] ;;;
            ret (httpError [lit "failed to update GitHub file"] 500 rw)
          | None =>
            let rw := HeaderSet "Content-Type" "application/json" rw in
            let rw := WriteHeader 201 rw in
            ret (Write [lit savedReply] rw)
          end
      end.

(** The route [/api/login], as [main] registers it. *)
Definition apiLogin : Handler := withCORS loginHandler.

(** The route [/health]. *)
Definition health : Handler := withCORS healthHandler.

(** ** Notions used in the statements *)

(** The valid encodings of two to four bytes, each with its rune. *)
Inductive rune_chunk : string -> N -> Prop :=
| chunk2 (c0 c1 : ascii) :
    0xC2 <= byte_val c0 <= 0xDF -> 0x80 <= byte_val c1 <= 0xBF ->
    rune_chunk (String c0 (str1 c1))
               (byte_val c0 mod 32 * 64 + byte_val c1 mod 64)
| chunk3 (c0 c1 c2 : ascii) :
    0xE0 <= byte_val c0 <= 0xEF ->
    (if byte_val c0 =? 0xE0 then 0xA0 else 0x80) <= byte_val c1
      <= (if byte_val c0 =? 0xED then 0x9F else 0xBF) ->
    0x80 <= byte_val c2 <= 0xBF ->
    rune_chunk (String c0 (String c1 (str1 c2)))
               (byte_val c0 mod 16 * 4096 + byte_val c1 mod 64 * 64 + byte_val c2 mod 64)
| chunk4 (c0 c1 c2 c3 : ascii) :
    0xF0 <= byte_val c0 <= 0xF4 ->
    (if byte_val c0 =? 0xF0 then 0x90 else 0x80) <= byte_val c1
      <= (if byte_val c0 =? 0xF4 then 0x8F else 0xBF) ->
    0x80 <= byte_val c2 <= 0xBF ->
    0x80 <= byte_val c3 <= 0xBF ->
    rune_chunk (String c0 (String c1 (String c2 (str1 c3))))
               (byte_val c0 mod 8 * 262144 + byte_val c1 mod 64 * 4096
                + byte_val c2 mod 64 * 64 + byte_val c3 mod 64).

(** The states in which a quote opens a string. *)
Definition opensString (st : json.step) : bool :=
  match st with
  | json.stateBeginValue | json.stateBeginValueOrEmpty
  | json.stateBeginString | json.stateBeginStringOrEmpty => true
  | _ => false
  end.

(** A well-formed record: its strings are valid UTF-8. *)
Definition validSubmission (x : Submission) : bool :=
  utf8.ValidString (Name x) && utf8.ValidString (Phone x)
  && utf8.ValidString (LinkedIn x) && utf8.ValidString (Timestamp x).

Definition validLedger (arr : list Submission) : bool := forallb validSubmission arr.

(** Well-formed text: a sequence of ASCII bytes and valid encodings. *)
Inductive wf : string -> Prop :=
| wf_nil : wf EmptyString
| wf_ascii (c : ascii) (s : string) : byte_val c < 0x80 -> wf s -> wf (String c s)
| wf_chunk (chunk : string) (r : N) (s : string) :
    rune_chunk chunk r -> wf s -> wf (chunk ++ s).

(** Every string of a document is valid UTF-8. *)
Fixpoint value_ok (v : json.value) : Prop :=
  match v with
  | json.Str s => utf8.ValidString s = true
  | json.Array vs =>
      (fix all (l : list json.value) : Prop :=
         match l with [] => True | x :: r => value_ok x /\ all r end) vs
  | json.Object ms =>
      (fix all (l : list (string * json.value)) : Prop :=
         match l with [] => True | m :: r => value_ok (snd m) /\ all r end) ms
  | _ => True
  end.

(** The same of the values a frame of the parse stack has collected. *)
Definition frame_ok (p : json.parseState) : Prop :=
  match p with
  | json.parseObjectKey ms _ | json.parseObjectValue ms _ =>
      Forall (fun m => value_ok (snd m)) ms
  | json.parseArrayValue vs => Forall value_ok vs
  end.

(** The invariant of the scanner: the values collected so far, and the
    value of a finished document, hold valid strings only. *)
Definition scanner_ok (sc : json.scanner) : Prop :=
  match sc with
  | None => True
  | Some (st, stack) =>
      Forall frame_ok stack
      /\ match st with json.stateEndTop v => value_ok v | _ => True end
  end.

(** What the encoder makes of a string: each byte that begins no valid
    encoding becomes the replacement rune U+FFFD, all else stays. *)
Fixpoint coerce_from (fuel : nat) (s : string) : string :=
  match fuel with
  | O => EmptyString
  | S fuel' =>
    match s with
    | EmptyString => EmptyString
    | String _ _ =>
      let '(r, size) := utf8.DecodeRuneInString s in
      if (r =? utf8.RuneError) && (size =? 1)%nat
      then utf8.EncodeRune utf8.RuneError ++ coerce_from fuel' (drop 1 s)
      else take size s ++ coerce_from fuel' (drop size s)
    end
  end.

Definition coerce (s : string) : string := coerce_from (String.length s) s.

(** A record as the encoder writes it. *)
Definition coerceSubmission (x : Submission) : Submission :=
  mkSubmission (coerce (Name x)) (coerce (Phone x)) (coerce (LinkedIn x))
               (coerce (Timestamp x)).

(** The JSON object a record is written as. *)
Definition submissionValue (x : Submission) : json.value :=
  json.Object
    ([("name", json.Str (Name x)); ("phone", json.Str (Phone x))]
     ++ (if (LinkedIn x =? "")%string then [] else [("linkedin", json.Str (LinkedIn x))])
     ++ [("timestamp", json.Str (Timestamp x))]).

(** The ledger the operation composes from: the records of the fetched
    content, or none when there is no file or it does not decode. *)
Definition ledgerOf (h : list string) : list Submission :=
  match current h with
  | Some content => match Unmarshal content with Some arr => arr | None => [] end
  | None => []
  end.

(** The ledger the file holds: that of its current content when it
    decodes, the empty one when there is no file, and none when the
    content does not decode. *)
Definition storedLedger (h : list string) : option (list Submission) :=
  match current h with
  | Some content => Unmarshal content
  | None => Some []
  end.

(** The version the commit is conditioned on: none when there is no file. *)
Definition baseVersion (h : list string) : string :=
  match h with
  | [] => EmptyString
  | _ => shaOf (List.length h)
  end.

(** The commits the program has attempted. *)
Definition commits (w : World) : list exchange :=
  List.filter (fun e => (Method (sent e) =? "PUT")%string) (exchanges w).

Definition afterGet (w : World) : World :=
  after w (getRequest (config w))
        (match reply (next_turn w) with
         | Served => Some (match arrive w with [] => 404 | _ => 200 end)%Z
         | Unreachable => None
         | Refused f => Some (statusOf f)
         end)
        (arrive w).

Definition cfg0 : Config :=
  mkConfig "token" "owner/repo" "data/submissions.json" "main" "8080" "*".

Definition world0 (h : list string) (sch : list turn) : World :=
  mkWorld cfg0 "2024-01-01T00:00:00Z" h sch [] [].

Definition ada : Submission :=
  mkSubmission "Ada Lovelace" "555-0100" EmptyString "2024-01-01T00:00:00Z".

Definition bob : Submission :=
  mkSubmission "Bob" "555-0101" "https://www.linkedin.com/in/bob" "2024-01-01T00:00:01Z".

(** A file edited by hand: the record of [bob], as the program writes
    it, and after it a record whose phone is a number. *)
Definition edited : string :=
  "[" ++ marshalSubmission bob ++ ",{"
      ++ json.appendString "name" ++ ":" ++ json.appendString "Eve" ++ ","
      ++ json.appendString "phone" ++ ":5550102}]".

(** The submissions of [items], appended one after the other. *)
Fixpoint appendAll (items : list Submission) : M (list (option error)) :=
  match items with
  | [] => ret []
  | x :: rest =>
      e <- appendSubmissionToGitHub x ;;
      es <- appendAll rest ;;
      ret (e :: es)
  end.

(** Nothing interferes: every coming request is served, and nobody else
    writes to the file. *)
Definition calm (w : World) : Prop := Forall (fun t => t = quiet) (schedule w).

(** A request body with the three members, as a client writes it. *)
Definition loginBody (name phone linkedin : string) : string :=
  "{" ++ json.appendString "name" ++ ":" ++ json.appendString name ++ ","
      ++ json.appendString "phone" ++ ":" ++ json.appendString phone ++ ","
      ++ json.appendString "linkedin" ++ ":" ++ json.appendString linkedin ++ "}".

(** ** Configuration *)

(** [os.Getenv], once [godotenv.Load] has run: the value of a variable,
    the empty string when it is not set. *)
Definition Env : Type := string -> string.

(** [loadConfigFromEnv]. *)
Definition loadConfigFromEnv (env : Env) : Config :=
  mkConfig (strings.TrimSpace (env "GITHUB_TOKEN"))
           (strings.TrimSpace (env "GITHUB_REPO"))
           (strings.TrimSpace (env "GITHUB_FILE_PATH"))
           (strings.TrimSpace (env "GITHUB_BRANCH"))
           (strings.TrimSpace (env "PORT"))
           (strings.TrimSpace (env "CORS_ALLOW_ORIGIN")).

(** [validateServerConfig]: the error it returns, if any, and the
    package variables as it leaves them. *)
Definition validateServerConfig (cfg : Config) : option string * Config :=
  if (githubToken cfg =? "")%string then
    (Some "GITHUB_TOKEN is required", cfg)
  else if (githubRepo cfg =? "")%string then
    (Some "GITHUB_REPO is required (e.g. owner/repo)", cfg)
  else if (githubFilePath cfg =? "")%string then
    (Some "GITHUB_FILE_PATH is required (e.g. data/submissions.json)", cfg)
  else if (githubBranch cfg =? "")%string then
    (None, mkConfig (githubToken cfg) (githubRepo cfg) (githubFilePath cfg) "main"
                    (serverPort cfg) (allowOrigin cfg))
  else (None, cfg).

(** The start of [main], up to the server: the configuration the server
    runs with, or the error that [log.Fatalf] ends the process with. *)
Definition mainConfig (env : Env) : Config + string :=
  let cfg := loadConfigFromEnv env in
  let cfg :=
    if (serverPort cfg =? "")%string
    then mkConfig (githubToken cfg) (githubRepo cfg) (githubFilePath cfg)
                  (githubBranch cfg) "8080" (allowOrigin cfg)
    else cfg in
  let cfg :=
    if (allowOrigin cfg =? "")%string
    then mkConfig (githubToken cfg) (githubRepo cfg) (githubFilePath cfg)
                  (githubBranch cfg) (serverPort cfg) "*"
    else cfg in
  match validateServerConfig cfg with
  | (Some err, _) => inr err
  | (None, cfg') => inl cfg'
  end.

(** ** The parts of the store client *)

(** What [getGitHubFile] makes of the outcome of its request: the lines
    after [http.DefaultClient.Do]. *)
Definition fetchOutcome (res : Response + error) : string * string * option error :=
  match res with
  | inr err => (EmptyString, EmptyString, Some err)
  | inl resp =>
    if (StatusCode resp =? 404)%Z then (EmptyString, EmptyString, Some errNotFound)
    else if (StatusCode resp >=? 300)%Z then
      (EmptyString, EmptyString, Some (errGetFailed (Status resp) (RespBody resp)))
    else
      match decodeContentResponse (RespBody resp) with
      | None => (EmptyString, EmptyString, Some errJSON)
      | Some out =>
        if negb (Encoding out =? "base64")%string then
          (EmptyString, EmptyString, Some (errUnexpectedEncoding (Encoding out)))
        else
          match base64.DecodeString (strings.RemoveAll ch_nl (Content out)) with
          | None => (EmptyString, EmptyString, Some errBase64)
          | Some decoded => (decoded, SHA out, None)
          end
      end
  end.

(** What [appendSubmissionToGitHub] does with the outcome of the fetch:
    the lines after the call of [getGitHubFile]. *)
Definition composeAndPut (item : Submission) (got : string * string * option error)
    : M (option error) :=
  let '(content, sha, err) := got in
  let fetched :=
    match err with
    | Some e => if is_errNotFound e then inl "[]" else inr e
    | None => inl content
    end in
  match fetched with
  | inr e => ret (Some e)
  | inl content =>
    let arr := match Unmarshal content with
               | Some arr => arr
               | None => []
               end in
    let arr := (arr ++ [item])%list in
    let updated := MarshalIndent arr in
    putGitHubFile updated sha
  end.

(** [w.Header().Get]: the value set for a key, if any. *)
Definition HeaderGet (key : string) (rw : ResponseWriter) : option string :=
  option_map snd (List.find (fun kv => (fst kv =? key)%string) (header rw)).

(** The four headers that [withCORS] sets. *)
Definition corsHeaders (cfg : Config) : list (string * string) :=
  [("Access-Control-Allow-Origin", allowOrigin cfg);
   ("Access-Control-Allow-Methods", "GET,POST,OPTIONS");
   ("Access-Control-Allow-Headers", "Content-Type, Authorization");
   ("Access-Control-Max-Age", "600")].

(** The fields of the request body that the handler knows, by folded
    name. *)
Definition loginField (key : string) : bool :=
  let k := json.foldName key in
  ((k =? "NAME") || (k =? "PHONE") || (k =? "LINKEDIN"))%string.

(** The fields of a stored record, by folded name. *)
Definition submissionField (key : string) : bool :=
  let k := json.foldName key in
  ((k =? "NAME") || (k =? "PHONE") || (k =? "LINKEDIN") || (k =? "TIMESTAMP"))%string.

(** The values that fit a Go string: a JSON string, or [null]. *)
Definition fitsString (v : json.value) : bool :=
  match v with
  | json.Str _ | json.Null => true
  | _ => false
  end.

(** The bytes that [strings.TrimSpace] takes for ASCII white space. *)
Definition allSpaces (s : string) : bool :=
  forallb strings.asciiSpace (list_ascii_of_string s).

(** The standard encoding of the two brackets, with line ends in it. *)
Definition brokenLines : string :=
  "W" ++ nl ++ "1" ++ str1 ch_cr ++ nl ++ "0=".

(** Every byte of [s] passes [p]. *)
Fixpoint allBytes (p : ascii -> bool) (s : string) : bool :=
  match s with
  | EmptyString => true
  | String c rest => p c && allBytes p rest
  end.

(** The bytes that [appendString] and the layout leave in the text:
    any byte but the characters <, > and & and the bytes below 0x20,
    the line feed apart.  The byte 0x7F and the bytes of the encodings
    above it are among them: the encoder writes those as they are. *)
Definition plainByte (c : ascii) : bool :=
  negb ((c =? "<") || (c =? ">") || (c =? "&"))%char
  && ((0x20 <=? byte_val c) || (c =? ch_nl)%char).

(** One rune of well-formed text, with the bytes that encode it. *)
Inductive rune : string -> N -> Prop :=
| rune_ascii (c : ascii) : byte_val c < 0x80 -> rune (str1 c) (byte_val c)
| rune_multi (chunk : string) (r : N) : rune_chunk chunk r -> rune chunk r.

(** Well-formed text made of white space only. *)
Inductive spaceRunes : string -> Prop :=
| spaces_nil : spaceRunes EmptyString
| spaces_cons (u s : string) (r : N) :
    rune u r -> strings.IsSpace r = true -> spaceRunes s -> spaceRunes (u ++ s).

(** The ASCII bytes among those of [plainByte]. *)
Definition textByte (c : ascii) : bool := plainByte c && (byte_val c <? 0x80).

(** * Properties *)

(** ** Byte strings *)

Lemma append_nil_r (s : string) : s ++ EmptyString = s.
Proof. induction s as [|c s IH]; simpl; [reflexivity | now rewrite IH]. Qed.

Lemma append_assoc (a b c : string) : (a ++ b) ++ c = a ++ (b ++ c).
Proof. induction a as [|x a IH]; simpl; [reflexivity | now rewrite IH]. Qed.

Lemma length_append (a b : string) :
  String.length (a ++ b) = (String.length a + String.length b)%nat.
Proof. induction a as [|x a IH]; simpl; [reflexivity | now rewrite IH]. Qed.

Lemma take_drop (n : nat) (s : string) : take n s ++ drop n s = s.
Proof.
  revert s; induction n as [|n IH]; intros [|c s]; simpl; try reflexivity.
  now rewrite IH.
Qed.

Lemma length_drop (n : nat) (s : string) :
  String.length (drop n s) = (String.length s - n)%nat.
Proof.
  revert s; induction n as [|n IH]; intros [|c s]; simpl; try lia.
  apply IH.
Qed.

Lemma drop_append (a b : string) : drop (String.length a) (a ++ b) = b.
Proof. induction a as [|x a IH]; simpl; [reflexivity | exact IH]. Qed.

Lemma take_append (a b : string) : take (String.length a) (a ++ b) = a.
Proof. induction a as [|x a IH]; simpl; [reflexivity | now rewrite IH]. Qed.

(** ** Bytes and bit operations *)

Ltac nlia := zify; Z.to_euclidean_division_equations; lia.

Lemma byte_val_bound (c : ascii) : byte_val c < 256.
Proof. apply N_ascii_bounded. Qed.

Lemma land_FF (a : N) : N.land a 0xFF = a mod 256.
Proof. change 0xFF with (N.ones 8). now rewrite N.land_ones. Qed.

Lemma land_3F (a : N) : N.land a 0x3F = a mod 64.
Proof. change 0x3F with (N.ones 6). now rewrite N.land_ones. Qed.

Lemma land_1F (a : N) : N.land a 0x1F = a mod 32.
Proof. change 0x1F with (N.ones 5). now rewrite N.land_ones. Qed.

Lemma land_0F (a : N) : N.land a 0x0F = a mod 16.
Proof. change 0x0F with (N.ones 4). now rewrite N.land_ones. Qed.

Lemma land_07 (a : N) : N.land a 0x07 = a mod 8.
Proof. change 0x07 with (N.ones 3). now rewrite N.land_ones. Qed.

Lemma to_byte_val (c : ascii) : to_byte (byte_val c) = c.
Proof.
  unfold to_byte. rewrite land_FF, N.mod_small by apply byte_val_bound.
  apply ascii_N_embedding.
Qed.

Lemma to_byte_eq (n : N) (c : ascii) : n = byte_val c -> to_byte n = c.
Proof. intros ->. apply to_byte_val. Qed.

Lemma byte_val_to_byte (n : N) : n < 256 -> byte_val (to_byte n) = n.
Proof.
  intros H. unfold to_byte, byte_val.
  rewrite land_FF, N.mod_small by assumption. now apply N_ascii_embedding.
Qed.

(** Two numbers with no bit in common are joined by [N.lor] as by
    addition. *)
Lemma lor_add (a b k : N) : a mod 2 ^ k = 0 -> b < 2 ^ k -> N.lor a b = a + b.
Proof.
  intros Ha Hb.
  assert (H : N.land a b = 0).
  { apply N.bits_inj_0. intros n. rewrite N.land_spec.
    destruct (N.lt_ge_cases n k) as [Hn|Hn].
    - rewrite (N.div_mod a (2 ^ k)) by (apply N.pow_nonzero; lia).
      rewrite Ha, N.add_0_r, N.mul_comm, N.mul_pow2_bits_low by assumption.
      reflexivity.
    - rewrite <- (N.mod_small b (2 ^ k)) by assumption.
      rewrite N.mod_pow2_bits_high by assumption. apply Bool.andb_false_r. }
  rewrite <- N.lxor_lor by assumption. symmetry. now apply N.add_nocarry_lxor.
Qed.

Lemma shiftl_6 (a : N) : N.shiftl a 6 = a * 64.
Proof. now rewrite N.shiftl_mul_pow2. Qed.

Lemma shiftl_12 (a : N) : N.shiftl a 12 = a * 4096.
Proof. now rewrite N.shiftl_mul_pow2. Qed.

Lemma shiftl_18 (a : N) : N.shiftl a 18 = a * 262144.
Proof. now rewrite N.shiftl_mul_pow2. Qed.

Lemma shiftr_6 (a : N) : N.shiftr a 6 = a / 64.
Proof. now rewrite N.shiftr_div_pow2. Qed.

Lemma shiftr_12 (a : N) : N.shiftr a 12 = a / 4096.
Proof. now rewrite N.shiftr_div_pow2. Qed.

Lemma shiftr_18 (a : N) : N.shiftr a 18 = a / 262144.
Proof. now rewrite N.shiftr_div_pow2. Qed.

(** The runes of two, three and four bytes, in arithmetic. *)
Lemma rune2_arith (s0 s1 : N) :
  N.lor (N.shiftl (N.land s0 0x1F) 6) (N.land s1 0x3F)
  = s0 mod 32 * 64 + s1 mod 64.
Proof.
  rewrite land_1F, land_3F, shiftl_6.
  apply (lor_add _ _ 6); change (2 ^ 6) with 64; nlia.
Qed.

Lemma rune3_arith (s0 s1 s2 : N) :
  N.lor (N.lor (N.shiftl (N.land s0 0x0F) 12) (N.shiftl (N.land s1 0x3F) 6))
        (N.land s2 0x3F)
  = s0 mod 16 * 4096 + s1 mod 64 * 64 + s2 mod 64.
Proof.
  rewrite land_0F, !land_3F, shiftl_6, shiftl_12.
  rewrite (lor_add (s0 mod 16 * 4096) _ 12) by (change (2 ^ 12) with 4096; nlia).
  apply (lor_add _ _ 6); change (2 ^ 6) with 64; nlia.
Qed.

Lemma rune4_arith (s0 s1 s2 s3 : N) :
  N.lor (N.lor (N.lor (N.shiftl (N.land s0 0x07) 18) (N.shiftl (N.land s1 0x3F) 12))
               (N.shiftl (N.land s2 0x3F) 6))
        (N.land s3 0x3F)
  = s0 mod 8 * 262144 + s1 mod 64 * 4096 + s2 mod 64 * 64 + s3 mod 64.
Proof.
  rewrite land_07, !land_3F, shiftl_6, shiftl_12, shiftl_18.
  rewrite (lor_add (s0 mod 8 * 262144) _ 18) by (change (2 ^ 18) with 262144; nlia).
  rewrite (lor_add _ (s2 mod 64 * 64) 12) by (change (2 ^ 12) with 4096; nlia).
  apply (lor_add _ _ 6); change (2 ^ 6) with 64; nlia.
Qed.

(** ** UTF-8: decoding and encoding a rune *)

Ltac bools :=
  repeat match goal with
  | H : (_ <? _) = true |- _ => apply N.ltb_lt in H
  | H : (_ <? _) = false |- _ => apply N.ltb_ge in H
  | H : (_ <=? _) = true |- _ => apply N.leb_le in H
  | H : (_ <=? _) = false |- _ => apply N.leb_gt in H
  | H : (_ =? _) = true |- _ => apply N.eqb_eq in H
  | H : (_ =? _) = false |- _ => apply N.eqb_neq in H
  | H : (_ && _) = true |- _ => apply andb_prop in H; destruct H
  | H : (_ || _) = false |- _ => apply orb_false_elim in H; destruct H
  | H : (_ || _) = true |- _ => apply orb_prop in H; destruct H
  | H : (_ && _) = false |- _ => apply andb_false_elim in H; destruct H
  | H : negb _ = true |- _ => apply negb_true_iff in H
  | H : negb _ = false |- _ => apply negb_false_iff in H
  end.


Lemma first_spec (b : N) :
  (b < 0x80 /\ utf8.first b = 0xF0)
  \/ ((0x80 <= b < 0xC2 \/ 0xF5 <= b) /\ utf8.first b = 0xF1)
  \/ (0xC2 <= b <= 0xDF /\ utf8.first b = 0x02)
  \/ (b = 0xE0 /\ utf8.first b = 0x13)
  \/ ((0xE1 <= b <= 0xEC \/ 0xEE <= b <= 0xEF) /\ utf8.first b = 0x03)
  \/ (b = 0xED /\ utf8.first b = 0x23)
  \/ (b = 0xF0 /\ utf8.first b = 0x34)
  \/ (0xF1 <= b <= 0xF3 /\ utf8.first b = 0x04)
  \/ (b = 0xF4 /\ utf8.first b = 0x44).
Proof.
  unfold utf8.first.
  repeat match goal with
  | |- context [if ?c then _ else _] => destruct c eqn:?
  end; bools; lia.
Qed.

(** Closed tests and table look-ups are evaluated; what holds a variable stays. *)
Ltac closed_bool t :=
  let v := eval vm_compute in t in
  match v with
  | true => change t with true
  | false => change t with false
  end.

Ltac closed_N t :=
  let v := eval vm_compute in t in
  match v with
  | N0 => change t with v
  | Npos ?p => match eval vm_compute in (Pos.eqb p p) with true => change t with v end
  end.

Ltac eval_closed :=
  repeat match goal with
  | |- context [N.leb ?a ?b] => closed_bool (N.leb a b)
  | |- context [N.ltb ?a ?b] => closed_bool (N.ltb a b)
  | |- context [N.eqb ?a ?b] => closed_bool (N.eqb a b)
  | |- context [fst (utf8.acceptRanges ?a)] =>
      let v := eval vm_compute in (fst (utf8.acceptRanges a)) in
      change (fst (utf8.acceptRanges a)) with v
  | |- context [snd (utf8.acceptRanges ?a)] =>
      let v := eval vm_compute in (snd (utf8.acceptRanges a)) in
      change (snd (utf8.acceptRanges a)) with v
  end; cbv iota.


Ltac split_tests :=
  repeat match goal with
  | |- context [if ?c then _ else _] => destruct c eqn:?; bools; try lia
  end.

Ltac first_cases c :=
  let E := fresh "E" in
  destruct (first_spec (byte_val c))
    as [[? E]|[[? E]|[[? E]|[[? E]|[[? E]|[[? E]|[[? E]|[[? E]|[? E]]]]]]]]];
  try lia; rewrite E; clear E; eval_closed.

Lemma chunk_decode (chunk : string) (r : N) (rest : string) :
  rune_chunk chunk r ->
  utf8.DecodeRuneInString (chunk ++ rest) = (r, String.length chunk).
Proof.
  intros [c0 c1 H0 H1 | c0 c1 c2 H0 H1 H2 | c0 c1 c2 c3 H0 H1 H2 H3]; simpl append;
    unfold utf8.DecodeRuneInString, utf8.is_cont; first_cases c0;
    repeat match goal with
    | H : context [if ?c then _ else _] |- _ => destruct c eqn:?; bools; try lia
    end;
    split_tests;
    rewrite ?rune2_arith, ?rune3_arith, ?rune4_arith; reflexivity.
Qed.

Lemma chunk_length (chunk : string) (r : N) :
  rune_chunk chunk r -> (2 <= String.length chunk <= 4)%nat.
Proof. destruct 1; simpl; lia. Qed.


Ltac bytes_eq :=
  repeat match goal with |- String _ _ = String _ _ => f_equal end;
  try reflexivity; apply to_byte_eq.



Lemma div_3 (x y z : N) : y < 64 -> z < 64 ->
  (x * 4096 + y * 64 + z) / 4096 = x /\ (x * 4096 + y * 64 + z) / 64 mod 64 = y
  /\ (x * 4096 + y * 64 + z) mod 64 = z.
Proof. intros. repeat split. nlia. nlia. nlia. Qed.

Lemma div_4 (x y z t : N) : y < 64 -> z < 64 -> t < 64 ->
  (x * 262144 + y * 4096 + z * 64 + t) / 262144 = x
  /\ (x * 262144 + y * 4096 + z * 64 + t) / 4096 mod 64 = y
  /\ (x * 262144 + y * 4096 + z * 64 + t) / 64 mod 64 = z
  /\ (x * 262144 + y * 4096 + z * 64 + t) mod 64 = t.
Proof. intros. repeat split. nlia. nlia. nlia. nlia. Qed.


Ltac lor_byte k :=
  rewrite (lor_add _ _ k); [lia | reflexivity | simpl; lia].

Lemma chunk_encode (chunk : string) (r : N) :
  rune_chunk chunk r -> utf8.EncodeRune r = chunk.
Proof.
  intros [c0 c1 H0 H1 | c0 c1 c2 H0 H1 H2 | c0 c1 c2 c3 H0 H1 H2 H3].
  - assert (E0 : byte_val c0 mod 32 = byte_val c0 - 192) by nlia.
    assert (E1 : byte_val c1 mod 64 = byte_val c1 - 128) by nlia.
    rewrite E0, E1; clear E0 E1.
    assert (D0 : ((byte_val c0 - 192) * 64 + (byte_val c1 - 128)) / 64
                 = byte_val c0 - 192) by nlia.
    assert (D1 : ((byte_val c0 - 192) * 64 + (byte_val c1 - 128)) mod 64
                 = byte_val c1 - 128) by nlia.
    unfold utf8.EncodeRune, utf8.MaxRune, utf8.surrogateMin, utf8.surrogateMax, str1;
      cbv beta zeta.
    split_tests.
    rewrite shiftr_6, land_3F, D0, D1; clear D0 D1.
    bytes_eq; [lor_byte 5 | lor_byte 6].
  - assert (E0 : byte_val c0 mod 16 = byte_val c0 - 224) by nlia.
    assert (E1 : byte_val c1 mod 64 = byte_val c1 - 128)
      by (destruct (byte_val c0 =? 224), (byte_val c0 =? 237); nlia).
    assert (E2 : byte_val c2 mod 64 = byte_val c2 - 128) by nlia.
    rewrite E0, E1, E2; clear E0 E1 E2.
    destruct (div_3 (byte_val c0 - 224) (byte_val c1 - 128) (byte_val c2 - 128))
      as (D0 & D1 & D2);
      [destruct (byte_val c0 =? 224), (byte_val c0 =? 237); lia | lia |].
    unfold utf8.EncodeRune, utf8.MaxRune, utf8.surrogateMin, utf8.surrogateMax, str1;
      cbv beta zeta.
    rewrite !shiftr_6, !shiftr_12, !land_3F, D0, D1, D2; clear D0 D1 D2.
    destruct (byte_val c0 =? 224) eqn:?, (byte_val c0 =? 237) eqn:?; bools;
      split_tests; bytes_eq; first [lor_byte 4 | lor_byte 6].
  - assert (E0 : byte_val c0 mod 8 = byte_val c0 - 240) by nlia.
    assert (E1 : byte_val c1 mod 64 = byte_val c1 - 128)
      by (destruct (byte_val c0 =? 240), (byte_val c0 =? 244); nlia).
    assert (E2 : byte_val c2 mod 64 = byte_val c2 - 128) by nlia.
    assert (E3 : byte_val c3 mod 64 = byte_val c3 - 128) by nlia.
    rewrite E0, E1, E2, E3; clear E0 E1 E2 E3.
    destruct (div_4 (byte_val c0 - 240) (byte_val c1 - 128) (byte_val c2 - 128)
                    (byte_val c3 - 128)) as (D0 & D1 & D2 & D3);
      [destruct (byte_val c0 =? 240), (byte_val c0 =? 244); lia | lia | lia |].
    unfold utf8.EncodeRune, utf8.MaxRune, utf8.surrogateMin, utf8.surrogateMax, str1;
      cbv beta zeta.
    rewrite !shiftr_6, !shiftr_12, !shiftr_18, !land_3F, D0, D1, D2, D3; clear D0 D1 D2 D3.
    destruct (byte_val c0 =? 240) eqn:?, (byte_val c0 =? 244) eqn:?; bools;
      split_tests; bytes_eq; first [lor_byte 3 | lor_byte 6].
Qed.

Ltac chunk_side :=
  repeat match goal with
  | |- context [N.eqb ?a ?b] => destruct (N.eqb a b) eqn:?; bools
  | H : context [N.eqb ?a ?b] |- _ => destruct (N.eqb a b) eqn:?; bools
  end; lia.

Lemma decode_spec (c0 : ascii) (t0 : string) :
  0x80 <= byte_val c0 ->
  utf8.DecodeRuneInString (String c0 t0) = (utf8.RuneError, 1%nat)
  \/ exists chunk rest r,
       String c0 t0 = chunk ++ rest /\ rune_chunk chunk r
       /\ utf8.DecodeRuneInString (String c0 t0) = (r, String.length chunk).
Proof.
  intros Hhigh. unfold utf8.DecodeRuneInString, utf8.is_cont. first_cases c0;
  repeat match goal with
  | |- context [match ?t with EmptyString => _ | String _ _ => _ end] => destruct t
  | |- context [if ?c then _ else _] => destruct c eqn:?
  end; bools; try (left; reflexivity); right.
  all: rewrite ?rune2_arith, ?rune3_arith, ?rune4_arith.
  all: match goal with
    | |- exists chunk rest r, String ?a (String ?b ?t) = _ /\ _ /\ (_, 2%nat) = _ =>
        exists (String a (str1 b)), t
    | |- exists chunk rest r, String ?a (String ?b (String ?c ?t)) = _ /\ _ /\ (_, 3%nat) = _ =>
        exists (String a (String b (str1 c))), t
    | |- exists chunk rest r, String ?a (String ?b (String ?c (String ?d ?t))) = _
                              /\ _ /\ (_, 4%nat) = _ =>
        exists (String a (String b (String c (str1 d)))), t
    end.
  all: eexists; split; [reflexivity|split; [|reflexivity]].
  all: first [ apply chunk2; chunk_side | apply chunk3; chunk_side | apply chunk4; chunk_side ].
Qed.

Ltac each_byte b :=
  destruct b as [[] [] [] [] [] [] [] []].

Lemma scan_all_error (data : string) : json.scan_all None data = None.
Proof. induction data; simpl; auto. Qed.

Lemma scan_all_app (sc : json.scanner) (a b : string) :
  json.scan_all sc (a ++ b) = json.scan_all (json.scan_all sc a) b.
Proof. revert sc; induction a as [|c a IH]; intros sc; simpl; [reflexivity | apply IH]. Qed.

Lemma scan_safe (b : ascii) (lit : string) (stk : list json.parseState) :
  (byte_val b <? 0x80) = true -> json.htmlSafeSet b = true ->
  json.scan_step (json.stateInString lit) stk b
  = Some (json.stateInString (lit ++ str1 b), stk).
Proof. (each_byte b; intros H1 H2; try discriminate; reflexivity). Qed.



Ltac eval_escape :=
  repeat match goal with
  | |- context [json.escapeByte ?b] =>
      let v := eval vm_compute in (json.escapeByte b) in
      change (json.escapeByte b) with v
  end.

Lemma scan_escape (b : ascii) (lit : string) (stk : list json.parseState) :
  (byte_val b <? 0x80) = true -> json.htmlSafeSet b = false ->
  json.scan_all (Some (json.stateInString lit, stk)) (json.escapeByte b)
  = Some (json.stateInString (lit ++ json.escapeByte b), stk).
Proof.
  (each_byte b; intros H1 H2; try discriminate; eval_escape; cbn; rewrite ?append_assoc; reflexivity).
Qed.

Lemma unquote_safe (b : ascii) (m : nat) (X : string) :
  (byte_val b <? 0x80) = true -> json.htmlSafeSet b = true ->
  json.unquoteLoop (S m) (String b X) = json.cons_to b (json.unquoteLoop m X).
Proof. (each_byte b; intros H1 H2; try discriminate; reflexivity). Qed.

Lemma unquote_escape (b : ascii) (m : nat) (X : string) :
  (byte_val b <? 0x80) = true -> json.htmlSafeSet b = false ->
  json.unquoteLoop (S m) (json.escapeByte b ++ X) = json.cons_to b (json.unquoteLoop m X).
Proof. (each_byte b; intros H1 H2; try discriminate; eval_escape; reflexivity). Qed.

Lemma decode_ascii (b : ascii) (rest : string) :
  (byte_val b <? 0x80) = true ->
  utf8.DecodeRuneInString (String b rest) = (byte_val b, 1%nat).
Proof.
  intros H. bools. unfold utf8.DecodeRuneInString. first_cases b. reflexivity.
Qed.

Lemma decode_take4 (s : string) :
  utf8.DecodeRuneInString (take 4 s) = utf8.DecodeRuneInString s.
Proof.
  destruct s as [|c0 [|c1 [|c2 [|c3 t]]]]; reflexivity.
Qed.

Lemma escape_length (b : ascii) : (1 <= String.length (json.escapeByte b))%nat.
Proof.
  unfold json.escapeByte.
  repeat match goal with |- context [if ?c then _ else _] => destruct c end;
    simpl; lia.
Qed.

(** A byte that is not ASCII goes through the scanner of a string as it is. *)
Lemma scan_high (c : ascii) (lit : string) (stk : list json.parseState) :
  0x80 <= byte_val c ->
  json.scan_step (json.stateInString lit) stk c
  = Some (json.stateInString (lit ++ str1 c), stk).
Proof.
  intros H. unfold json.scan_step.
  destruct (Ascii.eqb_spec c ch_quote) as [->|_]; [change (byte_val ch_quote) with 34 in H; lia|].
  destruct (Ascii.eqb_spec c ch_backslash) as [->|_]; [change (byte_val ch_backslash) with 92 in H; lia|].
  destruct (byte_val c <? 32) eqn:E; bools; [lia | reflexivity].
Qed.

Lemma scan_chunk (chunk : string) (r : N) (lit : string) (stk : list json.parseState) :
  rune_chunk chunk r ->
  json.scan_all (Some (json.stateInString lit, stk)) chunk
  = Some (json.stateInString (lit ++ chunk), stk).
Proof.
  intros [c0 c1 H0 H1 | c0 c1 c2 H0 H1 H2 | c0 c1 c2 c3 H0 H1 H2 H3];
    cbn [json.scan_all json.scan str1];
    repeat (rewrite scan_high; [cbn [json.scan_all json.scan]|chunk_side]);
    rewrite ?append_assoc; reflexivity.
Qed.

Lemma unquote_chunk (chunk : string) (r : N) (m : nat) (X : string) :
  rune_chunk chunk r ->
  json.unquoteLoop (S m) (chunk ++ X) = json.app_to chunk (json.unquoteLoop m X).
Proof.
  intros H.
  assert (Hd := chunk_decode chunk r X H).
  assert (He := chunk_encode chunk r H).
  assert (Hx := drop_append chunk X).
  destruct H as [c0 c1 H0 H1 | c0 c1 c2 H0 H1 H2 | c0 c1 c2 c3 H0 H1 H2 H3];
    cbn [append str1] in *; cbn [json.unquoteLoop];
    (destruct (Ascii.eqb_spec c0 ch_backslash) as [->|_]; [change (byte_val ch_backslash) with 92 in H0; lia|]);
    (destruct (Ascii.eqb_spec c0 ch_quote) as [->|_]; [change (byte_val ch_quote) with 34 in H0; lia|]);
    cbn [orb];
    (destruct (byte_val c0 <? 32) eqn:E; bools; [lia|]);
    (destruct (byte_val c0 <? utf8.RuneSelf) eqn:E'; unfold utf8.RuneSelf in E'; bools; [lia|]);
    rewrite Hd, He; cbn [String.length] in Hx |- *; rewrite Hx; reflexivity.
Qed.

Lemma appendStringLoop_nil (n : nat) : json.appendStringLoop n EmptyString = EmptyString.
Proof. destruct n; reflexivity. Qed.

Lemma unquoteLoop_nil (m : nat) : json.unquoteLoop m EmptyString = Some EmptyString.
Proof. destruct m; reflexivity. Qed.

(** The escape of a line or paragraph separator. *)
Lemma scan_u202 (r : N) (lit : string) (stk : list json.parseState) :
  r = 0x2028 \/ r = 0x2029 ->
  json.scan_all (Some (json.stateInString lit, stk))
    (String ch_backslash ("u202" ++ str1 (json.hexdigit (N.land r 0xF))))
  = Some (json.stateInString
            (lit ++ String ch_backslash ("u202" ++ str1 (json.hexdigit (N.land r 0xF)))), stk).
Proof.
  intros [->| ->]; cbn; rewrite ?append_assoc; reflexivity.
Qed.

Lemma unquote_u202 (r : N) (m : nat) (X : string) :
  r = 0x2028 \/ r = 0x2029 ->
  json.unquoteLoop (S m)
    (String ch_backslash ("u202" ++ str1 (json.hexdigit (N.land r 0xF))) ++ X)
  = json.app_to (utf8.EncodeRune r) (json.unquoteLoop m X).
Proof. intros [->| ->]; reflexivity. Qed.

Lemma coerce_from_nil (v : nat) : coerce_from v EmptyString = EmptyString.
Proof. destruct v; reflexivity. Qed.

Lemma scan_ufffd (lit : string) (stk : list json.parseState) :
  json.scan_all (Some (json.stateInString lit, stk)) (String ch_backslash "ufffd")
  = Some (json.stateInString (lit ++ String ch_backslash "ufffd"), stk).
Proof. cbn. rewrite ?append_assoc. reflexivity. Qed.

Lemma unquote_ufffd (m : nat) (X : string) :
  json.unquoteLoop (S m) (String ch_backslash "ufffd" ++ X)
  = json.app_to (utf8.EncodeRune utf8.RuneError) (json.unquoteLoop m X).
Proof. reflexivity. Qed.

Lemma string_coerce (k : nat) :
  forall (s : string) (n v : nat),
    (String.length s <= k)%nat -> (String.length s <= n)%nat ->
    (String.length s <= v)%nat ->
    (forall lit stk,
        json.scan_all (Some (json.stateInString lit, stk)) (json.appendStringLoop n s)
        = Some (json.stateInString (lit ++ json.appendStringLoop n s), stk))
    /\ (forall m, (String.length (json.appendStringLoop n s) <= m)%nat ->
                  json.unquoteLoop m (json.appendStringLoop n s) = Some (coerce_from v s)).
Proof.
  induction k as [|k IH]; intros s n v Hk Hn Hv.
  - destruct s; [|simpl in Hk; lia].
    rewrite appendStringLoop_nil, coerce_from_nil. split; intros.
    + now rewrite append_nil_r.
    + apply unquoteLoop_nil.
  - destruct s as [|b rest].
    { rewrite appendStringLoop_nil, coerce_from_nil. split; intros.
      + now rewrite append_nil_r.
      + apply unquoteLoop_nil. }
    destruct n as [|n]; [simpl in Hn; lia|].
    destruct v as [|v]; [simpl in Hv; lia|].
    cbn [String.length] in Hk, Hn, Hv.
    cbn [json.appendStringLoop coerce_from]. unfold utf8.RuneSelf.
    destruct (byte_val b <? 128) eqn:Hascii.
    + (* an ASCII byte *)
      rewrite decode_ascii by assumption.
      assert (Hne : (byte_val b =? utf8.RuneError) = false)
        by (apply N.eqb_neq; unfold utf8.RuneError; apply N.ltb_lt in Hascii; lia).
      rewrite Hne. cbn [andb drop take append].
      destruct (IH rest n v) as [IHscan IHunq]; try lia.
      destruct (json.htmlSafeSet b) eqn:Hsafe.
      * split.
        -- intros lit stk. cbn [append str1 json.scan_all json.scan].
           rewrite scan_safe, IHscan, append_assoc by assumption. reflexivity.
        -- intros m Hm. cbn [append str1 String.length] in Hm |- *.
           destruct m as [|m]; [lia|].
           rewrite unquote_safe, IHunq by (assumption || lia). reflexivity.
      * split.
        -- intros lit stk.
           rewrite scan_all_app, scan_escape, IHscan, append_assoc by assumption.
           reflexivity.
        -- intros m Hm. rewrite length_append in Hm.
           pose proof (escape_length b).
           destruct m as [|m]; [lia|].
           rewrite unquote_escape, IHunq by (assumption || lia). reflexivity.
    + (* the first byte of a longer encoding, or a stray byte *)
      apply N.ltb_ge in Hascii. rewrite decode_take4.
      destruct (decode_spec b rest Hascii) as [Hbad | (chunk & rest' & r & Hs & Hchunk & Hdec)].
      { rewrite Hbad. cbn [N.eqb Nat.eqb andb drop].
        change (utf8.RuneError =? utf8.RuneError) with true. cbn [andb].
        destruct (IH rest n v) as [IHscan IHunq]; try lia.
        split.
        - intros lit stk.
          rewrite scan_all_app, scan_ufffd, IHscan, append_assoc. reflexivity.
        - intros m Hm. rewrite length_append in Hm.
          destruct m as [|m]; [cbn [String.length] in Hm; lia|].
          rewrite unquote_ufffd, IHunq by (cbn [String.length] in Hm; lia).
          reflexivity. }
      pose proof (chunk_length _ _ Hchunk) as Hlen.
      assert (Hl : S (String.length rest) = (String.length chunk + String.length rest')%nat)
        by (change (S (String.length rest)) with (String.length (String b rest));
            rewrite Hs; apply length_append).
      rewrite Hdec. rewrite Hs.
      rewrite drop_append. rewrite take_append.
      assert (Hsz : (String.length chunk =? 1)%nat = false) by (apply Nat.eqb_neq; lia).
      rewrite Hsz, andb_false_r.
      destruct (IH rest' n v) as [IHscan IHunq]; try lia.
      destruct ((r =? 8232) || (r =? 8233)) eqn:Hsep.
      * assert (Hr : r = 0x2028 \/ r = 0x2029)
          by (apply orb_prop in Hsep; destruct Hsep as [H|H]; apply N.eqb_eq in H; auto).
        split.
        -- intros lit stk.
           rewrite scan_all_app, scan_u202, IHscan, append_assoc by assumption.
           reflexivity.
        -- intros m Hm. rewrite length_append in Hm.
           destruct m as [|m]; [cbn [String.length] in Hm; lia|].
           rewrite unquote_u202, IHunq, (chunk_encode _ _ Hchunk)
             by (assumption || (cbn [String.length] in Hm; lia)).
           reflexivity.
      * split.
        -- intros lit stk.
           rewrite scan_all_app, (scan_chunk _ _ _ _ Hchunk), IHscan, append_assoc.
           reflexivity.
        -- intros m Hm. rewrite length_append in Hm.
           destruct m as [|m]; [lia|].
           rewrite (unquote_chunk _ _ _ _ Hchunk), IHunq by lia. reflexivity.
Qed.

(** Decoding consumes at least one byte. *)
Lemma decode_size (b : ascii) (rest : string) :
  (1 <= snd (utf8.DecodeRuneInString (String b rest)))%nat.
Proof.
  destruct (byte_val b <? 0x80) eqn:E.
  - rewrite decode_ascii by assumption. cbn [snd]. lia.
  - apply N.ltb_ge in E.
    destruct (decode_spec b rest E) as [-> | (chunk & rest' & r & _ & Hc & ->)];
      cbn [snd]; [lia|].
    pose proof (chunk_length _ _ Hc). lia.
Qed.

(** Valid text is left as it is. *)
Lemma coerce_from_valid (v : nat) :
  forall s, (String.length s <= v)%nat -> utf8.valid_from v s = true -> coerce_from v s = s.
Proof.
  induction v as [|v IH]; intros s Hv Hvalid.
  - destruct s; [reflexivity | simpl in Hv; lia].
  - destruct s as [|b rest]; [reflexivity|].
    cbn [utf8.valid_from coerce_from] in Hvalid |- *.
    pose proof (decode_size b rest) as Hsz.
    destruct (utf8.DecodeRuneInString (String b rest)) as [r size].
    cbn [snd] in Hsz.
    destruct ((r =? utf8.RuneError) && (size =? 1)%nat); [discriminate|].
    rewrite IH; [apply take_drop| |assumption].
    rewrite length_drop. cbn [String.length] in Hv |- *. lia.
Qed.

Lemma coerce_valid (s : string) : utf8.ValidString s = true -> coerce s = s.
Proof. apply coerce_from_valid. lia. Qed.

Lemma coerce_eqb_empty (s : string) : (coerce s =? "")%string = (s =? "")%string.
Proof.
  destruct s as [|b rest]; [reflexivity|].
  unfold coerce. cbn [String.length coerce_from].
  pose proof (decode_size b rest) as Hsz.
  destruct (utf8.DecodeRuneInString (String b rest)) as [r size].
  cbn [snd] in Hsz.
  destruct ((r =? utf8.RuneError) && (size =? 1)%nat); [reflexivity|].
  destruct size as [|size]; [lia|]. reflexivity.
Qed.

Lemma coerceSubmission_valid (x : Submission) :
  validSubmission x = true -> coerceSubmission x = x.
Proof.
  unfold validSubmission. intros H.
  apply andb_prop in H; destruct H as [H Ht].
  apply andb_prop in H; destruct H as [H Hl].
  apply andb_prop in H; destruct H as [Hn Hp].
  destruct x as [n p l t]. unfold coerceSubmission.
  cbn [Name Phone LinkedIn Timestamp] in *.
  now rewrite !coerce_valid by assumption.
Qed.

Lemma coerceLedger_valid (arr : list Submission) :
  validLedger arr = true -> map coerceSubmission arr = arr.
Proof.
  induction arr as [|x arr IH]; intros H; [reflexivity|].
  cbn [validLedger forallb] in H. apply andb_prop in H. destruct H as [Hx Harr].
  cbn [map]. now rewrite coerceSubmission_valid, IH.
Qed.

(** ** The codec of the ledger *)

Lemma scan_appendString (st : json.step) (stk : list json.parseState) (s : string) :
  opensString st = true ->
  json.scan_all (Some (st, stk)) (json.appendString s)
  = json.endValue (json.Str (coerce s)) stk.
Proof.
  intros Hst. unfold json.appendString, coerce.
  destruct (string_coerce (String.length s) s (String.length s) (String.length s))
    as [Hscan Hunq]; try lia.
  cbn [json.scan_all].
  assert (H1 : json.scan (Some (st, stk)) ch_quote
               = Some (json.stateInString EmptyString, stk))
    by (destruct st; try discriminate; reflexivity).
  rewrite H1, scan_all_app, Hscan. cbn.
  unfold json.unquote. rewrite Hunq by lia. reflexivity.
Qed.

Lemma scan_member (st : json.step) (ms : list (string * json.value))
    (up : list json.parseState) (key val : string) :
  st = json.stateBeginString \/ st = json.stateBeginStringOrEmpty ->
  coerce key = key ->
  json.scan_all (Some (st, json.parseObjectKey ms None :: up)) (member key val)
  = Some (json.stateEndValue,
          json.parseObjectValue (ms ++ [(key, json.Str (coerce val))]) None :: up).
Proof.
  intros Hst Hk. unfold member.
  rewrite !scan_all_app.
  assert (H1 : json.scan_all (Some (st, json.parseObjectKey ms None :: up)) "    "
               = Some (st, json.parseObjectKey ms None :: up))
    by (destruct Hst as [-> | ->]; reflexivity).
  rewrite H1, scan_appendString, Hk by (destruct Hst as [-> | ->]; reflexivity).
  change (json.scan_all (json.endValue (json.Str key) (json.parseObjectKey ms None :: up)) ": ")
    with (Some (json.stateBeginValue, json.parseObjectValue ms (Some key) :: up)).
  rewrite scan_appendString by reflexivity. reflexivity.
Qed.

Lemma scan_comma (ms : list (string * json.value)) (up : list json.parseState) :
  json.scan_all (json.scan_all
    (Some (json.stateEndValue, json.parseObjectValue ms None :: up)) ",") nl
  = Some (json.stateBeginString, json.parseObjectKey ms None :: up).
Proof. reflexivity. Qed.

Lemma scan_close (ms : list (string * json.value)) (vs : list json.value) :
  json.scan_all (json.scan_all
    (Some (json.stateEndValue, [json.parseObjectValue ms None; json.parseArrayValue vs]))
    nl) "  }"
  = Some (json.stateEndValue, [json.parseArrayValue (vs ++ [json.Object ms])]).
Proof. reflexivity. Qed.

(** A record, read as an element of the array. *)
Lemma scan_submission (st : json.step) (vs : list json.value) (x : Submission) :
  st = json.stateBeginValue \/ st = json.stateBeginValueOrEmpty ->
  json.scan_all (Some (st, [json.parseArrayValue vs])) (marshalSubmission x)
  = Some (json.stateEndValue,
          [json.parseArrayValue (vs ++ [submissionValue (coerceSubmission x)])]).
Proof.
  intros Hst.
  unfold marshalSubmission, submissionValue, coerceSubmission.
  cbn [Name Phone LinkedIn Timestamp]. rewrite coerce_eqb_empty.
  rewrite !scan_all_app.
  assert (H1 : json.scan_all (Some (st, [json.parseArrayValue vs])) "{"
               = Some (json.stateBeginStringOrEmpty,
                       [json.parseObjectKey [] None; json.parseArrayValue vs]))
    by (destruct Hst as [-> | ->]; reflexivity).
  rewrite H1.
  change (json.scan_all (Some (json.stateBeginStringOrEmpty,
                               [json.parseObjectKey [] None; json.parseArrayValue vs])) nl)
    with (Some (json.stateBeginStringOrEmpty,
                [json.parseObjectKey [] None; json.parseArrayValue vs])).
  rewrite scan_member by (auto || reflexivity).
  rewrite scan_comma, scan_member by (auto || reflexivity).
  rewrite scan_comma.
  destruct (LinkedIn x =? "")%string.
  - change (json.scan_all ?sc EmptyString) with sc.
    rewrite scan_member by (auto || reflexivity).
    rewrite scan_close. reflexivity.
  - rewrite !scan_all_app, scan_member by (auto || reflexivity).
    rewrite scan_comma, scan_member by (auto || reflexivity).
    rewrite scan_close. reflexivity.
Qed.

Lemma scan_elements (arr : list Submission) (vs : list json.value) :
  json.scan_all (Some (json.stateEndValue, [json.parseArrayValue vs]))
                (marshalElements "," arr)
  = Some (json.stateEndValue,
          [json.parseArrayValue (vs ++ map submissionValue (map coerceSubmission arr))]).
Proof.
  revert vs; induction arr as [|x arr IH]; intros vs.
  - simpl. now rewrite app_nil_r.
  - cbn [marshalElements]. rewrite !scan_all_app.
    change (json.scan_all (json.scan_all (json.scan_all
              (Some (json.stateEndValue, [json.parseArrayValue vs])) ",") nl) "  ")
      with (Some (json.stateBeginValue, [json.parseArrayValue vs])).
    rewrite scan_submission, IH by auto.
    rewrite <- app_assoc. reflexivity.
Qed.

Lemma parse_MarshalIndent (arr : list Submission) :
  json.parse (MarshalIndent arr)
  = Some (json.Array (map submissionValue (map coerceSubmission arr))).
Proof.
  destruct arr as [|x arr]; [reflexivity|].
  unfold MarshalIndent, json.parse, json.reset.
  cbn [marshalElements].
  rewrite !scan_all_app.
  change (json.scan_all (json.scan_all (json.scan_all (json.scan_all
            (Some (json.stateBeginValue, [])) "[") EmptyString) nl) "  ")
    with (Some (json.stateBeginValueOrEmpty, [json.parseArrayValue []])).
  rewrite scan_submission, scan_elements by auto.
  reflexivity.
Qed.

Lemma decode_submissionValue (x : Submission) :
  decodeSubmission (submissionValue x) = Some x.
Proof.
  destruct x as [n p l t]. unfold submissionValue. cbn [LinkedIn Name Phone Timestamp].
  destruct (String.eqb_spec l "") as [->|Hl]; reflexivity.
Qed.

Lemma decode_submissionValues (arr : list Submission) :
  decodeSubmissions (map submissionValue arr) = Some arr.
Proof.
  induction arr as [|x arr IH]; [reflexivity|].
  cbn [map decodeSubmissions]. now rewrite decode_submissionValue, IH.
Qed.

(** What is read back from the encoding of any ledger: its records,
    each string coerced to valid UTF-8 as the encoder writes it. *)
Lemma Unmarshal_MarshalIndent_coerce (arr : list Submission) :
  Unmarshal (MarshalIndent arr) = Some (map coerceSubmission arr).
Proof.
  unfold Unmarshal. rewrite parse_MarshalIndent. apply decode_submissionValues.
Qed.

(** The codec round-trips on well-formed ledgers. *)
Lemma Unmarshal_MarshalIndent (arr : list Submission) :
  validLedger arr = true -> Unmarshal (MarshalIndent arr) = Some arr.
Proof.
  intros H. now rewrite Unmarshal_MarshalIndent_coerce, coerceLedger_valid.
Qed.

(** Validity is needed: a byte that begins no encoding is written as
    the escape of U+FFFD and read back as that rune. *)
Lemma stray_byte_coerced :
  let x := mkSubmission (str1 (to_byte 0xFF)) "1" EmptyString "t" in
  validSubmission x = false
  /\ Unmarshal (MarshalIndent [x])
     = Some [mkSubmission (utf8.EncodeRune utf8.RuneError) "1" EmptyString "t"].
Proof. split; vm_compute; reflexivity. Qed.

(** ** What the decoder returns *)

Lemma wf_valid_from (s : string) :
  wf s -> forall v, (String.length s <= v)%nat -> utf8.valid_from v s = true.
Proof.
  induction 1 as [|c s Hc Hs IH|chunk r s Hchunk Hs IH]; intros v Hv.
  - destruct v; reflexivity.
  - destruct v as [|v]; [simpl in Hv; lia|].
    cbn [utf8.valid_from]. rewrite decode_ascii by (now apply N.ltb_lt).
    assert (E : (byte_val c =? utf8.RuneError) = false)
      by (apply N.eqb_neq; unfold utf8.RuneError; lia).
    rewrite E. cbn [andb drop]. apply IH. simpl in Hv. lia.
  - pose proof (chunk_length _ _ Hchunk) as Hlen.
    rewrite length_append in Hv.
    destruct v as [|v]; [lia|].
    assert (Hd := chunk_decode chunk r s Hchunk).
    assert (Hx := drop_append chunk s).
    destruct (chunk ++ s) as [|c0 t0] eqn:E.
    { destruct chunk; [simpl in Hlen; lia | discriminate]. }
    cbn [utf8.valid_from]. rewrite Hd.
    assert (Hsz : (String.length chunk =? 1)%nat = false) by (apply Nat.eqb_neq; lia).
    rewrite Hsz, andb_false_r, Hx. apply IH. lia.
Qed.

Lemma wf_ValidString (s : string) : wf s -> utf8.ValidString s = true.
Proof. intros H. apply wf_valid_from; [assumption | lia]. Qed.

Lemma byte_lor (K x k : N) :
  K mod 2 ^ k = 0 -> x < 2 ^ k -> K + x < 256 ->
  byte_val (to_byte (N.lor K x)) = K + x.
Proof.
  intros H1 H2 H3. rewrite (lor_add _ _ k) by assumption.
  now apply byte_val_to_byte.
Qed.

Lemma EncodeRune_cases (r : N) :
  (r <= 0x7F /\ utf8.EncodeRune r = str1 (to_byte r))
  \/ exists r', rune_chunk (utf8.EncodeRune r) r'.
Proof.
  unfold utf8.EncodeRune, utf8.MaxRune, utf8.surrogateMin, utf8.surrogateMax.
  cbv beta zeta.
  destruct (r <=? 127) eqn:E1; bools; [left; auto|right].
  destruct (r <=? 2047) eqn:E2; bools.
  { eexists. apply chunk2.
    - rewrite shiftr_6, (byte_lor _ _ 5); try reflexivity; change (2 ^ 5) with 32; nlia.
    - rewrite land_3F, (byte_lor _ _ 6); try reflexivity; change (2 ^ 6) with 64; nlia. }
  destruct ((1114111 <? r) || (55296 <=? r) && (r <=? 57343)) eqn:E3.
  { eexists. apply chunk3; vm_compute; split; discriminate. }
  apply orb_false_elim in E3. destruct E3 as [E3 E4].
  apply N.ltb_ge in E3.
  assert (Hs : r < 55296 \/ 57343 < r)
    by (apply andb_false_iff in E4; destruct E4 as [E4|E4]; apply N.leb_gt in E4; auto).
  clear E4.
  destruct (r <=? 65535) eqn:E5; bools.
  - assert (B0 : byte_val (to_byte (N.lor 224 (N.shiftr r 12))) = 224 + r / 4096)
      by (rewrite shiftr_12, (byte_lor _ _ 4); try reflexivity; change (2 ^ 4) with 16; nlia).
    assert (B1 : byte_val (to_byte (N.lor 128 (N.land (N.shiftr r 6) 63)))
                 = 128 + (r / 64) mod 64)
      by (rewrite shiftr_6, land_3F, (byte_lor _ _ 6); try reflexivity;
          change (2 ^ 6) with 64; nlia).
    assert (B2 : byte_val (to_byte (N.lor 128 (N.land r 63))) = 128 + r mod 64)
      by (rewrite land_3F, (byte_lor _ _ 6); try reflexivity;
          change (2 ^ 6) with 64; nlia).
    eexists. apply chunk3; rewrite ?B0, ?B1, ?B2; clear B0 B1 B2.
    + nlia.
    + destruct Hs as [Hs|Hs];
        destruct (224 + r / 4096 =? 224) eqn:?, (224 + r / 4096 =? 237) eqn:?; bools; nlia.
    + nlia.
  - assert (B0 : byte_val (to_byte (N.lor 240 (N.shiftr r 18))) = 240 + r / 262144)
      by (rewrite shiftr_18, (byte_lor _ _ 3); try reflexivity; change (2 ^ 3) with 8; nlia).
    assert (B1 : byte_val (to_byte (N.lor 128 (N.land (N.shiftr r 12) 63)))
                 = 128 + (r / 4096) mod 64)
      by (rewrite shiftr_12, land_3F, (byte_lor _ _ 6); try reflexivity;
          change (2 ^ 6) with 64; nlia).
    assert (B2 : byte_val (to_byte (N.lor 128 (N.land (N.shiftr r 6) 63)))
                 = 128 + (r / 64) mod 64)
      by (rewrite shiftr_6, land_3F, (byte_lor _ _ 6); try reflexivity;
          change (2 ^ 6) with 64; nlia).
    assert (B3 : byte_val (to_byte (N.lor 128 (N.land r 63))) = 128 + r mod 64)
      by (rewrite land_3F, (byte_lor _ _ 6); try reflexivity;
          change (2 ^ 6) with 64; nlia).
    eexists. apply chunk4; rewrite ?B0, ?B1, ?B2, ?B3; clear B0 B1 B2 B3.
    + nlia.
    + destruct (240 + r / 262144 =? 240) eqn:?, (240 + r / 262144 =? 244) eqn:?; bools; nlia.
    + nlia.
    + nlia.
Qed.

Lemma wf_EncodeRune (r : N) (s : string) : wf s -> wf (utf8.EncodeRune r ++ s).
Proof.
  intros Hs. destruct (EncodeRune_cases r) as [[Hr ->]|[r' Hc]].
  - cbn [str1 append]. apply wf_ascii; [|assumption].
    rewrite byte_val_to_byte; lia.
  - now apply (wf_chunk _ r').
Qed.

Lemma escaped_ascii (e : ascii) :
  ((e =? ch_quote) || (e =? ch_backslash) || (e =? "/") || (e =? "'"))%char = true ->
  byte_val e < 0x80.
Proof. each_byte e; intros H; try discriminate H; reflexivity. Qed.

Ltac inv_option :=
  match goal with
  | H : json.cons_to _ ?o = Some _ |- _ =>
      destruct o eqn:?;
      [unfold json.cons_to, option_map in H; injection H as <- | discriminate H]
  | H : json.app_to _ ?o = Some _ |- _ =>
      destruct o eqn:?;
      [unfold json.app_to, option_map in H; injection H as <- | discriminate H]
  end.

(** What [unquote] returns is well-formed. *)
Lemma unquoteLoop_wf (m : nat) :
  forall lit s, json.unquoteLoop m lit = Some s -> wf s.
Proof.
  induction m as [|m IH]; intros lit s H.
  - destruct lit; [injection H as <-; constructor | discriminate].
  - destruct lit as [|c r]; [injection H as <-; constructor|].
    cbn [json.unquoteLoop] in H.
    destruct (c =? ch_backslash)%char.
    + destruct r as [|e r']; [discriminate|].
      destruct ((e =? ch_quote) || (e =? ch_backslash) || (e =? "/") || (e =? "'"))%char eqn:E.
      { inv_option. apply wf_ascii; [now apply escaped_ascii | eauto]. }
      repeat match type of H with
      | (if (e =? ?x)%char then _ else _) = _ =>
          destruct (e =? x)%char;
          [inv_option; apply wf_ascii; [reflexivity | eauto] |]
      end.
      destruct (e =? "u")%char; [|discriminate].
      destruct (json.getu4 _) as [rr|]; [|discriminate].
      destruct (json.IsSurrogate rr).
      * destruct (negb _); inv_option;
          first [apply wf_EncodeRune | apply (wf_EncodeRune utf8.RuneError)]; eauto.
      * inv_option. apply wf_EncodeRune; eauto.
    + destruct ((c =? ch_quote)%char || (byte_val c <? 32)); [discriminate|].
      destruct (byte_val c <? utf8.RuneSelf) eqn:E.
      * inv_option. apply wf_ascii; [now apply N.ltb_lt | eauto].
      * destruct (utf8.DecodeRuneInString (String c r)) as [rr size].
        inv_option. apply wf_EncodeRune; eauto.
Qed.

Lemma unquote_valid (lit s : string) :
  json.unquote lit = Some s -> utf8.ValidString s = true.
Proof. intros H. apply wf_ValidString. exact (unquoteLoop_wf _ _ _ H). Qed.

Lemma value_ok_array (vs : list json.value) :
  value_ok (json.Array vs) <-> Forall value_ok vs.
Proof.
  induction vs as [|v vs IH]; cbn.
  - split; auto.
  - split.
    + intros [H1 H2]. constructor; [assumption | now apply IH].
    + intros H. inversion H; subst. split; [assumption | now apply IH].
Qed.

Lemma value_ok_object (ms : list (string * json.value)) :
  value_ok (json.Object ms) <-> Forall (fun m => value_ok (snd m)) ms.
Proof.
  induction ms as [|m ms IH]; cbn.
  - split; auto.
  - split.
    + intros [H1 H2]. constructor; [assumption | now apply IH].
    + intros H. inversion H; subst. split; [assumption | now apply IH].
Qed.

Lemma endValue_ok (v : json.value) (stack : list json.parseState) :
  value_ok v -> Forall frame_ok stack -> scanner_ok (json.endValue v stack).
Proof.
  intros Hv Hs. unfold json.endValue.
  destruct stack as [|p up]; [cbn; auto|].
  inversion Hs as [|? ? Hp Hup]; subst.
  destruct p as [ms [k|]|ms [k|]|vs]; cbn; auto.
  - destruct v; cbn; auto.
  - split; [|exact I]. constructor; [|assumption].
    cbn. apply Forall_app. split; [assumption|]. repeat constructor. assumption.
  - split; [|exact I]. constructor; [|assumption].
    cbn. apply Forall_app. split; [assumption|]. repeat constructor. assumption.
Qed.

Lemma stepEndTop_ok (v : json.value) (c : ascii) :
  value_ok v -> scanner_ok (json.stepEndTop v c).
Proof. intros H. unfold json.stepEndTop. destruct (json.isSpace c); cbn; auto. Qed.

Lemma stepEndValue_ok (stack : list json.parseState) (c : ascii) :
  Forall frame_ok stack -> scanner_ok (json.stepEndValue stack c).
Proof.
  intros Hs. unfold json.stepEndValue.
  destruct (json.isSpace c); [cbn; auto|].
  destruct stack as [|p up]; [exact I|].
  inversion Hs as [|? ? Hp Hup]; subst.
  destruct p as [ms [k|]|ms [k|]|vs]; try exact I.
  - destruct (c =? ":")%char; cbn; auto.
  - destruct (c =? ",")%char; [cbn; auto|].
    destruct (c =? "}")%char; [|exact I].
    apply endValue_ok; [now apply value_ok_object | assumption].
  - destruct (c =? ",")%char; [cbn; auto|].
    destruct (c =? "]")%char; [|exact I].
    apply endValue_ok; [now apply value_ok_array | assumption].
Qed.

Lemma afterValue_ok (v : json.value) (stack : list json.parseState) (c : ascii) :
  value_ok v -> Forall frame_ok stack -> scanner_ok (json.afterValue v stack c).
Proof.
  intros Hv Hs. unfold json.afterValue.
  pose proof (endValue_ok v stack Hv Hs) as H.
  destruct (json.endValue v stack) as [[st stack']|]; [|exact I].
  destruct H as [H1 H2].
  destruct st; try exact I.
  - now apply stepEndValue_ok.
  - now apply stepEndTop_ok.
Qed.

Lemma pushParseState_ok (p : json.parseState) (next : json.step)
    (stack : list json.parseState) :
  frame_ok p -> Forall frame_ok stack ->
  match next with json.stateEndTop _ => False | _ => True end ->
  scanner_ok (json.pushParseState p next stack).
Proof.
  intros Hp Hs Hn. unfold json.pushParseState.
  destruct (_ <=? _); [|exact I].
  split; [now constructor | destruct next; auto; contradiction].
Qed.

Lemma stepBeginString_ok (stack : list json.parseState) (c : ascii) :
  Forall frame_ok stack -> scanner_ok (json.stepBeginString stack c).
Proof.
  intros Hs. unfold json.stepBeginString.
  repeat match goal with |- context [if ?b then _ else _] => destruct b end; cbn; auto.
Qed.

Lemma stepBeginValue_ok (stack : list json.parseState) (c : ascii) :
  Forall frame_ok stack -> scanner_ok (json.stepBeginValue stack c).
Proof.
  intros Hs. unfold json.stepBeginValue.
  repeat match goal with
  | |- context [json.pushParseState] => fail 1
  | |- context [if ?b then _ else _] => destruct b
  end; try (cbn; auto; fail).
  all: repeat match goal with
  | |- scanner_ok (json.pushParseState _ _ _) =>
      apply pushParseState_ok; cbn; auto
  | |- scanner_ok (if ?b then _ else _) => destruct b
  | |- _ => cbn; auto; fail
  end.
Qed.

Lemma scan_step_ok (st : json.step) (stack : list json.parseState) (c : ascii) :
  scanner_ok (Some (st, stack)) -> scanner_ok (json.scan_step st stack c).
Proof.
  intros [Hs Hv].
  assert (Hnum : scanner_ok (json.afterValue json.Number stack c))
    by (now apply afterValue_ok).
  assert (Hbv := stepBeginValue_ok stack c Hs).
  assert (Hbs := stepBeginString_ok stack c Hs).
  assert (Hev := stepEndValue_ok stack c Hs).
  assert (Hs0 : scanner_ok (json.stepState0 stack c)).
  { unfold json.stepState0.
    repeat match goal with |- scanner_ok (if ?b then _ else _) => destruct b end;
      try assumption; (split; [assumption | exact I]). }
  assert (HsE : scanner_ok (json.stepStateESign stack c)).
  { unfold json.stepStateESign. destruct (json.isDigit c); [|exact I].
    split; [assumption | exact I]. }
  destruct st; cbn [json.scan_step]; unfold json.expect;
    try assumption;
    repeat match goal with
    | |- scanner_ok (if ?b then _ else _) => destruct b
    | |- scanner_ok (Some (_, stack)) => split; [assumption | exact I]
    | |- scanner_ok None => exact I
    | |- scanner_ok (json.endValue _ _) => apply endValue_ok; [exact I | assumption]
    end; try assumption.
  - (* an object closed at once *)
    destruct stack as [|[ms k|ms k|vs] up]; try exact I.
    apply stepEndValue_ok. inversion Hs; subst. constructor; assumption.
  - now apply stepEndTop_ok.
  - (* the end of a string *)
    match goal with |- context [json.unquote ?l] =>
      destruct (json.unquote l) as [s|] eqn:E; [|exact I] end.
    apply endValue_ok; [|assumption]. cbn. exact (unquote_valid _ _ E).
Qed.

Lemma scan_ok (sc : json.scanner) (c : ascii) :
  scanner_ok sc -> scanner_ok (json.scan sc c).
Proof.
  destruct sc as [[st stack]|]; [apply scan_step_ok | auto].
Qed.

Lemma scan_all_ok (data : string) :
  forall sc, scanner_ok sc -> scanner_ok (json.scan_all sc data).
Proof.
  induction data as [|c data IH]; intros sc H; [assumption|].
  cbn [json.scan_all]. apply IH, scan_ok, H.
Qed.

Lemma parse_ok (data : string) (v : json.value) :
  json.parse data = Some v -> value_ok v.
Proof.
  unfold json.parse, json.eof. intros H.
  assert (Hok : scanner_ok (json.scan (json.scan_all json.reset data) " "))
    by (apply scan_ok, scan_all_ok; split; [constructor | exact I]).
  destruct (json.scan _ _) as [[st stack]|]; [|discriminate].
  destruct st; try discriminate. injection H as <-. apply Hok.
Qed.

Lemma storeString_ok (v : json.value) (old s : string) :
  value_ok v -> utf8.ValidString old = true ->
  json.storeString v old = Some s -> utf8.ValidString s = true.
Proof.
  intros Hv Hold H. destruct v; try discriminate; injection H as <-; assumption.
Qed.

Lemma storeMember_valid (x x' : Submission) (m : string * json.value) :
  value_ok (snd m) -> validSubmission x = true ->
  storeMember x m = Some x' -> validSubmission x' = true.
Proof.
  intros Hm Hx H. destruct m as [key v]. cbn [snd] in Hm.
  unfold validSubmission in Hx.
  apply andb_prop in Hx; destruct Hx as [Hx Ht].
  apply andb_prop in Hx; destruct Hx as [Hx Hl].
  apply andb_prop in Hx; destruct Hx as [Hn Hp].
  unfold storeMember in H.
  assert (Hst : forall old f,
    utf8.ValidString old = true ->
    (forall s, utf8.ValidString s = true -> validSubmission (f s) = true) ->
    option_map f (json.storeString v old) = Some x' -> validSubmission x' = true).
  { intros old f Hold Hf Hr.
    destruct (json.storeString v old) as [s|] eqn:E; [|discriminate].
    injection Hr as <-. apply Hf. exact (storeString_ok _ _ _ Hm Hold E). }
  destruct (json.foldName key =? "NAME")%string.
  { eapply Hst; [exact Hn| |exact H].
    intros s Hs. unfold validSubmission. cbn [Name Phone LinkedIn Timestamp]. now rewrite Hs, Hp, Hl, Ht. }
  destruct (json.foldName key =? "PHONE")%string.
  { eapply Hst; [exact Hp| |exact H].
    intros s Hs. unfold validSubmission. cbn [Name Phone LinkedIn Timestamp]. now rewrite Hs, Hn, Hl, Ht. }
  destruct (json.foldName key =? "LINKEDIN")%string.
  { eapply Hst; [exact Hl| |exact H].
    intros s Hs. unfold validSubmission. cbn [Name Phone LinkedIn Timestamp]. now rewrite Hs, Hn, Hp, Ht. }
  destruct (json.foldName key =? "TIMESTAMP")%string.
  { eapply Hst; [exact Ht| |exact H].
    intros s Hs. unfold validSubmission. cbn [Name Phone LinkedIn Timestamp]. now rewrite Hs, Hn, Hp, Hl. }
  injection H as <-. unfold validSubmission. now rewrite Hn, Hp, Hl, Ht.
Qed.

Lemma storeMembers_valid (ms : list (string * json.value)) :
  forall x x', Forall (fun m => value_ok (snd m)) ms -> validSubmission x = true ->
    storeMembers x ms = Some x' -> validSubmission x' = true.
Proof.
  induction ms as [|m ms IH]; intros x x' Hms Hx H.
  - injection H as <-. assumption.
  - inversion Hms; subst. cbn [storeMembers] in H.
    destruct (storeMember x m) as [x1|] eqn:E; [|discriminate].
    eapply IH; [eassumption | | eassumption].
    eapply storeMember_valid; eassumption.
Qed.

Lemma decodeSubmissions_valid (vs : list json.value) :
  forall arr, Forall value_ok vs -> decodeSubmissions vs = Some arr ->
    validLedger arr = true.
Proof.
  induction vs as [|v vs IH]; intros arr Hvs H.
  - injection H as <-. reflexivity.
  - inversion Hvs; subst. cbn [decodeSubmissions] in H.
    destruct (decodeSubmission v) as [x|] eqn:Ex; [|discriminate].
    destruct (decodeSubmissions vs) as [xs|] eqn:Exs; [|discriminate].
    injection H as <-. cbn [validLedger forallb]. apply andb_true_intro. split.
    + destruct v; try discriminate.
      * injection Ex as <-. reflexivity.
      * eapply (storeMembers_valid _ zeroSubmission); [|reflexivity|exact Ex].
        now apply value_ok_object.
    + now apply IH.
Qed.

(** What [Unmarshal] returns is a well-formed ledger. *)
Lemma Unmarshal_valid (content : string) (arr : list Submission) :
  Unmarshal content = Some arr -> validLedger arr = true.
Proof.
  unfold Unmarshal. intros H.
  destruct (json.parse content) as [v|] eqn:E; [|discriminate].
  apply parse_ok in E.
  destruct v; try discriminate.
  - injection H as <-. reflexivity.
  - eapply decodeSubmissions_valid; [|exact H]. now apply value_ok_array.
Qed.

Lemma ledgerOf_valid (h : list string) : validLedger (ledgerOf h) = true.
Proof.
  unfold ledgerOf. destruct (current h) as [c|]; [|reflexivity].
  destruct (Unmarshal c) as [arr|] eqn:E; [|reflexivity].
  exact (Unmarshal_valid _ _ E).
Qed.

(** ** Base64 *)

Lemma encode_props (v : N) :
  base64.decodeMap (base64.encode v) = Some (N.land v 0x3F)
  /\ (base64.encode v =? "=")%char = false
  /\ (base64.encode v =? ch_nl)%char = false
  /\ (base64.encode v =? ch_cr)%char = false.
Proof.
  unfold base64.encode.
  assert (H : N.land v 0x3F < 64) by (rewrite land_3F; nlia).
  rewrite <- (N2Nat.id (N.land v 0x3F)) at 2.
  assert (Hn : (N.to_nat (N.land v 0x3F) < 64)%nat) by lia.
  clear H. revert Hn. generalize (N.to_nat (N.land v 0x3F)). intros n Hn.
  do 64 (destruct n as [|n]; [repeat split; reflexivity|]).
  lia.
Qed.

Lemma bytes3_split (a b c : N) :
  a < 256 -> b < 256 -> c < 256 ->
  let val := N.lor (N.lor (N.shiftl a 16) (N.shiftl b 8)) c in
  val = a * 65536 + b * 256 + c.
Proof.
  intros Ha Hb Hc val. subst val.
  rewrite !N.shiftl_mul_pow2. change (2 ^ 16) with 65536. change (2 ^ 8) with 256.
  rewrite (lor_add (a * 65536) _ 16) by (change (2 ^ 16) with 65536; nlia).
  apply (lor_add _ _ 8); change (2 ^ 8) with 256; nlia.
Qed.

Lemma bytes3_join (v0 v1 v2 v3 : N) :
  v1 < 64 -> v2 < 64 -> v3 < 64 ->
  base64.bytes3 v0 v1 v2 v3 = v0 * 262144 + v1 * 4096 + v2 * 64 + v3.
Proof.
  intros H1 H2 H3. unfold base64.bytes3.
  rewrite shiftl_6, shiftl_12, shiftl_18.
  rewrite (lor_add (v0 * 262144) _ 18) by (change (2 ^ 18) with 262144; nlia).
  rewrite (lor_add _ (v2 * 64) 12) by (change (2 ^ 12) with 4096; nlia).
  apply (lor_add _ _ 6); change (2 ^ 6) with 64; nlia.
Qed.

Lemma sextets (val : N) :
  val < 16777216 ->
  base64.bytes3 (N.land (N.shiftr val 18) 0x3F) (N.land (N.shiftr val 12) 0x3F)
                (N.land (N.shiftr val 6) 0x3F) (N.land val 0x3F) = val.
Proof.
  intros H. rewrite bytes3_join by (rewrite land_3F; nlia).
  rewrite !land_3F, shiftr_6, shiftr_12, shiftr_18. nlia.
Qed.

Lemma to_byte_mod (n : N) (c : ascii) : n mod 256 = byte_val c -> to_byte n = c.
Proof.
  intros H. unfold to_byte. rewrite land_FF, H. apply ascii_N_embedding.
Qed.

Lemma decodeQuanta_full (a b c : ascii) (rest out : string) :
  base64.decodeQuanta (base64.EncodeToString rest) = Some out ->
  base64.decodeQuanta (base64.EncodeToString (String a (String b (String c rest))))
  = Some (String a (String b (String c out))).
Proof.
  intros IH. cbn [base64.EncodeToString].
  set (val := N.lor (N.lor (N.shiftl (byte_val a) 16) (N.shiftl (byte_val b) 8)) (byte_val c)).
  assert (Hval : val = byte_val a * 65536 + byte_val b * 256 + byte_val c)
    by (apply bytes3_split; apply byte_val_bound).
  pose proof (byte_val_bound a). pose proof (byte_val_bound b). pose proof (byte_val_bound c).
  cbn [base64.decodeQuanta].
  destruct (encode_props (N.shiftr val 18)) as (-> & _).
  destruct (encode_props (N.shiftr val 12)) as (-> & _).
  destruct (encode_props (N.shiftr val 6)) as (-> & -> & _).
  destruct (encode_props val) as (-> & -> & _).
  rewrite IH, sextets by lia.
  repeat f_equal; apply to_byte_mod; rewrite ?N.shiftr_div_pow2;
    change (2 ^ 16) with 65536; change (2 ^ 8) with 256; nlia.
Qed.

Lemma decodeQuanta_one (a : ascii) :
  base64.decodeQuanta (base64.EncodeToString (str1 a)) = Some (str1 a).
Proof.
  cbn [base64.EncodeToString str1].
  set (val := N.shiftl (byte_val a) 16).
  assert (Hval : val = byte_val a * 65536)
    by (unfold val; rewrite N.shiftl_mul_pow2; reflexivity).
  pose proof (byte_val_bound a).
  cbn [base64.decodeQuanta].
  destruct (encode_props (N.shiftr val 18)) as (-> & _).
  destruct (encode_props (N.shiftr val 12)) as (-> & _).
  change (("=" =? "=")%char) with true. cbv iota.
  rewrite bytes3_join by (rewrite ?land_3F; nlia).
  unfold str1. repeat f_equal. apply to_byte_mod.
  rewrite !land_3F, shiftr_12, shiftr_18, N.shiftr_div_pow2.
  change (2 ^ 16) with 65536. nlia.
Qed.

Lemma decodeQuanta_two (a b : ascii) :
  base64.decodeQuanta (base64.EncodeToString (String a (str1 b))) = Some (String a (str1 b)).
Proof.
  cbn [base64.EncodeToString str1].
  set (val := N.lor (N.shiftl (byte_val a) 16) (N.shiftl (byte_val b) 8)).
  pose proof (byte_val_bound a). pose proof (byte_val_bound b).
  assert (Hval : val = byte_val a * 65536 + byte_val b * 256).
  { unfold val. rewrite !N.shiftl_mul_pow2.
    change (2 ^ 16) with 65536. change (2 ^ 8) with 256.
    apply (lor_add _ _ 16); change (2 ^ 16) with 65536; nlia. }
  cbn [base64.decodeQuanta].
  destruct (encode_props (N.shiftr val 18)) as (-> & _).
  destruct (encode_props (N.shiftr val 12)) as (-> & _).
  destruct (encode_props (N.shiftr val 6)) as (-> & -> & _).
  change (("=" =? "=")%char) with true. cbv iota.
  rewrite bytes3_join by (rewrite ?land_3F; nlia).
  unfold str1. repeat f_equal; apply to_byte_mod;
    rewrite !land_3F, shiftr_6, shiftr_12, shiftr_18, N.shiftr_div_pow2;
    try change (2 ^ 16) with 65536; try change (2 ^ 8) with 256; nlia.
Qed.

Lemma decodeQuanta_EncodeToString (n : nat) :
  forall src, (String.length src <= n)%nat ->
    base64.decodeQuanta (base64.EncodeToString src) = Some src.
Proof.
  induction n as [|n IH]; intros src Hlen.
  - destruct src; [reflexivity | simpl in Hlen; lia].
  - destruct src as [|a [|b [|c rest]]].
    + reflexivity.
    + apply decodeQuanta_one.
    + apply decodeQuanta_two.
    + apply decodeQuanta_full. apply IH. simpl in Hlen. lia.
Qed.

(** The encoded text holds no line end. *)
Lemma RemoveAll_EncodeToString (n : nat) :
  forall src, (String.length src <= n)%nat ->
    strings.RemoveAll ch_nl (base64.EncodeToString src) = base64.EncodeToString src
    /\ strings.RemoveAll ch_cr (base64.EncodeToString src) = base64.EncodeToString src.
Proof.
  induction n as [|n IH]; intros src Hlen.
  - destruct src; [split; reflexivity | simpl in Hlen; lia].
  - destruct src as [|a [|b [|c rest]]]; cbn [base64.EncodeToString strings.RemoveAll];
      repeat match goal with
      | |- context [base64.encode ?v] =>
          let H1 := fresh in let H2 := fresh in
          destruct (encode_props v) as (_ & _ & H1 & H2); rewrite ?H1, ?H2; clear H1 H2;
          generalize (base64.encode v); intro
      end; try (split; reflexivity).
    destruct (IH rest) as [-> ->]; [simpl in Hlen; lia|]. split; reflexivity.
Qed.

Lemma DecodeString_EncodeToString (src : string) :
  base64.DecodeString (base64.EncodeToString src) = Some src.
Proof.
  unfold base64.DecodeString.
  destruct (RemoveAll_EncodeToString (String.length src) src) as [-> ->]; [lia|].
  now apply (decodeQuanta_EncodeToString (String.length src)).
Qed.

(** ** The store client and the append *)

Lemma RemoveAll_wrapLines (s : string) :
  forall col, strings.RemoveAll ch_nl (wrapLines col s) = strings.RemoveAll ch_nl s.
Proof.
  induction s as [|c s IH]; intros col; [reflexivity|].
  destruct col as [|col]; cbn [wrapLines strings.RemoveAll].
  - change ((ch_nl =? ch_nl)%char) with true. cbv iota.
    cbn [strings.RemoveAll]. now rewrite IH.
  - now rewrite IH.
Qed.

Lemma transport_roundtrip (content : string) :
  base64.DecodeString
    (strings.RemoveAll ch_nl (wrapLines 60 (base64.EncodeToString content)))
  = Some content.
Proof.
  rewrite RemoveAll_wrapLines.
  destruct (RemoveAll_EncodeToString (String.length content) content) as [-> _]; [lia|].
  apply DecodeString_EncodeToString.
Qed.

Lemma shaOf_inj (n m : nat) : shaOf n = shaOf m -> n = m.
Proof.
  unfold shaOf. intros H. injection H as H.
  apply Unsigned.to_uint_inj.
  assert (E : Some (Nat.to_uint n) = Some (Nat.to_uint m))
    by (rewrite <- !NilEmpty.usu; now rewrite H).
  now injection E.
Qed.

Lemma shaOf_nonempty (n : nat) : (shaOf n =? "")%string = false.
Proof. reflexivity. Qed.

Lemma current_some (h : list string) :
  h <> [] -> current h = Some (List.last h EmptyString).
Proof. destruct h; [congruence | reflexivity]. Qed.

(** *** The fetch *)

Ltac fold_DecodeString :=
  change (base64.decodeQuanta (strings.RemoveAll ch_cr (strings.RemoveAll ch_nl ?x)))
    with (base64.DecodeString x).

Lemma getGitHubFile_found (w : World) (content : string) :
  reply (next_turn w) = Served -> current (arrive w) = Some content ->
  getGitHubFile w
  = ((content, shaOf (List.length (arrive w)), None),
     after w (getRequest (config w)) (Some 200%Z) (arrive w)).
Proof.
  intros Hr Hc. unfold getGitHubFile, bind, getConfig, Do, serve. rewrite Hr.
  cbn [getRequest Method String.eqb Ascii.eqb Bool.eqb].
  rewrite Hc. cbn. fold_DecodeString.
  now rewrite transport_roundtrip.
Qed.

Lemma getGitHubFile_notfound (w : World) :
  reply (next_turn w) = Served -> arrive w = [] ->
  getGitHubFile w
  = ((EmptyString, EmptyString, Some errNotFound),
     after w (getRequest (config w)) (Some 404%Z) []).
Proof.
  intros Hr Hc. unfold getGitHubFile, bind, getConfig, Do, serve. rewrite Hr, Hc.
  reflexivity.
Qed.

Lemma getGitHubFile_unreachable (w : World) :
  reply (next_turn w) = Unreachable ->
  getGitHubFile w
  = ((EmptyString, EmptyString, Some errTransport),
     after w (getRequest (config w)) None (arrive w)).
Proof.
  intros Hr. unfold getGitHubFile, bind, getConfig, Do. rewrite Hr. reflexivity.
Qed.

Lemma getGitHubFile_refused (w : World) (f : refusal) :
  reply (next_turn w) = Refused f ->
  getGitHubFile w
  = ((EmptyString, EmptyString,
      Some (errGetFailed (statusText (statusOf f)) (bodyText EmptyString))),
     after w (getRequest (config w)) (Some (statusOf f)) (arrive w)).
Proof.
  intros Hr. unfold getGitHubFile, bind, getConfig, Do. rewrite Hr.
  destruct f; reflexivity.
Qed.

(** *** The commit *)

Lemma lookup_content (message b64 branch sha : string) :
  match marshalUpdateRequest message b64 branch sha with
  | json.Object ms =>
      lookup "content" ms = Some (json.Str b64)
      /\ lookup "sha" ms = if (sha =? "")%string then None else Some (json.Str sha)
  | _ => False
  end.
Proof. unfold marshalUpdateRequest. destruct (sha =? "")%string; split; reflexivity. Qed.

(** What the store does with the PUT of [putGitHubFile]. *)
Lemma serve_put (cfg : Config) (t content sha : string) (h : list string) :
  serve (putRequest cfg t content sha) h
  = if (sha =? "")%string then
      match h with
      | [] => (respond 201 (bodyJSON (json.Object [])), [content])
      | _ => (respond 409 (bodyText "Conflict"), h)
      end
    else
      match h with
      | [] => (respond 409 (bodyText "Conflict"), h)
      | _ => if (sha =? shaOf (List.length h))%string
             then (respond 200 (bodyJSON (json.Object [])), (h ++ [content])%list)
             else (respond 409 (bodyText "Conflict"), h)
      end.
Proof.
  unfold serve, putRequest.
  cbn [Method Payload String.eqb Ascii.eqb Bool.eqb].
  pose proof (lookup_content ("chore: append quiz login submission (" ++ t ++ ")")
                (base64.EncodeToString content) (githubBranch cfg) sha) as H.
  destruct (marshalUpdateRequest _ _ _ _) as [| | | | |ms]; try contradiction.
  destruct H as [-> ->]. rewrite DecodeString_EncodeToString.
  destruct (sha =? "")%string, h; reflexivity.
Qed.

Lemma putGitHubFile_served (w : World) (content sha : string) :
  reply (next_turn w) = Served ->
  putGitHubFile content sha w
  = let req := putRequest (config w) (now w) content sha in
    if (sha =? "")%string then
      match arrive w with
      | [] => (None, after w req (Some 201%Z) [content])
      | _ => (Some (errPutFailed "409 Conflict" (bodyText "Conflict")),
              after w req (Some 409%Z) (arrive w))
      end
    else
      match arrive w with
      | [] => (Some (errPutFailed "409 Conflict" (bodyText "Conflict")),
               after w req (Some 409%Z) (arrive w))
      | _ => if (sha =? shaOf (List.length (arrive w)))%string
             then (None, after w req (Some 200%Z) (arrive w ++ [content])%list)
             else (Some (errPutFailed "409 Conflict" (bodyText "Conflict")),
                   after w req (Some 409%Z) (arrive w))
      end.
Proof.
  intros Hr. unfold putGitHubFile, bind, getConfig, timeNow, Do. rewrite Hr, serve_put.
  destruct (sha =? "")%string, (arrive w) as [|c h]; try reflexivity.
  destruct (sha =? shaOf _)%string; reflexivity.
Qed.

Lemma putGitHubFile_unreachable (w : World) (content sha : string) :
  reply (next_turn w) = Unreachable ->
  putGitHubFile content sha w
  = (Some errTransport,
     after w (putRequest (config w) (now w) content sha) None (arrive w)).
Proof.
  intros Hr. unfold putGitHubFile, bind, getConfig, timeNow, Do. rewrite Hr. reflexivity.
Qed.

Lemma putGitHubFile_refused (w : World) (content sha : string) (f : refusal) :
  reply (next_turn w) = Refused f ->
  putGitHubFile content sha w
  = (Some (errPutFailed (statusText (statusOf f)) (bodyText EmptyString)),
     after w (putRequest (config w) (now w) content sha) (Some (statusOf f)) (arrive w)).
Proof.
  intros Hr. unfold putGitHubFile, bind, getConfig, timeNow, Do. rewrite Hr.
  destruct f; reflexivity.
Qed.

(** *** The append *)

Lemma append_fetch_failed (item : Submission) (w : World) :
  reply (next_turn w) <> Served ->
  exists e, appendSubmissionToGitHub item w = (Some e, afterGet w)
            /\ e <> errNotFound.
Proof.
  intros Hr. unfold appendSubmissionToGitHub, bind, afterGet.
  destruct (reply (next_turn w)) as [| |f] eqn:E; [congruence| |].
  - rewrite getGitHubFile_unreachable by assumption. eexists; split; [reflexivity|discriminate].
  - rewrite (getGitHubFile_refused _ f) by assumption. eexists; split; [reflexivity|discriminate].
Qed.

(** After a fetch that the store serves, the operation puts the fetched
    ledger with the item appended, conditioned on the fetched version. *)
Lemma append_compose (item : Submission) (w : World) :
  reply (next_turn w) = Served ->
  appendSubmissionToGitHub item w
  = putGitHubFile (MarshalIndent (ledgerOf (arrive w) ++ [item]))
                  (baseVersion (arrive w)) (afterGet w).
Proof.
  intros Hr. unfold appendSubmissionToGitHub, bind, afterGet, ledgerOf. rewrite Hr.
  destruct (arrive w) as [|c h] eqn:Ha.
  - rewrite getGitHubFile_notfound by assumption. reflexivity.
  - rewrite (getGitHubFile_found w (List.last (c :: h) EmptyString))
      by (assumption || (rewrite Ha; reflexivity)).
    rewrite Ha. reflexivity.
Qed.

Lemma next_turn_after (w : World) (req : Request) (st : option Z) (h : list string) :
  next_turn (after w req st h)
  = match List.tl (schedule w) with [] => quiet | t :: _ => t end.
Proof. reflexivity. Qed.

Lemma arrive_after (w : World) (req : Request) (st : option Z) (h : list string) :
  arrive (after w req st h) = (h ++ others (next_turn (after w req st h)))%list.
Proof. reflexivity. Qed.

Lemma baseVersion_match (h o : list string) :
  (baseVersion h =? baseVersion (h ++ o))%string = match o with [] => true | _ => false end.
Proof.
  destruct o as [|x o].
  - rewrite app_nil_r. apply String.eqb_refl.
  - apply String.eqb_neq. destruct h as [|c h]; [discriminate|].
    cbn [baseVersion app]. intros E. apply shaOf_inj in E.
    cbn [List.length] in E. rewrite length_app in E. cbn [List.length] in E. lia.
Qed.

(** The whole operation, when the store serves the fetch: it succeeds
    exactly when the commit is served and nobody has written to the file
    since the fetch. *)
Lemma append_result (item : Submission) (w : World) :
  reply (next_turn w) = Served ->
  let w1 := afterGet w in
  let content := MarshalIndent (ledgerOf (arrive w) ++ [item]) in
  let req := putRequest (config w) (now w) content (baseVersion (arrive w)) in
  appendSubmissionToGitHub item w
  = match reply (next_turn w1), others (next_turn w1) with
    | Served, [] =>
        (None, after w1 req (Some (match arrive w with [] => 201 | _ => 200 end)%Z)
                     (arrive w ++ [content])%list)
    | Served, _ :: _ =>
        (Some (errPutFailed "409 Conflict" (bodyText "Conflict")),
         after w1 req (Some 409%Z) (arrive w1))
    | Unreachable, _ => (Some errTransport, after w1 req None (arrive w1))
    | Refused f, _ =>
        (Some (errPutFailed (statusText (statusOf f)) (bodyText EmptyString)),
         after w1 req (Some (statusOf f)) (arrive w1))
    end.
Proof.
  intros Hr w1 content req. rewrite append_compose by assumption. fold w1 content.
  destruct (reply (next_turn w1)) as [| |f] eqn:E.
  - rewrite putGitHubFile_served by assumption.
    change (config w1) with (config w). change (now w1) with (now w). fold req.
    assert (Ha : arrive w1 = (arrive w ++ others (next_turn w1))%list) by reflexivity.
    pose proof (baseVersion_match (arrive w) (others (next_turn w1))) as Hm.
    rewrite Ha.
    destruct (arrive w) as [|c h] eqn:Hw, (others (next_turn w1)) as [|x o] eqn:Ho;
      cbn [baseVersion String.eqb app] in *; try reflexivity.
    + rewrite app_nil_r in Hm |- *. rewrite Hm. reflexivity.
    + rewrite Hm. reflexivity.
  - rewrite putGitHubFile_unreachable by assumption.
    destruct (others (next_turn w1)); reflexivity.
  - rewrite (putGitHubFile_refused _ _ _ f) by assumption.
    destruct (others (next_turn w1)); reflexivity.
Qed.

(** * The claims *)

(** C1, as the code has it: content that does not decode is no error.
    The operation goes on as from an empty ledger and puts the array of
    the new record alone, conditioned on the version it fetched; when
    that commit is served and nobody has written since the fetch, it
    returns no error and the file holds that array. *)
Theorem C1_decode_failure_starts_afresh (item : Submission) (w : World) (content : string) :
  reply (next_turn w) = Served ->
  current (arrive w) = Some content ->
  Unmarshal content = None ->
  appendSubmissionToGitHub item w
  = putGitHubFile (MarshalIndent [item]) (shaOf (List.length (arrive w))) (afterGet w)
  /\ (next_turn (afterGet w) = quiet ->
      fst (appendSubmissionToGitHub item w) = None
      /\ history (snd (appendSubmissionToGitHub item w))
         = (arrive w ++ [MarshalIndent [item]])%list).
Proof.
  intros Hr Hc Hu.
  assert (Hl : ledgerOf (arrive w) = []) by (unfold ledgerOf; now rewrite Hc, Hu).
  assert (Hb : baseVersion (arrive w) = shaOf (List.length (arrive w)))
    by (destruct (arrive w); [discriminate | reflexivity]).
  split.
  - rewrite append_compose, Hl, Hb by assumption. reflexivity.
  - intros Hq. rewrite append_result by assumption. rewrite Hq, Hl.
    destruct (arrive w); [discriminate|]. split; reflexivity.
Qed.

Lemma C1_witness :
  reply (next_turn (world0 ["{}"] [])) = Served
  /\ current (arrive (world0 ["{}"] [])) = Some "{}"
  /\ Unmarshal "{}" = None
  /\ appendSubmissionToGitHub ada (world0 ["{}"] [])
     = putGitHubFile (MarshalIndent [ada]) (shaOf 1) (afterGet (world0 ["{}"] []))
  /\ (next_turn (afterGet (world0 ["{}"] [])) = quiet ->
      fst (appendSubmissionToGitHub ada (world0 ["{}"] [])) = None
      /\ history (snd (appendSubmissionToGitHub ada (world0 ["{}"] [])))
         = ["{}"; MarshalIndent [ada]]).
Proof.
  repeat (split; [reflexivity|]).
  apply (C1_decode_failure_starts_afresh ada (world0 ["{}"] []) "{}"); reflexivity.
Defined.

(** C1, as stated, fails: the file holds an object, which does not
    decode as an array of records, and the operation returns no error
    and commits the new record alone over it. *)
Lemma C1_counterexample :
  Unmarshal "{}" = None
  /\ fst (appendSubmissionToGitHub ada (world0 ["{}"] [])) = None
  /\ history (snd (appendSubmissionToGitHub ada (world0 ["{}"] [])))
     = ["{}"; MarshalIndent [ada]]
  /\ List.map status (commits (snd (appendSubmissionToGitHub ada (world0 ["{}"] []))))
     = [Some 200%Z].
Proof. repeat split; vm_compute; reflexivity. Qed.

(** C2, as the code has it: the operation makes a single attempt, one
    fetch and one commit, with no retry.  When that commit is committed
    the operation succeeds and the content committed is the ledger of
    its fetch with the new record appended; when the commit is answered
    with a conflict the operation fails at once. *)
Theorem C2_single_attempt (item : Submission) (w : World) :
  reply (next_turn w) = Served ->
  let r := appendSubmissionToGitHub item w in
  let content := MarshalIndent (ledgerOf (arrive w) ++ [item]) in
  exists st1 st2,
    exchanges (snd r)
    = (exchanges w
       ++ [mkExchange (getRequest (config w)) st1;
           mkExchange (putRequest (config w) (now w) content (baseVersion (arrive w))) st2])%list
    /\ ((st2 = Some 200%Z \/ st2 = Some 201%Z) ->
        fst r = None /\ history (snd r) = (arrive w ++ [content])%list)
    /\ (st2 = Some 409%Z ->
        exists b, fst r = Some (errPutFailed "409 Conflict" b)).
Proof.
  intros Hr r content. subst r. rewrite append_result by assumption. fold content.
  unfold afterGet. rewrite Hr.
  set (st1 := Some (match arrive w with [] => 404 | _ => 200 end)%Z).
  set (w1 := after w (getRequest (config w)) st1 (arrive w)).
  destruct (reply (next_turn w1)) as [| |f] eqn:E; [destruct (others (next_turn w1))| |].
  - exists st1. eexists. subst w1. cbn [snd fst exchanges after]. rewrite <- app_assoc.
    split; [reflexivity|]. split; [intros _; split; reflexivity|].
    destruct (arrive w); discriminate.
  - exists st1. eexists. subst w1. cbn [snd fst exchanges after]. rewrite <- app_assoc.
    split; [reflexivity|]. split; [intros [H|H]; discriminate|].
    intros _. eexists. reflexivity.
  - exists st1. eexists. subst w1. cbn [snd fst exchanges after]. rewrite <- app_assoc.
    split; [reflexivity|]. split; [intros [H|H]; discriminate|discriminate].
  - exists st1. eexists. subst w1. cbn [snd fst exchanges after]. rewrite <- app_assoc.
    split; [reflexivity|].
    destruct f; (split; [intros [H|H]; discriminate|]); try discriminate.
    intros _. eexists. reflexivity.
Qed.

Lemma C2_witness :
  reply (next_turn (world0 ["[]"] [])) = Served
  /\ exists st1 st2,
      exchanges (snd (appendSubmissionToGitHub ada (world0 ["[]"] [])))
      = [mkExchange (getRequest cfg0) st1;
         mkExchange (putRequest cfg0 "2024-01-01T00:00:00Z"
                       (MarshalIndent (ledgerOf ["[]"] ++ [ada])) (shaOf 1)) st2]
      /\ ((st2 = Some 200%Z \/ st2 = Some 201%Z) ->
          fst (appendSubmissionToGitHub ada (world0 ["[]"] [])) = None
          /\ history (snd (appendSubmissionToGitHub ada (world0 ["[]"] [])))
             = ["[]"; MarshalIndent (ledgerOf ["[]"] ++ [ada])])
      /\ (st2 = Some 409%Z ->
          exists b, fst (appendSubmissionToGitHub ada (world0 ["[]"] []))
                    = Some (errPutFailed "409 Conflict" b)).
Proof.
  split; [reflexivity|].
  exact (C2_single_attempt ada (world0 ["[]"] []) eq_refl).
Defined.

(** C2, as stated, fails for k = 2: another writer commits between the
    fetch and the commit, so the commit of the first attempt is answered
    with a conflict; a second attempt would be committed (running the
    operation again succeeds), but the operation has already failed,
    after one commit. *)
Lemma C2_counterexample :
  let w := world0 ["[]"] [quiet; mkTurn [MarshalIndent [bob]] Served] in
  let r := appendSubmissionToGitHub ada w in
  fst r = Some (errPutFailed "409 Conflict" (bodyText "Conflict"))
  /\ List.map status (commits (snd r)) = [Some 409%Z]
  /\ history (snd r) = ["[]"; MarshalIndent [bob]]
  /\ fst (appendSubmissionToGitHub ada (snd r)) = None
  /\ ledgerOf (history (snd (appendSubmissionToGitHub ada (snd r)))) = [bob; ada].
Proof. repeat split; vm_compute; reflexivity. Qed.

(** C3, as the code has it: there is no [maxAttempts].  When the commit
    is answered with a conflict, the operation fails after exactly one
    commit attempt, and it leaves the file as the environment has made
    it: unchanged when nobody else has written. *)
Theorem C3_conflict_fails_after_one_commit (item : Submission) (w : World) :
  reply (next_turn w) = Served ->
  reply (next_turn (afterGet w)) = Refused conflict
  \/ (reply (next_turn (afterGet w)) = Served /\ others (next_turn (afterGet w)) <> []) ->
  let r := appendSubmissionToGitHub item w in
  (exists b, fst r = Some (errPutFailed "409 Conflict" b))
  /\ List.map status (commits (snd r)) = (List.map status (commits w) ++ [Some 409%Z])%list
  /\ history (snd r) = (history w ++ others (next_turn w) ++ others (next_turn (afterGet w)))%list.
Proof.
  intros Hr Hc r. subst r. rewrite append_result by assumption.
  assert (Hcommits : forall st req h,
    List.map status (commits (after (afterGet w) (putRequest (config w) (now w) req
        (baseVersion (arrive w))) st h))
    = (List.map status (commits w) ++ [st])%list).
  { intros st req h. unfold commits, afterGet, after. cbn [exchanges].
    rewrite !filter_app. cbn [filter sent Method getRequest putRequest String.eqb Ascii.eqb Bool.eqb].
    rewrite app_nil_r, map_app. reflexivity. }
  assert (Hh : arrive (afterGet w)
               = (history w ++ others (next_turn w) ++ others (next_turn (afterGet w)))%list)
    by (unfold arrive at 1; cbn [afterGet after history]; unfold arrive;
        now rewrite <- app_assoc).
  destruct Hc as [Hc | [Hc Ho]]; rewrite Hc.
  - split; [eexists; reflexivity|]. cbn [snd history after].
    rewrite Hcommits, Hh. split; reflexivity.
  - destruct (others (next_turn (afterGet w))) as [|x o] eqn:E; [congruence|].
    split; [eexists; reflexivity|]. cbn [snd history after].
    rewrite Hcommits, Hh, ?E. split; reflexivity.
Qed.

Lemma C3_witness :
  let w := world0 ["[]"] [quiet; mkTurn [] (Refused conflict)] in
  reply (next_turn w) = Served
  /\ (reply (next_turn (afterGet w)) = Refused conflict
      \/ (reply (next_turn (afterGet w)) = Served /\ others (next_turn (afterGet w)) <> []))
  /\ (exists b, fst (appendSubmissionToGitHub ada w) = Some (errPutFailed "409 Conflict" b))
  /\ List.map status (commits (snd (appendSubmissionToGitHub ada w)))
     = (List.map status (commits w) ++ [Some 409%Z])%list
  /\ history (snd (appendSubmissionToGitHub ada w))
     = (history w ++ others (next_turn w) ++ others (next_turn (afterGet w)))%list.
Proof.
  split; [reflexivity|]. split; [left; reflexivity|].
  exact (C3_conflict_fails_after_one_commit ada
           (world0 ["[]"] [quiet; mkTurn [] (Refused conflict)])
           eq_refl (or_introl eq_refl)).
Defined.

(** C3, as stated, fails: the store answers every commit with a
    conflict, ten turns long, and the operation fails after one commit
    attempt, not five; the file is unchanged. *)
Lemma C3_counterexample :
  let refuse := mkTurn [] (Refused conflict) in
  let w := world0 ["[]"] [quiet; refuse; quiet; refuse; quiet; refuse; quiet; refuse;
                          quiet; refuse] in
  let r := appendSubmissionToGitHub ada w in
  fst r = Some (errPutFailed "409 Conflict" (bodyText EmptyString))
  /\ List.map status (commits (snd r)) = [Some 409%Z]
  /\ List.length (schedule (snd r)) = 8%nat
  /\ history (snd r) = ["[]"].
Proof. repeat split; vm_compute; reflexivity. Qed.

Lemma current_snoc (h : list string) (c : string) : current (h ++ [c]) = Some c.
Proof.
  unfold current. destruct (h ++ [c])%list eqn:E.
  - destruct h; discriminate.
  - rewrite <- E, last_last. reflexivity.
Qed.

Lemma validLedger_app (a b : list Submission) :
  validLedger (a ++ b) = validLedger a && validLedger b.
Proof. apply forallb_app. Qed.

Lemma validLedger_snoc (a : list Submission) (x : Submission) :
  validLedger a = true -> validSubmission x = true -> validLedger (a ++ [x]) = true.
Proof.
  intros Ha Hx. rewrite validLedger_app, Ha. simpl. now rewrite Hx.
Qed.

Lemma storedLedger_valid (h : list string) (arr : list Submission) :
  storedLedger h = Some arr -> validLedger arr = true.
Proof.
  unfold storedLedger. destruct (current h) as [c|].
  - apply Unmarshal_valid.
  - intros H. injection H as <-. reflexivity.
Qed.

Lemma ledgerOf_stored (h : list string) (arr : list Submission) :
  storedLedger h = Some arr -> ledgerOf h = arr.
Proof.
  unfold storedLedger, ledgerOf. destruct (current h) as [c|].
  - now intros ->.
  - intros H. now injection H.
Qed.

Lemma storedLedger_snoc (h : list string) (arr : list Submission) :
  storedLedger (h ++ [MarshalIndent arr]) = Some (map coerceSubmission arr).
Proof.
  unfold storedLedger. rewrite current_snoc. apply Unmarshal_MarshalIndent_coerce.
Qed.

(** What the records the operation composes are read back as: the
    ledger of its fetch, and the new record after it. *)
Lemma composed_decodes (h : list string) (before : list Submission) (item : Submission) :
  storedLedger h = Some before ->
  map coerceSubmission (ledgerOf h ++ [item]) = (before ++ [coerceSubmission item])%list.
Proof.
  intros H. rewrite (ledgerOf_stored _ _ H), map_app.
  now rewrite (coerceLedger_valid _ (storedLedger_valid _ _ H)).
Qed.

(** C4, as the code has it: the ledger does not shrink as long as the
    content the operation fetches decodes, or there is no file.  Then,
    whatever the environment does, the operation removes nothing that
    was committed to the file; the content it commits, when it commits,
    carries the ledger that was current at its fetch, every record in
    place, with exactly the new record after them (its strings as the
    encoder writes them). *)
Theorem C4_ledger_kept_when_it_decodes (item : Submission) (w : World)
    (before : list Submission) :
  storedLedger (arrive w) = Some before ->
  let r := appendSubmissionToGitHub item w in
  (exists ext, history (snd r) = (history w ++ ext)%list)
  /\ (fst r = None ->
      exists c, history (snd r) = (arrive w ++ [c])%list
                /\ Unmarshal c = Some (before ++ [coerceSubmission item])%list).
Proof.
  intros Hold r. subst r.
  assert (Hrt : Unmarshal (MarshalIndent (ledgerOf (arrive w) ++ [item]))
                = Some (before ++ [coerceSubmission item])%list)
    by (rewrite Unmarshal_MarshalIndent_coerce; f_equal; now apply composed_decodes).
  assert (Hh : arrive (afterGet w)
               = (history w ++ others (next_turn w) ++ others (next_turn (afterGet w)))%list)
    by (unfold arrive at 1; cbn [afterGet after history]; unfold arrive;
        now rewrite <- app_assoc).
  destruct (reply (next_turn w)) as [| |f] eqn:Hr.
  - rewrite append_result by assumption.
    destruct (reply (next_turn (afterGet w))) as [| |f];
      [destruct (others (next_turn (afterGet w)))| |]; cbn [fst snd history after].
    + split; [exists (others (next_turn w) ++ [MarshalIndent (ledgerOf (arrive w) ++ [item])])%list;
              unfold arrive; now rewrite <- app_assoc|].
      intros _; eexists; split; [reflexivity|exact Hrt].
    + split; [eexists; exact Hh|discriminate].
    + split; [eexists; exact Hh|discriminate].
    + split; [eexists; exact Hh|discriminate].
  - destruct (append_fetch_failed item w) as (e & -> & _); [congruence|].
    cbn [fst snd afterGet after history].
    split; [eexists; reflexivity|discriminate].
  - destruct (append_fetch_failed item w) as (e & -> & _); [congruence|].
    cbn [fst snd afterGet after history].
    split; [eexists; reflexivity|discriminate].
Qed.

Lemma C4_witness :
  let w := world0 [MarshalIndent [bob]] [] in
  storedLedger (arrive w) = Some [bob]
  /\ (exists ext, history (snd (appendSubmissionToGitHub ada w)) = (history w ++ ext)%list)
  /\ (fst (appendSubmissionToGitHub ada w) = None ->
      exists c, history (snd (appendSubmissionToGitHub ada w)) = (arrive w ++ [c])%list
                /\ Unmarshal c = Some ([bob] ++ [coerceSubmission ada])%list).
Proof.
  split; [reflexivity|].
  exact (C4_ledger_kept_when_it_decodes ada (world0 [MarshalIndent [bob]] []) [bob] eq_refl).
Defined.

(** C4, as stated, fails: the file holds an array whose first element
    is the record of [bob] and whose second has a number for its phone.
    The content does not decode into records, the operation takes the
    ledger for empty, and its commit, which is accepted, leaves a file
    with the new record alone: the record of [bob] is gone. *)
Lemma C4_counterexample :
  let r := appendSubmissionToGitHub ada (world0 [edited] []) in
  json.parse edited
  = Some (json.Array [submissionValue bob;
                      json.Object [("name", json.Str "Eve"); ("phone", json.Number)]])
  /\ decodeSubmission (submissionValue bob) = Some bob
  /\ Unmarshal edited = None
  /\ fst r = None
  /\ history (snd r) = [edited; MarshalIndent [ada]]
  /\ storedLedger (history (snd r)) = Some [ada].
Proof. repeat split; vm_compute; reflexivity. Qed.

(** *** A run of appends *)

Lemma calm_next_turn (w : World) : calm w -> next_turn w = quiet.
Proof.
  unfold calm, next_turn. destruct (schedule w); [reflexivity|].
  intros H. now inversion H.
Qed.

Lemma calm_after (w : World) (req : Request) (st : option Z) (h : list string) :
  calm w -> calm (after w req st h).
Proof.
  unfold calm. cbn [after schedule]. destruct (schedule w); [auto|].
  intros H. now inversion H.
Qed.

Lemma arrive_calm (w : World) : calm w -> arrive w = history w.
Proof. intros H. unfold arrive. rewrite calm_next_turn by assumption. apply app_nil_r. Qed.

(** One append in a calm world: it succeeds, and the file holds the
    fetched ledger with the item at its end. *)
Lemma append_calm (item : Submission) (w : World) :
  calm w ->
  exists w',
    appendSubmissionToGitHub item w = (None, w')
    /\ history w' = (history w ++ [MarshalIndent (ledgerOf (history w) ++ [item])])%list
    /\ calm w'.
Proof.
  intros Hc.
  assert (Hr : reply (next_turn w) = Served) by (now rewrite calm_next_turn).
  assert (Hc1 : calm (afterGet w)) by (now apply calm_after).
  rewrite append_result by assumption.
  rewrite (calm_next_turn _ Hc1). cbn [reply others quiet].
  rewrite arrive_calm by assumption.
  eexists. split; [reflexivity|]. split; [reflexivity|].
  now apply calm_after.
Qed.

Lemma appendAll_calm (items : list Submission) :
  forall w initial, calm w ->
    storedLedger (history w) = Some initial -> validLedger items = true ->
    exists w',
      appendAll items w = (List.repeat None (List.length items), w')
      /\ history w'
         = (history w
            ++ List.map (fun k => MarshalIndent (initial ++ firstn k items))
                        (List.seq 1 (List.length items)))%list
      /\ storedLedger (history w') = Some (initial ++ items)%list
      /\ calm w'.
Proof.
  induction items as [|x rest IH]; intros w initial Hc Hold Hitems.
  - exists w. cbn. rewrite !app_nil_r. auto.
  - cbn [validLedger forallb] in Hitems. apply andb_prop in Hitems.
    destruct Hitems as [Hx Hrest].
    destruct (append_calm x w Hc) as (w1 & Hrun & Hh1 & Hc1).
    rewrite (ledgerOf_stored _ _ Hold) in Hh1.
    assert (Hl1 : storedLedger (history w1) = Some (initial ++ [x])%list).
    { rewrite Hh1, storedLedger_snoc, <- (ledgerOf_stored _ _ Hold).
      rewrite (composed_decodes _ _ x Hold), (ledgerOf_stored _ _ Hold).
      now rewrite (coerceSubmission_valid x Hx). }
    destruct (IH w1 (initial ++ [x])%list Hc1 Hl1 Hrest) as (w' & Hrun' & Hh' & Hl' & Hc').
    exists w'. cbn [appendAll]. unfold bind at 1. rewrite Hrun.
    unfold bind at 1. rewrite Hrun'. cbn [ret List.length List.repeat].
    split; [reflexivity|]. split; [|split; [|assumption]].
    + rewrite Hh', Hh1, <- app_assoc. f_equal.
      cbn [List.seq List.map firstn app]. f_equal.
      rewrite <- (seq_shift (List.length rest) 1), map_map. apply map_ext. intros k.
      cbn [firstn]. now rewrite <- app_assoc.
    + rewrite Hl', <- app_assoc. reflexivity.
Qed.

(** C5: from a well-formed ledger, N submissions appended with no
    conflict and no failing request leave a ledger of length initial + N
    that is the initial ledger followed by the submissions, each once, in
    order and unchanged; no append fails, and the k-th content committed
    is the ledger before it with the k-th submission at its end. *)
Theorem C5_append_correctness (items : list Submission) (w : World)
    (initial : list Submission) :
  calm w ->
  storedLedger (history w) = Some initial ->
  validLedger items = true ->
  let r := appendAll items w in
  fst r = List.repeat None (List.length items)
  /\ (exists final,
        storedLedger (history (snd r)) = Some final
        /\ final = (initial ++ items)%list
        /\ List.length final = (List.length initial + List.length items)%nat)
  /\ history (snd r)
     = (history w
        ++ List.map (fun k => MarshalIndent (initial ++ firstn k items))
                    (List.seq 1 (List.length items)))%list.
Proof.
  intros Hc Hold Hitems r. subst r.
  destruct (appendAll_calm items w initial Hc Hold Hitems) as (w' & -> & Hh & Hl & _).
  cbn [fst snd]. split; [reflexivity|]. split; [|assumption].
  exists (initial ++ items)%list. rewrite length_app. auto.
Qed.

Lemma C5_witness :
  let w := world0 [MarshalIndent [bob]] [] in
  let items := [ada; bob; ada] in
  let initial := [bob] in
  calm w
  /\ storedLedger (history w) = Some initial
  /\ validLedger items = true
  /\ fst (appendAll items w) = List.repeat None (List.length items)
  /\ (exists final,
        storedLedger (history (snd (appendAll items w))) = Some final
        /\ final = (initial ++ items)%list
        /\ List.length final = (List.length initial + List.length items)%nat)
  /\ history (snd (appendAll items w))
     = (history w
        ++ List.map (fun k => MarshalIndent (initial ++ firstn k items))
                    (List.seq 1 (List.length items)))%list.
Proof.
  split; [constructor|]. split; [reflexivity|]. split; [reflexivity|].
  exact (C5_append_correctness [ada; bob; ada] (world0 [MarshalIndent [bob]] []) [bob]
           (Forall_nil _) eq_refl eq_refl).
Defined.

(** C6: the codec round-trips.  For every sequence of records whose
    strings are valid UTF-8, the empty sequence among them, decoding the
    indented JSON written for it gives the sequence back. *)
Theorem C6_codec_round_trip (x : list Submission) :
  validLedger x = true -> Unmarshal (MarshalIndent x) = Some x.
Proof. apply Unmarshal_MarshalIndent. Qed.

Lemma C6_witness :
  validLedger [ada; bob] = true /\ Unmarshal (MarshalIndent [ada; bob]) = Some [ada; bob].
Proof. split; [reflexivity | exact (C6_codec_round_trip [ada; bob] eq_refl)]. Defined.

(** C7: bootstrap.  When the fetch finds no file, the operation
    composes from the empty sequence and sends one commit whose payload
    has no [sha] member and whose content is the array of the new record
    alone; when that commit succeeds the file holds exactly that array,
    a ledger of one record: the new one. *)
Theorem C7_bootstrap (item : Submission) (w : World) :
  reply (next_turn w) = Served ->
  arrive w = [] ->
  let r := appendSubmissionToGitHub item w in
  ledgerOf (arrive w) = [] /\ baseVersion (arrive w) = EmptyString
  /\ exists st ms,
    exchanges (snd r)
    = (exchanges w
       ++ [mkExchange (getRequest (config w)) (Some 404%Z);
           mkExchange (putRequest (config w) (now w) (MarshalIndent [item]) EmptyString) st])%list
    /\ Payload (putRequest (config w) (now w) (MarshalIndent [item]) EmptyString)
       = Some (json.Object ms)
    /\ lookup "sha" ms = None
    /\ lookup "content" ms = Some (json.Str (base64.EncodeToString (MarshalIndent [item])))
    /\ (fst r = None ->
        history (snd r) = [MarshalIndent [item]]
        /\ storedLedger (history (snd r)) = Some [coerceSubmission item]
        /\ (validSubmission item = true -> storedLedger (history (snd r)) = Some [item])).
Proof.
  intros Hr Ha r. subst r. rewrite append_result by assumption.
  assert (Hrt : storedLedger [MarshalIndent [item]] = Some [coerceSubmission item])
    by (apply (storedLedger_snoc [] [item])).
  unfold afterGet. rewrite Hr, Ha. cbn [ledgerOf current baseVersion app].
  split; [reflexivity|]. split; [reflexivity|].
  set (w1 := after w (getRequest (config w)) (Some 404%Z) []).
  destruct (reply (next_turn w1)) as [| |f]; [destruct (others (next_turn w1))| |];
    eexists; eexists; subst w1; cbn [fst snd exchanges after history];
    rewrite <- app_assoc;
    (split; [reflexivity|]); (split; [reflexivity|]);
    (split; [reflexivity|]); (split; [reflexivity|]);
    try discriminate.
  intros _. split; [reflexivity|]. split; [exact Hrt|].
  intros Hv. rewrite Hrt. now rewrite (coerceSubmission_valid item Hv).
Qed.

Lemma C7_witness :
  let w := world0 [] [] in
  reply (next_turn w) = Served
  /\ arrive w = []
  /\ ledgerOf (arrive w) = [] /\ baseVersion (arrive w) = EmptyString
  /\ exists st ms,
    exchanges (snd (appendSubmissionToGitHub ada w))
    = (exchanges w
       ++ [mkExchange (getRequest (config w)) (Some 404%Z);
           mkExchange (putRequest (config w) (now w) (MarshalIndent [ada]) EmptyString) st])%list
    /\ Payload (putRequest (config w) (now w) (MarshalIndent [ada]) EmptyString)
       = Some (json.Object ms)
    /\ lookup "sha" ms = None
    /\ lookup "content" ms = Some (json.Str (base64.EncodeToString (MarshalIndent [ada])))
    /\ (fst (appendSubmissionToGitHub ada w) = None ->
        history (snd (appendSubmissionToGitHub ada w)) = [MarshalIndent [ada]]
        /\ storedLedger (history (snd (appendSubmissionToGitHub ada w)))
           = Some [coerceSubmission ada]
        /\ (validSubmission ada = true ->
            storedLedger (history (snd (appendSubmissionToGitHub ada w))) = Some [ada])).
Proof.
  split; [reflexivity|]. split; [reflexivity|].
  exact (C7_bootstrap ada (world0 [] []) eq_refl eq_refl).
Defined.

(** *** The handler *)

(** C8: validation short-circuits.  A POST whose body does not decode,
    or decodes to a name or a phone that is empty once trimmed (a
    missing member is the empty string), is answered 400 with a message,
    and the world is left as it was: no request is sent to the store. *)
Theorem C8_validation_short_circuit (r : Incoming) (w : World) :
  method r = "POST" ->
  match decodeLogin (rbody r) with
  | Some inp => strings.TrimSpace (inName inp) = EmptyString
                \/ strings.TrimSpace (inPhone inp) = EmptyString
  | None => True
  end ->
  let res := apiLogin r newResponseWriter w in
  code (fst res) = Some 400%Z
  /\ (written (fst res) = [lit "name and phone are required"; lit nl]
      \/ written (fst res) = [lit "invalid json: "; errText errJSON; lit nl])
  /\ snd res = w
  /\ exchanges (snd res) = exchanges w.
Proof.
  intros Hm Hbad res. subst res.
  unfold apiLogin, withCORS, loginHandler, bind, getConfig, ret. rewrite Hm.
  cbn [String.eqb Ascii.eqb Bool.eqb negb].
  destruct (decodeLogin (rbody r)) as [inp|].
  - assert (E : ((strings.TrimSpace (inName inp) =? "")
                 || (strings.TrimSpace (inPhone inp) =? ""))%string = true)
      by (destruct Hbad as [-> | ->]; [reflexivity | apply orb_true_r]).
    rewrite E. cbn. auto.
  - cbn. auto.
Qed.

Lemma C8_witness :
  let r := mkIncoming "POST" (loginBody "   " "555-0100" EmptyString) in
  let w := world0 [] [] in
  method r = "POST"
  /\ match decodeLogin (rbody r) with
     | Some inp => strings.TrimSpace (inName inp) = EmptyString
                   \/ strings.TrimSpace (inPhone inp) = EmptyString
     | None => True
     end
  /\ code (fst (apiLogin r newResponseWriter w)) = Some 400%Z
  /\ (written (fst (apiLogin r newResponseWriter w))
      = [lit "name and phone are required"; lit nl]
      \/ written (fst (apiLogin r newResponseWriter w))
         = [lit "invalid json: "; errText errJSON; lit nl])
  /\ snd (apiLogin r newResponseWriter w) = w
  /\ exchanges (snd (apiLogin r newResponseWriter w)) = exchanges w.
Proof.
  split; [reflexivity|]. split; [left; reflexivity|].
  exact (C8_validation_short_circuit
           (mkIncoming "POST" (loginBody "   " "555-0100" EmptyString)) (world0 [] [])
           eq_refl (or_introl eq_refl)).
Defined.

(** C9, as the code has it: the linkedin value is trimmed like the
    name and the phone.  For a valid POST, what the handler does to the
    store is the append of the record whose linkedin is the supplied
    string with its leading and trailing white space cut. *)
Theorem C9_linkedin_is_trimmed (r : Incoming) (w : World) (inp : loginInput) :
  method r = "POST" ->
  decodeLogin (rbody r) = Some inp ->
  strings.TrimSpace (inName inp) <> EmptyString ->
  strings.TrimSpace (inPhone inp) <> EmptyString ->
  let submission :=
    mkSubmission (strings.TrimSpace (inName inp)) (strings.TrimSpace (inPhone inp))
                 (strings.TrimSpace (inLinkedIn inp)) (now w) in
  let res := apiLogin r newResponseWriter w in
  let app := appendSubmissionToGitHub submission w in
  LinkedIn submission = strings.TrimSpace (inLinkedIn inp)
  /\ history (snd res) = history (snd app)
  /\ exchanges (snd res) = exchanges (snd app)
  /\ code (fst res) = Some (match fst app with None => 201 | Some _ => 500 end)%Z.
Proof.
  intros Hm Hd Hn Hp submission res app. subst res app.
  unfold apiLogin, withCORS, loginHandler, bind, getConfig, timeNow, ret. rewrite Hm, Hd.
  cbn [String.eqb Ascii.eqb Bool.eqb negb].
  apply String.eqb_neq in Hn, Hp. rewrite Hn, Hp. cbn [orb]. fold submission.
  destruct (appendSubmissionToGitHub submission w) as [[e|] w1]; cbn; auto.
Qed.

Lemma C9_witness :
  let r := mkIncoming "POST" (loginBody "Ada Lovelace" "555-0100" " https://x ") in
  let w := world0 [] [] in
  let inp := mkLoginInput "Ada Lovelace" "555-0100" " https://x " in
  let submission :=
    mkSubmission (strings.TrimSpace (inName inp)) (strings.TrimSpace (inPhone inp))
                 (strings.TrimSpace (inLinkedIn inp)) (now w) in
  method r = "POST"
  /\ decodeLogin (rbody r) = Some inp
  /\ strings.TrimSpace (inName inp) <> EmptyString
  /\ strings.TrimSpace (inPhone inp) <> EmptyString
  /\ LinkedIn submission = strings.TrimSpace (inLinkedIn inp)
  /\ history (snd (apiLogin r newResponseWriter w))
     = history (snd (appendSubmissionToGitHub submission w))
  /\ exchanges (snd (apiLogin r newResponseWriter w))
     = exchanges (snd (appendSubmissionToGitHub submission w))
  /\ code (fst (apiLogin r newResponseWriter w))
     = Some (match fst (appendSubmissionToGitHub submission w) with
             | None => 201 | Some _ => 500 end)%Z.
Proof.
  split; [reflexivity|]. split; [reflexivity|].
  split; [discriminate|]. split; [discriminate|].
  exact (C9_linkedin_is_trimmed
           (mkIncoming "POST" (loginBody "Ada Lovelace" "555-0100" " https://x "))
           (world0 [] []) (mkLoginInput "Ada Lovelace" "555-0100" " https://x ")
           eq_refl eq_refl
           (fun H => match H in (_ = s) return (match s with EmptyString => False | _ => True end)
                     with eq_refl => I end)
           (fun H => match H in (_ = s) return (match s with EmptyString => False | _ => True end)
                     with eq_refl => I end)).
Defined.

(** C9, as stated, fails: the request supplies a linkedin string with
    a space at each end, and the record stored has the string without
    them. *)
Lemma C9_counterexample :
  let r := mkIncoming "POST" (loginBody "Ada Lovelace" "555-0100" " https://x ") in
  let res := apiLogin r newResponseWriter (world0 [] []) in
  option_map inLinkedIn (decodeLogin (rbody r)) = Some " https://x "
  /\ code (fst res) = Some 201%Z
  /\ List.map LinkedIn (ledgerOf (history (snd res))) = ["https://x"].
Proof. repeat split; vm_compute; reflexivity. Qed.

(** C10, as the code has it: the route answers a method other than
    POST with 405, except OPTIONS, which the CORS wrapper answers with
    204 before the handler runs; in both cases the world is left as it
    was, with no request sent to the store. *)
Theorem C10_wrong_method (r : Incoming) (w : World) :
  method r <> "POST" ->
  let res := apiLogin r newResponseWriter w in
  code (fst res) = Some (if (method r =? "OPTIONS")%string then 204 else 405)%Z
  /\ snd res = w
  /\ exchanges (snd res) = exchanges w.
Proof.
  intros Hm res. subst res.
  unfold apiLogin, withCORS, loginHandler, bind, getConfig, ret.
  destruct (method r =? "OPTIONS")%string; [cbn; auto|].
  apply String.eqb_neq in Hm. rewrite Hm. cbn. auto.
Qed.

Lemma C10_witness :
  let r := mkIncoming "GET" EmptyString in
  let w := world0 [] [] in
  method r <> "POST"
  /\ code (fst (apiLogin r newResponseWriter w))
     = Some (if (method r =? "OPTIONS")%string then 204 else 405)%Z
  /\ snd (apiLogin r newResponseWriter w) = w
  /\ exchanges (snd (apiLogin r newResponseWriter w)) = exchanges w.
Proof.
  assert (H : "GET" <> "POST") by discriminate.
  split; [exact H|].
  exact (C10_wrong_method (mkIncoming "GET" EmptyString) (world0 [] []) H).
Defined.

(** C10, as stated, fails: a request with method OPTIONS is not a POST,
    and the route answers it 204, not 405. *)
Lemma C10_counterexample :
  let r := mkIncoming "OPTIONS" EmptyString in
  let res := apiLogin r newResponseWriter (world0 [] []) in
  (method r =? "POST")%string = false
  /\ code (fst res) = Some 204%Z
  /\ written (fst res) = [].
Proof. repeat split; vm_compute; reflexivity. Qed.

(** * Further properties of the code *)

(** ** The transport encoding *)

(** X1: what [putGitHubFile] encodes, [getGitHubFile] decodes back. *)
Theorem X1_base64_round_trip (content : string) :
  base64.DecodeString (strings.RemoveAll ch_nl (base64.EncodeToString content))
  = Some content
  /\ strings.RemoveAll ch_nl (base64.EncodeToString content)
     = base64.EncodeToString content.
Proof.
  destruct (RemoveAll_EncodeToString (String.length content) content) as [E _]; [lia|].
  rewrite E. split; [apply DecodeString_EncodeToString | reflexivity].
Qed.

(** Line feeds and carriage returns do not count in what is decoded. *)
Lemma RemoveAll_append (c : ascii) (a b : string) :
  strings.RemoveAll c (a ++ b) = strings.RemoveAll c a ++ strings.RemoveAll c b.
Proof.
  induction a as [|x a IH]; [reflexivity|].
  cbn [append strings.RemoveAll]. destruct (x =? c)%char; cbn [append]; now rewrite IH.
Qed.

Lemma RemoveAll_comm (c d : ascii) (s : string) :
  strings.RemoveAll c (strings.RemoveAll d s) = strings.RemoveAll d (strings.RemoveAll c s).
Proof.
  induction s as [|x s IH]; [reflexivity|].
  cbn [strings.RemoveAll].
  destruct (x =? d)%char eqn:Ed, (x =? c)%char eqn:Ec; cbn [strings.RemoveAll];
    rewrite ?Ed, ?Ec, ?IH; reflexivity.
Qed.

Lemma RemoveAll_idem (c : ascii) (s : string) :
  strings.RemoveAll c (strings.RemoveAll c s) = strings.RemoveAll c s.
Proof.
  induction s as [|x s IH]; [reflexivity|].
  cbn [strings.RemoveAll]. destruct (x =? c)%char eqn:E; [assumption|].
  cbn [strings.RemoveAll]. now rewrite E, IH.
Qed.

Lemma DecodeString_breaks (a b : string) (c : ascii) :
  c = ch_nl \/ c = ch_cr ->
  base64.DecodeString (a ++ String c b) = base64.DecodeString (a ++ b).
Proof.
  intros Hc. unfold base64.DecodeString. f_equal.
  rewrite !RemoveAll_append. cbn [strings.RemoveAll].
  destruct Hc as [-> | ->].
  - change ((ch_nl =? ch_nl)%char) with true. cbv iota. reflexivity.
  - change ((ch_cr =? ch_nl)%char) with false. cbv iota.
    rewrite ?RemoveAll_append. cbn [strings.RemoveAll].
    change ((ch_cr =? ch_cr)%char) with true. cbv iota. reflexivity.
Qed.

(** ** The store client *)

Lemma getGitHubFile_outcome (w : World) :
  getGitHubFile w
  = (fetchOutcome (fst (Do (getRequest (config w)) w)),
     snd (Do (getRequest (config w)) w)).
Proof.
  unfold getGitHubFile, bind, getConfig, ret.
  destruct (Do (getRequest (config w)) w) as [[resp|err] w1]; cbn [fst snd fetchOutcome];
    [|reflexivity].
  destruct (StatusCode resp =? 404)%Z; [reflexivity|].
  destruct (StatusCode resp >=? 300)%Z; [reflexivity|].
  destruct (decodeContentResponse (RespBody resp)) as [out|]; [|reflexivity].
  destruct (negb (Encoding out =? "base64")%string); [reflexivity|].
  destruct (base64.DecodeString _); reflexivity.
Qed.

Lemma appendSubmissionToGitHub_parts (item : Submission) (w : World) :
  appendSubmissionToGitHub item w = bind getGitHubFile (composeAndPut item) w.
Proof. reflexivity. Qed.

Lemma fetchOutcome_error (resp : Response) (e : error) :
  snd (fetchOutcome (inl resp)) = Some e ->
  fst (fetchOutcome (inl resp)) = (EmptyString, EmptyString)
  /\ (e = errNotFound <-> StatusCode resp = 404%Z).
Proof.
  unfold fetchOutcome.
  destruct (StatusCode resp =? 404)%Z eqn:E404.
  { apply Z.eqb_eq in E404. cbn. intros H. injection H as <-. tauto. }
  apply Z.eqb_neq in E404.
  destruct (StatusCode resp >=? 300)%Z.
  { cbn. intros H. injection H as <-. split; [reflexivity|]. split; [discriminate|tauto]. }
  destruct (decodeContentResponse (RespBody resp)) as [out|].
  2:{ cbn. intros H. injection H as <-. split; [reflexivity|]. split; [discriminate|tauto]. }
  destruct (negb (Encoding out =? "base64")%string).
  { cbn. intros H. injection H as <-. split; [reflexivity|]. split; [discriminate|tauto]. }
  destruct (base64.DecodeString _); cbn; [discriminate|].
  intros H. injection H as <-. split; [reflexivity|]. split; [discriminate|tauto].
Qed.

(** X2: the errors of [getGitHubFile].  Whatever the store answers, the
    error is [errNotFound] exactly for status 404; every status of 300
    or more is an error; and with an error come no content and no
    SHA. *)
Theorem X2_fetch_errors (resp : Response) :
  (snd (fetchOutcome (inl resp)) = Some errNotFound <-> StatusCode resp = 404%Z)
  /\ ((300 <= StatusCode resp)%Z -> snd (fetchOutcome (inl resp)) <> None)
  /\ (snd (fetchOutcome (inl resp)) <> None ->
      fst (fetchOutcome (inl resp)) = (EmptyString, EmptyString)).
Proof.
  split; [|split].
  - split.
    + intros H. now apply (fetchOutcome_error resp errNotFound H).
    + intros H. unfold fetchOutcome. apply Z.eqb_eq in H. now rewrite H.
  - intros H. unfold fetchOutcome.
    destruct (StatusCode resp =? 404)%Z; [discriminate|].
    assert (E : (StatusCode resp >=? 300)%Z = true) by (apply Z.geb_le; lia).
    rewrite E. discriminate.
  - intros H. destruct (snd (fetchOutcome (inl resp))) as [e|] eqn:E; [|congruence].
    now apply (fetchOutcome_error resp e).
Qed.

(** X3: what [getGitHubFile] returns for a success.  When the status is
    below 300 and the envelope says [base64], the content returned is
    the one whose standard encoding the [content] member holds, line
    feeds and carriage returns set aside wherever they stand, and the
    SHA is the envelope's. *)
Theorem X3_fetch_decodes (resp : Response) (out : githubContentResponse)
    (content : string) :
  (StatusCode resp < 300)%Z ->
  decodeContentResponse (RespBody resp) = Some out ->
  Encoding out = "base64" ->
  strings.RemoveAll ch_cr (strings.RemoveAll ch_nl (Content out))
  = base64.EncodeToString content ->
  fetchOutcome (inl resp) = (content, SHA out, None).
Proof.
  intros Hs Hd He Hc. unfold fetchOutcome.
  assert (E1 : (StatusCode resp =? 404)%Z = false) by (apply Z.eqb_neq; lia).
  assert (E2 : (StatusCode resp >=? 300)%Z = false).
  { destruct (StatusCode resp >=? 300)%Z eqn:E; [|reflexivity].
    apply Z.geb_le in E. lia. }
  rewrite E1, E2, Hd, He. cbn [String.eqb Ascii.eqb Bool.eqb negb].
  unfold base64.DecodeString. rewrite RemoveAll_idem, Hc.
  now rewrite (decodeQuanta_EncodeToString (String.length content)).
Qed.

Lemma X3_witness :
  let resp := respond 200 (bodyJSON (json.Object
                [("sha", json.Str "abc"); ("encoding", json.Str "base64");
                 ("content", json.Str brokenLines)])) in
  let out := mkContentResponse brokenLines "base64" "abc" in
  (StatusCode resp < 300)%Z
  /\ decodeContentResponse (RespBody resp) = Some out
  /\ Encoding out = "base64"
  /\ strings.RemoveAll ch_cr (strings.RemoveAll ch_nl (Content out))
     = base64.EncodeToString "[]"
  /\ fetchOutcome (inl resp) = ("[]", SHA out, None).
Proof.
  split; [reflexivity|]. split; [reflexivity|]. split; [reflexivity|].
  split; [reflexivity|].
  exact (X3_fetch_decodes
           (respond 200 (bodyJSON (json.Object
                [("sha", json.Str "abc"); ("encoding", json.Str "base64");
                 ("content", json.Str brokenLines)])))
           (mkContentResponse brokenLines "base64" "abc")
           "[]" eq_refl eq_refl eq_refl eq_refl).
Defined.

(** X4: no commit after a failed fetch.  Whatever the store answers to
    the GET, when the status is not 404 and [getGitHubFile] reports an
    error, the operation returns that error and sends nothing more: the
    world is as the fetch left it.  So does it when the request itself
    fails. *)
Theorem X4_no_put_after_failed_fetch (item : Submission) (resp : Response)
    (e : error) (w : World) :
  StatusCode resp <> 404%Z ->
  snd (fetchOutcome (inl resp)) = Some e ->
  composeAndPut item (fetchOutcome (inl resp)) w = (Some e, w)
  /\ composeAndPut item (fetchOutcome (inr errTransport)) w = (Some errTransport, w).
Proof.
  intros Hs He. split; [|reflexivity].
  destruct (fetchOutcome_error resp e He) as [Hf Hn].
  destruct (fetchOutcome (inl resp)) as [[c s] err]. cbn [fst snd] in *.
  subst err. unfold composeAndPut.
  destruct e; try reflexivity. exfalso. apply Hs. now apply Hn.
Qed.

Lemma X4_witness :
  let resp := respond 200 (bodyJSON (json.Object
                [("sha", json.Str "abc"); ("encoding", json.Str "none");
                 ("content", json.Str EmptyString)])) in
  StatusCode resp <> 404%Z
  /\ snd (fetchOutcome (inl resp)) = Some (errUnexpectedEncoding "none")
  /\ composeAndPut ada (fetchOutcome (inl resp)) (world0 [] [])
     = (Some (errUnexpectedEncoding "none"), world0 [] [])
  /\ composeAndPut ada (fetchOutcome (inr errTransport)) (world0 [] [])
     = (Some errTransport, world0 [] []).
Proof.
  assert (H : (200 <> 404)%Z) by discriminate.
  split; [exact H|]. split; [reflexivity|].
  exact (X4_no_put_after_failed_fetch ada
           (respond 200 (bodyJSON (json.Object
                [("sha", json.Str "abc"); ("encoding", json.Str "none");
                 ("content", json.Str EmptyString)])))
           (errUnexpectedEncoding "none") (world0 [] []) H eq_refl).
Defined.

(** X5: the request of [putGitHubFile].  It is a PUT of the file's URL
    whose payload names the branch, holds the [sha] member exactly when
    a SHA is given, and holds as [content] a text that decodes to the
    content given. *)
Theorem X5_put_request (cfg : Config) (t content sha : string) :
  let req := putRequest cfg t content sha in
  Method req = "PUT" /\ URL req = fileURL cfg
  /\ exists ms b64,
       Payload req = Some (json.Object ms)
       /\ lookup "sha" ms = (if (sha =? "")%string then None else Some (json.Str sha))
       /\ lookup "branch" ms = Some (json.Str (githubBranch cfg))
       /\ lookup "content" ms = Some (json.Str b64)
       /\ base64.DecodeString b64 = Some content.
Proof.
  cbn zeta. split; [reflexivity|]. split; [reflexivity|].
  unfold putRequest. cbn [Payload]. unfold marshalUpdateRequest.
  eexists. exists (base64.EncodeToString content).
  split; [reflexivity|].
  split; [destruct (sha =? "")%string; reflexivity|].
  split; [reflexivity|]. split; [reflexivity|].
  apply DecodeString_EncodeToString.
Qed.



(** X7: what is put is what is fetched.  When nothing interferes, a
    put conditioned on the current version of the file succeeds, and the
    fetch after it returns the content put, byte for byte, with the
    version a next put must name. *)
Theorem X7_put_then_get (content : string) (w : World) :
  calm w ->
  let r := putGitHubFile content (baseVersion (history w)) w in
  fst r = None
  /\ fst (getGitHubFile (snd r))
     = (content, shaOf (S (List.length (history w))), None)
  /\ baseVersion (history (snd r)) = shaOf (S (List.length (history w))).
Proof.
  intros Hc. cbn zeta.
  assert (Hr : reply (next_turn w) = Served) by (now rewrite calm_next_turn).
  rewrite putGitHubFile_served by assumption. cbn zeta.
  rewrite arrive_calm by assumption.
  set (req := putRequest (config w) (now w) content (baseVersion (history w))).
  assert (Hlen : forall h : list string, List.length (h ++ [content]) = S (List.length h))
    by (intros h; rewrite length_app; cbn; lia).
  assert (Hget : forall st h,
    h <> [] -> List.last h EmptyString = content ->
    fst (getGitHubFile (after w req st h)) = (content, shaOf (List.length h), None)).
  { intros st h Hne Hl.
    assert (Hc' : calm (after w req st h)) by (now apply calm_after).
    rewrite (getGitHubFile_found _ content).
    - cbn [fst]. now rewrite arrive_calm.
    - now rewrite calm_next_turn.
    - rewrite arrive_calm by assumption. cbn [history after].
      rewrite current_some by assumption. now rewrite Hl. }
  destruct (history w) as [|c h] eqn:Hh.
  - cbn [baseVersion String.eqb fst snd].
    split; [reflexivity|]. split; [now apply Hget | reflexivity].
  - cbn [baseVersion]. rewrite shaOf_nonempty, String.eqb_refl.
    cbn [fst snd]. split; [reflexivity|].
    split.
    + rewrite Hget; [now rewrite Hlen | destruct h; discriminate | apply last_last].
    + cbn [history after app baseVersion List.length]. now rewrite Hlen.
Qed.

Lemma X7_witness :
  let w := world0 [MarshalIndent [bob]] [] in
  calm w
  /\ fst (putGitHubFile "[]" (baseVersion (history w)) w) = None
  /\ fst (getGitHubFile (snd (putGitHubFile "[]" (baseVersion (history w)) w)))
     = ("[]", shaOf (S (List.length (history w))), None)
  /\ baseVersion (history (snd (putGitHubFile "[]" (baseVersion (history w)) w)))
     = shaOf (S (List.length (history w))).
Proof.
  split; [constructor|].
  exact (X7_put_then_get "[]" (world0 [MarshalIndent [bob]] []) (Forall_nil _)).
Defined.

(** ** The handlers *)

Lemma find_filter_snoc {A : Type} (f : A -> bool) (l : list A) (x : A) :
  f x = true -> List.find f (List.filter (fun y => negb (f y)) l ++ [x]) = Some x.
Proof.
  intros Hx. induction l as [|y l IH]; cbn [List.filter app List.find].
  - now rewrite Hx.
  - destruct (f y) eqn:E; cbn [negb]; [exact IH|].
    cbn [app List.find]. now rewrite E.
Qed.

Lemma find_filter_other {A : Type} (f g : A -> bool) (l : list A) (x : A) :
  (forall y, f y = true -> g y = false) -> f x = false ->
  List.find f (List.filter (fun y => negb (g y)) l ++ [x]) = List.find f l.
Proof.
  intros Hfg Hx. induction l as [|y l IH]; cbn [List.filter app List.find].
  - now rewrite Hx.
  - destruct (g y) eqn:E; cbn [negb].
    + destruct (f y) eqn:Ef; [now rewrite (Hfg y Ef) in E | exact IH].
    + cbn [app List.find]. destruct (f y); [reflexivity | exact IH].
Qed.

Lemma HeaderGet_HeaderSet (key val : string) (rw : ResponseWriter) :
  HeaderGet key (HeaderSet key val rw) = Some val.
Proof.
  unfold HeaderGet, HeaderSet. cbn [header].
  rewrite (find_filter_snoc (fun kv => (fst kv =? key)%string));
    [reflexivity | apply String.eqb_refl].
Qed.

Lemma HeaderGet_HeaderSet_other (key key' val : string) (rw : ResponseWriter) :
  key' <> key -> HeaderGet key' (HeaderSet key val rw) = HeaderGet key' rw.
Proof.
  intros Hne. unfold HeaderGet, HeaderSet. cbn [header]. f_equal.
  apply (find_filter_other (fun kv => (fst kv =? key')%string)
                           (fun kv => (fst kv =? key)%string)).
  - intros [k v] H. cbn [fst] in *. apply String.eqb_eq in H. subst k.
    now apply String.eqb_neq.
  - cbn [fst]. apply String.eqb_neq. congruence.
Qed.

Lemma header_WriteHeader (c : Z) (rw : ResponseWriter) :
  header (WriteHeader c rw) = header rw.
Proof. unfold WriteHeader. destruct (code rw); reflexivity. Qed.

Lemma HeaderGet_ext (key : string) (rw rw' : ResponseWriter) :
  header rw = header rw' -> HeaderGet key rw = HeaderGet key rw'.
Proof. unfold HeaderGet. now intros ->. Qed.

Lemma header_Write (data : list piece) (rw : ResponseWriter) :
  header (Write data rw) = header rw.
Proof. unfold Write. cbn [header]. apply header_WriteHeader. Qed.

Lemma HeaderGet_httpError (key : string) (msg : list piece) (c : Z) (rw : ResponseWriter) :
  key <> "Content-Type" -> key <> "X-Content-Type-Options" ->
  HeaderGet key (httpError msg c rw) = HeaderGet key rw.
Proof.
  intros H1 H2.
  rewrite (HeaderGet_ext key (httpError msg c rw)
             (HeaderSet "X-Content-Type-Options" "nosniff"
                (HeaderSet "Content-Type" "text/plain; charset=utf-8" rw)))
    by (unfold httpError; now rewrite header_Write, header_WriteHeader).
  now rewrite !HeaderGet_HeaderSet_other.
Qed.

(** What the handler of the login leaves of the headers set before it:
    all but the two that it sets itself. *)
Lemma HeaderGet_loginHandler (key : string) (r : Incoming) (rw : ResponseWriter)
    (w : World) :
  key <> "Content-Type" -> key <> "X-Content-Type-Options" ->
  HeaderGet key (fst (loginHandler r rw w)) = HeaderGet key rw.
Proof.
  intros H1 H2. unfold loginHandler, bind, ret, timeNow, logPrintf.
  destruct (negb (method r =? "POST")%string); [now apply HeaderGet_httpError|].
  destruct (decodeLogin (rbody r)) as [inp|]; [|now apply HeaderGet_httpError].
  destruct (_ || _)%bool; [now apply HeaderGet_httpError|].
  destruct (appendSubmissionToGitHub _ w) as [[e|] w1]; cbn [fst].
  - now apply HeaderGet_httpError.
  - rewrite (HeaderGet_ext key _ (HeaderSet "Content-Type" "application/json" rw))
      by (now rewrite header_Write, header_WriteHeader).
    now apply HeaderGet_HeaderSet_other.
Qed.

Lemma HeaderGet_healthHandler (key : string) (r : Incoming) (rw : ResponseWriter)
    (w : World) :
  key <> "Content-Type" ->
  HeaderGet key (fst (healthHandler r rw w)) = HeaderGet key rw.
Proof.
  intros H1. unfold healthHandler, ret. cbn [fst].
  rewrite (HeaderGet_ext key _ (HeaderSet "Content-Type" "application/json" rw))
    by (now rewrite header_Write).
  now apply HeaderGet_HeaderSet_other.
Qed.

Lemma withCORS_headers (next : Handler) (r : Incoming) (rw : ResponseWriter) (w : World) :
  (forall key rw', In key (List.map fst (corsHeaders (config w))) ->
                   HeaderGet key (fst (next r rw' w)) = HeaderGet key rw') ->
  forall key val, In (key, val) (corsHeaders (config w)) ->
    HeaderGet key (fst (withCORS next r rw w)) = Some val.
Proof.
  intros Hnext key val Hin. unfold withCORS, bind, getConfig, ret.
  assert (Hset : HeaderGet key
    (HeaderSet "Access-Control-Max-Age" "600"
       (HeaderSet "Access-Control-Allow-Headers" "Content-Type, Authorization"
          (HeaderSet "Access-Control-Allow-Methods" "GET,POST,OPTIONS"
             (HeaderSet "Access-Control-Allow-Origin" (allowOrigin (config w)) rw))))
    = Some val).
  { cbn [corsHeaders In] in Hin.
    destruct Hin as [H|[H|[H|[H|[]]]]]; injection H as <- <-;
      repeat first [apply HeaderGet_HeaderSet
                   | rewrite HeaderGet_HeaderSet_other by discriminate]. }
  destruct (method r =? "OPTIONS")%string; cbn [fst].
  - rewrite <- Hset. apply HeaderGet_ext, header_WriteHeader.
  - rewrite Hnext; [exact Hset|].
    change key with (fst (key, val)). now apply in_map.
Qed.

(** X8: the CORS headers are on every response.  Whatever the method,
    the body and the state of the store, and whatever the handler
    answers, the response of [/api/login] and that of [/health] carry
    the four headers that [withCORS] sets, the origin being the
    configured one. *)
Theorem X8_cors_headers (r : Incoming) (rw : ResponseWriter) (w : World)
    (key val : string) :
  In (key, val) (corsHeaders (config w)) ->
  HeaderGet key (fst (apiLogin r rw w)) = Some val
  /\ HeaderGet key (fst (health r rw w)) = Some val.
Proof.
  intros Hin. split.
  - apply withCORS_headers; [|assumption].
    intros k rw' Hk. apply HeaderGet_loginHandler;
      cbn [corsHeaders List.map fst In] in Hk;
      destruct Hk as [<-|[<-|[<-|[<-|[]]]]]; discriminate.
  - apply withCORS_headers; [|assumption].
    intros k rw' Hk. apply HeaderGet_healthHandler;
      cbn [corsHeaders List.map fst In] in Hk;
      destruct Hk as [<-|[<-|[<-|[<-|[]]]]]; discriminate.
Qed.

Lemma X8_witness :
  let r := mkIncoming "POST" (loginBody "Ada Lovelace" "555-0100" EmptyString) in
  let w := world0 [] [] in
  In ("Access-Control-Allow-Origin", "*") (corsHeaders (config w))
  /\ HeaderGet "Access-Control-Allow-Origin" (fst (apiLogin r newResponseWriter w))
     = Some "*"
  /\ HeaderGet "Access-Control-Allow-Origin" (fst (health r newResponseWriter w))
     = Some "*".
Proof.
  split; [left; reflexivity|].
  exact (X8_cors_headers
           (mkIncoming "POST" (loginBody "Ada Lovelace" "555-0100" EmptyString))
           newResponseWriter (world0 [] []) "Access-Control-Allow-Origin" "*"
           (or_introl eq_refl)).
Defined.

(** X9: the answers of [/api/login].  Every request gets one of six
    answers: 204 with no body (OPTIONS), 405, 400 for a body that does
    not decode, 400 for a missing name or phone, 500 with a fixed text
    when the append fails, 201 with the JSON reply when it succeeds.
    Only the last two have reached the store; the text of the error of
    a failed append goes to the log and never to the response; every
    error is sent as plain text. *)
Theorem X9_login_answers (r : Incoming) (w : World) :
  let res := apiLogin r newResponseWriter w in
  let rw := fst res in
  let plain :=
    HeaderGet "Content-Type" rw = Some "text/plain; charset=utf-8"
    /\ HeaderGet "X-Content-Type-Options" rw = Some "nosniff" in
  (code rw = Some 204%Z /\ written rw = [] /\ snd res = w
   /\ HeaderGet "Content-Type" rw = None)
  \/ (code rw = Some 405%Z /\ written rw = [lit "method not allowed"; lit nl]
      /\ snd res = w /\ plain)
  \/ (code rw = Some 400%Z
      /\ written rw = [lit "invalid json: "; errText errJSON; lit nl]
      /\ snd res = w /\ plain)
  \/ (code rw = Some 400%Z /\ written rw = [lit "name and phone are required"; lit nl]
      /\ snd res = w /\ plain)
  \/ (code rw = Some 500%Z /\ written rw = [lit "failed to update GitHub file"; lit nl]
      /\ plain
      /\ exists item e w1,
           appendSubmissionToGitHub item w = (Some e, w1)
           /\ snd res = add_log [lit "append to GitHub failed: "; errText e] w1)
  \/ (code rw = Some 201%Z /\ written rw = [lit savedReply]
      /\ HeaderGet "Content-Type" rw = Some "application/json"
      /\ exists item, appendSubmissionToGitHub item w = (None, snd res)).
Proof.
  cbn zeta. unfold apiLogin, withCORS, loginHandler, bind, getConfig, ret, timeNow, logPrintf.
  destruct (method r =? "OPTIONS")%string eqn:Eo.
  { left. cbn. auto. }
  right. destruct (method r =? "POST")%string eqn:Ep; cbn [negb].
  2:{ left. cbn. auto. }
  right. destruct (decodeLogin (rbody r)) as [inp|].
  2:{ left. cbn. auto. }
  right. destruct (_ || _)%bool.
  { left. cbn. auto. }
  right.
  destruct (appendSubmissionToGitHub _ w) as [[e|] w1] eqn:Ea.
  - left. cbn [fst snd]. split; [reflexivity|]. split; [reflexivity|].
    split; [split; reflexivity|]. eexists. exists e, w1. split; [exact Ea | reflexivity].
  - right. cbn [fst snd]. split; [reflexivity|]. split; [reflexivity|].
    split; [reflexivity|]. eexists. exact Ea.
Qed.

(** *** The body of the login request *)

Lemma storeLoginMember_ok (x : loginInput) (m : string * json.value) :
  storeLoginMember x m <> None <-> loginField (fst m) && fitsString (snd m) = true.
Proof.
  destruct m as [key v]. unfold storeLoginMember, loginField. cbn [fst snd].
  destruct (json.foldName key =? "NAME")%string;
    [|destruct (json.foldName key =? "PHONE")%string;
      [|destruct (json.foldName key =? "LINKEDIN")%string]];
    cbn [orb andb]; try (split; [congruence | discriminate]);
    destruct v; cbn; split; congruence.
Qed.

Lemma storeLoginMembers_ok (ms : list (string * json.value)) :
  forall x, storeLoginMembers x ms <> None
            <-> forallb (fun m => loginField (fst m) && fitsString (snd m)) ms = true.
Proof.
  induction ms as [|m ms IH]; intros x; cbn [storeLoginMembers forallb].
  - split; [reflexivity | discriminate].
  - pose proof (storeLoginMember_ok x m) as Hm.
    destruct (storeLoginMember x m) as [x'|].
    + rewrite IH. destruct (loginField (fst m) && fitsString (snd m)).
      * reflexivity.
      * exfalso. assert (H : Some x' <> None) by discriminate.
        apply Hm in H. discriminate.
    + destruct (loginField (fst m) && fitsString (snd m)).
      * exfalso. destruct Hm as [_ Hm]. now apply Hm.
      * split; [congruence | discriminate].
Qed.

(** X10: the members the handler accepts.  For a POST whose body is a
    JSON object, the answer is 400 [invalid json] exactly when some
    member is not one of [name], [phone] and [linkedin] (letter case
    set aside) with a string or [null] for its value; the store is then
    not contacted. *)
Theorem X10_login_members (r : Incoming) (w : World) (ms : list (string * json.value)) :
  method r = "POST" ->
  json.parse_first (rbody r) = Some (json.Object ms) ->
  let res := apiLogin r newResponseWriter w in
  (written (fst res) = [lit "invalid json: "; errText errJSON; lit nl]
   <-> existsb (fun m => negb (loginField (fst m) && fitsString (snd m))) ms = true)
  /\ (written (fst res) = [lit "invalid json: "; errText errJSON; lit nl] ->
      code (fst res) = Some 400%Z /\ snd res = w).
Proof.
  intros Hm Hp. cbn zeta.
  unfold apiLogin, withCORS, loginHandler, bind, getConfig, ret, timeNow, logPrintf.
  rewrite Hm. cbn [String.eqb Ascii.eqb Bool.eqb negb].
  unfold decodeLogin. rewrite Hp.
  pose proof (storeLoginMembers_ok ms (mkLoginInput EmptyString EmptyString EmptyString)) as Hok.
  assert (Hex : existsb (fun m => negb (loginField (fst m) && fitsString (snd m))) ms
                = negb (forallb (fun m => loginField (fst m) && fitsString (snd m)) ms)).
  { clear. induction ms as [|m ms IH]; [reflexivity|].
    cbn [existsb forallb]. rewrite IH. now destruct (_ && _). }
  rewrite Hex.
  destruct (storeLoginMembers _ ms) as [inp|].
  - assert (Hf : forallb (fun m => loginField (fst m) && fitsString (snd m)) ms = true)
      by (apply Hok; discriminate).
    rewrite Hf. cbn [negb].
    destruct (_ || _)%bool.
    + cbn. split; [split; discriminate | discriminate].
    + destruct (appendSubmissionToGitHub _ w) as [[e|] w1]; cbn;
        (split; [split; discriminate | discriminate]).
  - assert (Hf : forallb (fun m => loginField (fst m) && fitsString (snd m)) ms = false).
    { destruct (forallb _ ms); [|reflexivity]. exfalso. now apply Hok. }
    rewrite Hf. cbn. split; [split; reflexivity | auto].
Qed.

Lemma X10_witness :
  let r := mkIncoming "POST"
             ("{" ++ json.appendString "name" ++ ":" ++ json.appendString "Ada" ++ ","
                  ++ json.appendString "email" ++ ":" ++ json.appendString "a@b" ++ "}") in
  let w := world0 [] [] in
  let ms := [("name", json.Str "Ada"); ("email", json.Str "a@b")] in
  method r = "POST"
  /\ json.parse_first (rbody r) = Some (json.Object ms)
  /\ (written (fst (apiLogin r newResponseWriter w))
      = [lit "invalid json: "; errText errJSON; lit nl]
      <-> existsb (fun m => negb (loginField (fst m) && fitsString (snd m))) ms = true)
  /\ (written (fst (apiLogin r newResponseWriter w))
      = [lit "invalid json: "; errText errJSON; lit nl] ->
      code (fst (apiLogin r newResponseWriter w)) = Some 400%Z
      /\ snd (apiLogin r newResponseWriter w) = w).
Proof.
  split; [reflexivity|]. split; [reflexivity|].
  exact (X10_login_members
           (mkIncoming "POST"
             ("{" ++ json.appendString "name" ++ ":" ++ json.appendString "Ada" ++ ","
                  ++ json.appendString "email" ++ ":" ++ json.appendString "a@b" ++ "}"))
           (world0 [] []) [("name", json.Str "Ada"); ("email", json.Str "a@b")]
           eq_refl eq_refl).
Defined.

(** A field that no member names stays as it was. *)
Lemma storeLoginMembers_missing (ms : list (string * json.value)) :
  forall x y, storeLoginMembers x ms = Some y ->
    (forallb (fun m => negb (json.foldName (fst m) =? "NAME")%string) ms = true ->
     inName y = inName x)
    /\ (forallb (fun m => negb (json.foldName (fst m) =? "PHONE")%string) ms = true ->
        inPhone y = inPhone x).
Proof.
  induction ms as [|[key v] ms IH]; intros x y H; cbn [storeLoginMembers] in H.
  - injection H as <-. auto.
  - destruct (storeLoginMember x (key, v)) as [x'|] eqn:E; [|discriminate].
    destruct (IH x' y H) as [IHn IHp]. cbn [forallb fst].
    unfold storeLoginMember in E.
    destruct (json.foldName key =? "NAME")%string eqn:En.
    { split; [discriminate|]. intros Hp. apply andb_prop in Hp. destruct Hp as [_ Hp].
      rewrite IHp by assumption.
      destruct (json.storeString v (inName x)); [|discriminate].
      injection E as <-. reflexivity. }
    destruct (json.foldName key =? "PHONE")%string eqn:Ep.
    { split; [|discriminate]. intros Hn. apply andb_prop in Hn. destruct Hn as [_ Hn].
      rewrite IHn by assumption.
      destruct (json.storeString v (inPhone x)); [|discriminate].
      injection E as <-. reflexivity. }
    destruct (json.foldName key =? "LINKEDIN")%string; [|discriminate].
    destruct (json.storeString v (inLinkedIn x)); [|discriminate].
    injection E as <-. cbn [negb andb]. split; intros Hx.
    + now rewrite IHn.
    + now rewrite IHp.
Qed.

(** X11: a missing name or phone.  For a POST whose body is a JSON
    object that decodes, when no member is named [name], or none is
    named [phone] (letter case set aside), the answer is 400 [name and
    phone are required], and the store is not contacted. *)
Theorem X11_missing_member (r : Incoming) (w : World) (ms : list (string * json.value)) :
  method r = "POST" ->
  json.parse_first (rbody r) = Some (json.Object ms) ->
  forallb (fun m => loginField (fst m) && fitsString (snd m)) ms = true ->
  forallb (fun m => negb (json.foldName (fst m) =? "NAME")%string) ms = true
  \/ forallb (fun m => negb (json.foldName (fst m) =? "PHONE")%string) ms = true ->
  let res := apiLogin r newResponseWriter w in
  code (fst res) = Some 400%Z
  /\ written (fst res) = [lit "name and phone are required"; lit nl]
  /\ snd res = w.
Proof.
  intros Hm Hp Hok Hmiss. cbn zeta.
  unfold apiLogin, withCORS, loginHandler, bind, getConfig, ret, timeNow, logPrintf.
  rewrite Hm. cbn [String.eqb Ascii.eqb Bool.eqb negb].
  unfold decodeLogin. rewrite Hp.
  destruct (storeLoginMembers (mkLoginInput EmptyString EmptyString EmptyString) ms)
    as [inp|] eqn:E.
  2:{ exfalso. revert E. now apply (storeLoginMembers_ok ms). }
  destruct (storeLoginMembers_missing ms _ _ E) as [Hn Hph].
  assert (Hempty : ((strings.TrimSpace (inName inp) =? "")
                    || (strings.TrimSpace (inPhone inp) =? ""))%string = true).
  { destruct Hmiss as [H|H].
    - rewrite (Hn H). reflexivity.
    - rewrite (Hph H). apply orb_true_r. }
  rewrite Hempty. cbn. auto.
Qed.

Lemma X11_witness :
  let r := mkIncoming "POST"
             ("{" ++ json.appendString "name" ++ ":" ++ json.appendString "Ada" ++ "}") in
  let w := world0 [] [] in
  let ms := [("name", json.Str "Ada")] in
  method r = "POST"
  /\ json.parse_first (rbody r) = Some (json.Object ms)
  /\ forallb (fun m => loginField (fst m) && fitsString (snd m)) ms = true
  /\ (forallb (fun m => negb (json.foldName (fst m) =? "NAME")%string) ms = true
      \/ forallb (fun m => negb (json.foldName (fst m) =? "PHONE")%string) ms = true)
  /\ code (fst (apiLogin r newResponseWriter w)) = Some 400%Z
  /\ written (fst (apiLogin r newResponseWriter w))
     = [lit "name and phone are required"; lit nl]
  /\ snd (apiLogin r newResponseWriter w) = w.
Proof.
  split; [reflexivity|]. split; [reflexivity|]. split; [reflexivity|].
  split; [right; reflexivity|].
  exact (X11_missing_member
           (mkIncoming "POST"
             ("{" ++ json.appendString "name" ++ ":" ++ json.appendString "Ada" ++ "}"))
           (world0 [] []) [("name", json.Str "Ada")]
           eq_refl eq_refl eq_refl (or_intror eq_refl)).
Defined.

(** Once the document is complete the scanner keeps its value. *)
Lemma scan_all_endTop (data : string) (v v' : json.value)
    (stk stk' : list json.parseState) :
  json.scan_all (Some (json.stateEndTop v, stk)) data = Some (json.stateEndTop v', stk') ->
  v' = v.
Proof.
  revert stk. induction data as [|c data IH]; intros stk H.
  - cbn in H. now injection H.
  - cbn [json.scan_all json.scan json.scan_step] in H. unfold json.stepEndTop in H.
    destruct (json.isSpace c).
    + now apply IH in H.
    + rewrite scan_all_error in H. discriminate.
Qed.

Lemma scan_first_complete (pre : string) (v : json.value) (stk : list json.parseState) :
  forall sc rest,
    json.scan_all sc pre = Some (json.stateEndTop v, stk) ->
    json.scan_first sc (pre ++ rest) = Some v.
Proof.
  induction pre as [|c pre IH]; intros sc rest H.
  - cbn in H. subst sc. destruct rest; reflexivity.
  - cbn [json.scan_all] in H. cbn [append json.scan_first].
    destruct sc as [[st stack]|]; [|cbn in H; rewrite scan_all_error in H; discriminate].
    assert (Hgo : json.scan_first (json.scan (Some (st, stack)) c) (pre ++ rest) = Some v)
      by (now apply IH).
    destruct st; try exact Hgo.
    (* the document was complete before this byte *)
    f_equal. symmetry.
    apply (scan_all_endTop (String c pre) _ _ stack stk). exact H.
Qed.

(** X12: what follows the first document of the body is not read.
    When a prefix of the body is a complete JSON object, the answer and
    the effect on the store are those for the prefix alone, whatever
    follows it. *)
Theorem X12_trailing_data (m pre rest : string) (ms : list (string * json.value))
    (rw : ResponseWriter) (w : World) :
  json.scan_all json.reset pre = Some (json.stateEndTop (json.Object ms), []) ->
  apiLogin (mkIncoming m (pre ++ rest)) rw w = apiLogin (mkIncoming m pre) rw w.
Proof.
  intros H.
  assert (E : decodeLogin (pre ++ rest) = decodeLogin pre).
  { unfold decodeLogin, json.parse_first.
    rewrite (scan_first_complete pre _ _ _ rest H).
    rewrite <- (append_nil_r pre) at 1.
    now rewrite (scan_first_complete pre _ _ _ EmptyString H). }
  unfold apiLogin, withCORS, loginHandler, bind. cbn [method rbody].
  now rewrite E.
Qed.

Lemma X12_witness :
  let pre := loginBody "Ada Lovelace" "555-0100" EmptyString in
  let ms := [("name", json.Str "Ada Lovelace"); ("phone", json.Str "555-0100");
             ("linkedin", json.Str EmptyString)] in
  json.scan_all json.reset pre = Some (json.stateEndTop (json.Object ms), [])
  /\ apiLogin (mkIncoming "POST" (pre ++ "}{ not json")) newResponseWriter (world0 [] [])
     = apiLogin (mkIncoming "POST" pre) newResponseWriter (world0 [] []).
Proof.
  split; [reflexivity|].
  exact (X12_trailing_data "POST" (loginBody "Ada Lovelace" "555-0100" EmptyString)
           "}{ not json"
           [("name", json.Str "Ada Lovelace"); ("phone", json.Str "555-0100");
            ("linkedin", json.Str EmptyString)]
           newResponseWriter (world0 [] []) eq_refl).
Defined.

(** ** [strings.TrimSpace] *)

Lemma asciiSpace_ascii (c : ascii) :
  strings.asciiSpace c = true -> (utf8.RuneSelf <=? byte_val c) = false.
Proof.
  unfold strings.asciiSpace. intros H.
  repeat (apply orb_prop in H; destruct H as [H|H]);
    apply Ascii.eqb_eq in H; subst c; reflexivity.
Qed.

Lemma TrimSpace_spaces (s : string) : allSpaces s = true -> strings.TrimSpace s = EmptyString.
Proof.
  unfold allSpaces. induction s as [|c s IH]; [reflexivity|].
  cbn [list_ascii_of_string forallb]. intros H.
  apply andb_prop in H. destruct H as [Hc Hs].
  cbn [strings.TrimSpace]. rewrite (asciiSpace_ascii c Hc), Hc. now apply IH.
Qed.

Lemma TrimLeftSpace_suffix (fuel : nat) :
  forall s, exists pre, s = pre ++ strings.TrimLeftSpace fuel s.
Proof.
  induction fuel as [|fuel IH]; intros s; [now exists EmptyString|].
  destruct s as [|c s]; [now exists EmptyString|].
  cbn [strings.TrimLeftSpace].
  destruct (utf8.DecodeRuneInString (String c s)) as [r n].
  destruct (strings.IsSpace r); [|now exists EmptyString].
  destruct (IH (drop n (String c s))) as [pre Hpre].
  exists (take n (String c s) ++ pre).
  rewrite append_assoc, <- Hpre. symmetry. apply take_drop.
Qed.

Lemma take_prefix (n : nat) (s : string) : exists post, s = take n s ++ post.
Proof. exists (drop n s). symmetry. apply take_drop. Qed.

Lemma TrimRightSpace_prefix (s : string) :
  exists post, s = strings.TrimRightSpace s ++ post.
Proof.
  unfold strings.TrimRightSpace.
  destruct (strings.lastIndexNotSpace _ s _) as [i|]; [|now exists s].
  destruct (String.get i s) as [c|]; [|apply take_prefix].
  destruct (utf8.RuneSelf <=? byte_val c); apply take_prefix.
Qed.

Lemma trimStop_prefix (stop : nat) (s : string) :
  exists post, s = strings.trimStop stop s ++ post.
Proof.
  induction stop as [|stop IH]; [now exists s|].
  cbn [strings.trimStop].
  destruct (String.get stop s) as [c|]; [|now exists s].
  destruct (utf8.RuneSelf <=? byte_val c).
  - destruct (TrimRightSpace_prefix (take (S stop) s)) as [post Hpost].
    exists (post ++ drop (S stop) s).
    rewrite <- append_assoc, <- Hpost. symmetry. apply take_drop.
  - destruct (strings.asciiSpace c); [exact IH | apply take_prefix].
Qed.

Lemma TrimSpace_part (s : string) :
  exists pre post, s = pre ++ strings.TrimSpace s ++ post.
Proof.
  induction s as [|c s IH]; [now exists EmptyString, EmptyString|].
  cbn [strings.TrimSpace].
  destruct (utf8.RuneSelf <=? byte_val c).
  - destruct (TrimLeftSpace_suffix (String.length (String c s)) (String c s)) as [pre Hpre].
    destruct (TrimRightSpace_prefix
                (strings.TrimLeftSpace (String.length (String c s)) (String c s)))
      as [post Hpost].
    exists pre, post. now rewrite <- Hpost.
  - destruct (strings.asciiSpace c).
    + destruct IH as (pre & post & H). exists (String c pre), post.
      cbn [append]. now rewrite <- H.
    + destruct (trimStop_prefix (String.length (String c s)) (String c s)) as [post Hpost].
      now exists EmptyString, post.
Qed.

Lemma get_last (s : string) (c : ascii) :
  String.get (String.length s) (s ++ str1 c) = Some c.
Proof. induction s as [|x s IH]; [reflexivity | exact IH]. Qed.

Lemma take_all (s : string) : take (String.length s) s = s.
Proof. induction s as [|x s IH]; [reflexivity | cbn; now rewrite IH]. Qed.

(** X13: [strings.TrimSpace] as the program uses it.  What it returns
    is a part of its argument, bytes in place; an argument of ASCII
    white space only gives the empty string; and an argument that begins
    and ends with ASCII bytes that are no white space is returned as it
    is. *)
Theorem X13_TrimSpace (s : string) :
  (exists pre post, s = pre ++ strings.TrimSpace s ++ post)
  /\ (allSpaces s = true -> strings.TrimSpace s = EmptyString)
  /\ (forall a b mid,
        s = String a (mid ++ str1 b) \/ (s = str1 a /\ b = a) ->
        byte_val a < 0x80 -> strings.asciiSpace a = false ->
        byte_val b < 0x80 -> strings.asciiSpace b = false ->
        strings.TrimSpace s = s).
Proof.
  split; [apply TrimSpace_part|]. split; [apply TrimSpace_spaces|].
  intros a b mid Hs Ha Hna Hb Hnb.
  assert (Ea : (utf8.RuneSelf <=? byte_val a) = false)
    by (apply N.leb_gt; unfold utf8.RuneSelf; lia).
  assert (Eb : (utf8.RuneSelf <=? byte_val b) = false)
    by (apply N.leb_gt; unfold utf8.RuneSelf; lia).
  destruct Hs as [-> | [-> ->]].
  - cbn [strings.TrimSpace]. rewrite Ea, Hna.
    change (String a (mid ++ str1 b)) with (String a mid ++ str1 b).
    assert (Hlen : String.length (String a mid ++ str1 b) = S (String.length (String a mid)))
      by (rewrite length_append; cbn; lia).
    rewrite Hlen. cbn [strings.trimStop]. rewrite get_last, Eb, Hnb.
    rewrite <- Hlen. apply take_all.
  - cbn [strings.TrimSpace str1 String.length strings.trimStop String.get].
    now rewrite Ea, Hna.
Qed.

(** ** The configuration *)

(** The start of [main] in one piece. *)
Lemma mainConfig_eq (env : Env) :
  mainConfig env
  = let orElse (name def : string) :=
      if (strings.TrimSpace (env name) =? "")%string then def
      else strings.TrimSpace (env name) in
    if (strings.TrimSpace (env "GITHUB_TOKEN") =? "")%string
    then inr "GITHUB_TOKEN is required"
    else if (strings.TrimSpace (env "GITHUB_REPO") =? "")%string
    then inr "GITHUB_REPO is required (e.g. owner/repo)"
    else if (strings.TrimSpace (env "GITHUB_FILE_PATH") =? "")%string
    then inr "GITHUB_FILE_PATH is required (e.g. data/submissions.json)"
    else inl (mkConfig (strings.TrimSpace (env "GITHUB_TOKEN"))
                       (strings.TrimSpace (env "GITHUB_REPO"))
                       (strings.TrimSpace (env "GITHUB_FILE_PATH"))
                       (orElse "GITHUB_BRANCH" "main") (orElse "PORT" "8080")
                       (orElse "CORS_ALLOW_ORIGIN" "*")).
Proof.
  unfold mainConfig, validateServerConfig, loadConfigFromEnv. cbn zeta.
  generalize (strings.TrimSpace (env "GITHUB_TOKEN")) (strings.TrimSpace (env "GITHUB_REPO"))
    (strings.TrimSpace (env "GITHUB_FILE_PATH")) (strings.TrimSpace (env "GITHUB_BRANCH"))
    (strings.TrimSpace (env "PORT")) (strings.TrimSpace (env "CORS_ALLOW_ORIGIN")).
  intros t rp p b port o.
  cbn [githubToken githubRepo githubFilePath githubBranch serverPort allowOrigin].
  destruct (port =? "")%string;
    cbn [githubToken githubRepo githubFilePath githubBranch serverPort allowOrigin];
    destruct (o =? "")%string;
    cbn [githubToken githubRepo githubFilePath githubBranch serverPort allowOrigin];
    destruct (t =? "")%string; try reflexivity;
    destruct (rp =? "")%string; try reflexivity;
    destruct (p =? "")%string; try reflexivity;
    destruct (b =? "")%string; reflexivity.
Qed.

(** X14: the configuration the server runs with.  When [main] gets to
    start the server, the token, the repository and the file path are
    the trimmed values of their variables and are not empty; the branch,
    the port and the allowed origin are the trimmed values of theirs, or
    [main], [8080] and [*] when those are empty: no field is empty. *)
Theorem X14_running_config (env : Env) (cfg : Config) :
  mainConfig env = inl cfg ->
  let orElse (name def : string) :=
    if (strings.TrimSpace (env name) =? "")%string then def
    else strings.TrimSpace (env name) in
  cfg = mkConfig (strings.TrimSpace (env "GITHUB_TOKEN"))
                 (strings.TrimSpace (env "GITHUB_REPO"))
                 (strings.TrimSpace (env "GITHUB_FILE_PATH"))
                 (orElse "GITHUB_BRANCH" "main") (orElse "PORT" "8080")
                 (orElse "CORS_ALLOW_ORIGIN" "*")
  /\ githubToken cfg <> EmptyString /\ githubRepo cfg <> EmptyString
  /\ githubFilePath cfg <> EmptyString /\ githubBranch cfg <> EmptyString
  /\ serverPort cfg <> EmptyString /\ allowOrigin cfg <> EmptyString.
Proof.
  rewrite mainConfig_eq. cbn zeta.
  destruct (String.eqb_spec (strings.TrimSpace (env "GITHUB_TOKEN")) "") as [|Ht];
    [discriminate|].
  destruct (String.eqb_spec (strings.TrimSpace (env "GITHUB_REPO")) "") as [|Hr];
    [discriminate|].
  destruct (String.eqb_spec (strings.TrimSpace (env "GITHUB_FILE_PATH")) "") as [|Hp];
    [discriminate|].
  intros H. injection H as <-.
  cbn [githubToken githubRepo githubFilePath githubBranch serverPort allowOrigin].
  split; [reflexivity|]. split; [assumption|]. split; [assumption|].
  split; [assumption|].
  destruct (String.eqb_spec (strings.TrimSpace (env "PORT")) "");
    destruct (String.eqb_spec (strings.TrimSpace (env "CORS_ALLOW_ORIGIN")) "");
    destruct (String.eqb_spec (strings.TrimSpace (env "GITHUB_BRANCH")) "");
    repeat split; try assumption; discriminate.
Qed.

Lemma X14_witness :
  let env := fun name : string =>
    if (name =? "GITHUB_TOKEN")%string then " ghp_x "
    else if (name =? "GITHUB_REPO")%string then "owner/repo"
    else if (name =? "GITHUB_FILE_PATH")%string then "data/submissions.json"
    else EmptyString in
  let cfg := mkConfig "ghp_x" "owner/repo" "data/submissions.json" "main" "8080" "*" in
  mainConfig env = inl cfg
  /\ cfg = mkConfig (strings.TrimSpace (env "GITHUB_TOKEN"))
                 (strings.TrimSpace (env "GITHUB_REPO"))
                 (strings.TrimSpace (env "GITHUB_FILE_PATH"))
                 (if (strings.TrimSpace (env "GITHUB_BRANCH") =? "")%string then "main"
                  else strings.TrimSpace (env "GITHUB_BRANCH"))
                 (if (strings.TrimSpace (env "PORT") =? "")%string then "8080"
                  else strings.TrimSpace (env "PORT"))
                 (if (strings.TrimSpace (env "CORS_ALLOW_ORIGIN") =? "")%string then "*"
                  else strings.TrimSpace (env "CORS_ALLOW_ORIGIN"))
  /\ githubToken cfg <> EmptyString /\ githubRepo cfg <> EmptyString
  /\ githubFilePath cfg <> EmptyString /\ githubBranch cfg <> EmptyString
  /\ serverPort cfg <> EmptyString /\ allowOrigin cfg <> EmptyString.
Proof.
  split; [reflexivity|].
  exact (X14_running_config
           (fun name : string =>
              if (name =? "GITHUB_TOKEN")%string then " ghp_x "
              else if (name =? "GITHUB_REPO")%string then "owner/repo"
              else if (name =? "GITHUB_FILE_PATH")%string then "data/submissions.json"
              else EmptyString)
           (mkConfig "ghp_x" "owner/repo" "data/submissions.json" "main" "8080" "*")
           eq_refl).
Defined.

(** X15: when [main] refuses to start.  The configuration is refused
    exactly when the token, the repository or the file path is empty
    once trimmed, with the message of the first of them that is; a
    variable that is not set, or set to ASCII white space only, counts
    as empty. *)
Theorem X15_refused_config (env : Env) :
  let token := strings.TrimSpace (env "GITHUB_TOKEN") in
  let repo := strings.TrimSpace (env "GITHUB_REPO") in
  let path := strings.TrimSpace (env "GITHUB_FILE_PATH") in
  ((exists msg, mainConfig env = inr msg)
   <-> token = EmptyString \/ repo = EmptyString \/ path = EmptyString)
  /\ (token = EmptyString -> mainConfig env = inr "GITHUB_TOKEN is required")
  /\ (token <> EmptyString -> repo = EmptyString ->
      mainConfig env = inr "GITHUB_REPO is required (e.g. owner/repo)")
  /\ (token <> EmptyString -> repo <> EmptyString -> path = EmptyString ->
      mainConfig env
      = inr "GITHUB_FILE_PATH is required (e.g. data/submissions.json)")
  /\ (allSpaces (env "GITHUB_TOKEN") = true -> token = EmptyString)
  /\ (allSpaces (env "GITHUB_REPO") = true -> repo = EmptyString)
  /\ (allSpaces (env "GITHUB_FILE_PATH") = true -> path = EmptyString).
Proof.
  cbn zeta. rewrite mainConfig_eq. cbn zeta.
  destruct (String.eqb_spec (strings.TrimSpace (env "GITHUB_TOKEN")) "") as [Ht|Ht];
    [|destruct (String.eqb_spec (strings.TrimSpace (env "GITHUB_REPO")) "") as [Hr|Hr];
      [|destruct (String.eqb_spec (strings.TrimSpace (env "GITHUB_FILE_PATH")) "")
          as [Hp|Hp]]].
  all: split;
    [split; [intros [msg Hmsg]; try discriminate Hmsg; auto
            |intros [H|[H|H]]; try contradiction; eexists; reflexivity]|].
  all: repeat split; intros; try contradiction; try reflexivity;
    try (apply TrimSpace_spaces; assumption).
Qed.

(** ** The codec, on any input *)

(** X16: the encoding of any ledger decodes.  Whatever the strings of
    the records, valid UTF-8 or not, what [json.MarshalIndent] writes
    is read back by [json.Unmarshal] without error as the same records
    with each byte that begins no valid encoding replaced by U+FFFD;
    what is read back is valid, and is the input itself when the input
    is valid. *)
Theorem X16_encode_decode_any (arr : list Submission) :
  Unmarshal (MarshalIndent arr) = Some (map coerceSubmission arr)
  /\ validLedger (map coerceSubmission arr) = true
  /\ List.length (map coerceSubmission arr) = List.length arr
  /\ (validLedger arr = true -> map coerceSubmission arr = arr).
Proof.
  split; [apply Unmarshal_MarshalIndent_coerce|].
  split; [apply (Unmarshal_valid (MarshalIndent arr)), Unmarshal_MarshalIndent_coerce|].
  split; [apply length_map | apply coerceLedger_valid].
Qed.

(** X17: what is read from the file survives the rewrite.  Whatever the
    file holds, the records that [json.Unmarshal] returns have valid
    UTF-8 strings, and writing them and reading them again gives the
    same records. *)
Theorem X17_decoded_is_stable (content : string) (arr : list Submission) :
  Unmarshal content = Some arr ->
  validLedger arr = true /\ Unmarshal (MarshalIndent arr) = Some arr.
Proof.
  intros H. pose proof (Unmarshal_valid _ _ H) as Hv.
  split; [assumption | now apply Unmarshal_MarshalIndent].
Qed.

Lemma X17_witness :
  Unmarshal (MarshalIndent [bob]) = Some [bob]
  /\ validLedger [bob] = true /\ Unmarshal (MarshalIndent [bob]) = Some [bob].
Proof.
  split; [reflexivity|].
  exact (X17_decoded_is_stable (MarshalIndent [bob]) [bob] eq_refl).
Defined.

Lemma storeMember_unknown (x : Submission) (key : string) (v : json.value) :
  submissionField key = false -> storeMember x (key, v) = Some x.
Proof.
  unfold submissionField, storeMember. intros H.
  destruct (json.foldName key =? "NAME")%string; [discriminate|].
  destruct (json.foldName key =? "PHONE")%string; [discriminate|].
  destruct (json.foldName key =? "LINKEDIN")%string; [discriminate|].
  destruct (json.foldName key =? "TIMESTAMP")%string; [discriminate|].
  reflexivity.
Qed.

Lemma storeMembers_unknown (ms1 ms2 : list (string * json.value)) (key : string)
    (v : json.value) :
  submissionField key = false ->
  forall x, storeMembers x (ms1 ++ (key, v) :: ms2) = storeMembers x (ms1 ++ ms2).
Proof.
  intros Hk. induction ms1 as [|m ms1 IH]; intros x; cbn [app storeMembers].
  - now rewrite storeMember_unknown.
  - destruct (storeMember x m); [apply IH | reflexivity].
Qed.

(** X18: members that name no field are dropped.  Reading the file
    skips every member of a record whose name is none of [name],
    [phone], [linkedin] and [timestamp] (letter case set aside),
    whatever its value: the record decoded is the one decoded without
    the member, so the member is not in the file that is written
    back. *)
Theorem X18_unknown_members_dropped (ms1 ms2 : list (string * json.value))
    (key : string) (v : json.value) (before after : list json.value) :
  submissionField key = false ->
  decodeSubmission (json.Object (ms1 ++ (key, v) :: ms2))
  = decodeSubmission (json.Object (ms1 ++ ms2))
  /\ decodeSubmissions (before ++ json.Object (ms1 ++ (key, v) :: ms2) :: after)
     = decodeSubmissions (before ++ json.Object (ms1 ++ ms2) :: after).
Proof.
  intros Hk.
  assert (H : decodeSubmission (json.Object (ms1 ++ (key, v) :: ms2))
              = decodeSubmission (json.Object (ms1 ++ ms2)))
    by (apply storeMembers_unknown, Hk).
  split; [exact H|].
  induction before as [|b before IH]; cbn [app decodeSubmissions].
  - now rewrite H.
  - now rewrite IH.
Qed.

Lemma X18_witness :
  submissionField "email" = false
  /\ decodeSubmission (json.Object ([("name", json.Str "Bob")]
                                    ++ ("email", json.Number) :: [("phone", json.Str "1")]))
     = decodeSubmission (json.Object ([("name", json.Str "Bob")] ++ [("phone", json.Str "1")]))
  /\ decodeSubmissions ([] ++ json.Object ([("name", json.Str "Bob")]
                                    ++ ("email", json.Number) :: [("phone", json.Str "1")])
                           :: [])
     = decodeSubmissions ([] ++ json.Object ([("name", json.Str "Bob")]
                                             ++ [("phone", json.Str "1")]) :: []).
Proof.
  split; [reflexivity|].
  exact (X18_unknown_members_dropped [("name", json.Str "Bob")] [("phone", json.Str "1")]
           "email" json.Number [] [] eq_refl).
Defined.


(** ** What the encoder writes *)

Lemma allBytes_append (p : ascii -> bool) (a b : string) :
  allBytes p (a ++ b) = allBytes p a && allBytes p b.
Proof.
  induction a as [|c a IH]; [reflexivity|].
  cbn [append allBytes]. now rewrite IH, andb_assoc.
Qed.

Lemma escapeByte_text (b : ascii) : allBytes textByte (json.escapeByte b) = true.
Proof. each_byte b; vm_compute; reflexivity. Qed.

Lemma htmlSafe_text (b : ascii) : json.htmlSafeSet b = true -> textByte b = true.
Proof. each_byte b; vm_compute; intros H; try discriminate H; reflexivity. Qed.

Lemma high_plain (c : ascii) : (0x80 <=? byte_val c) = true -> plainByte c = true.
Proof. each_byte c; vm_compute; intros H; try discriminate H; reflexivity. Qed.

Lemma textByte_plain (s : string) : allBytes textByte s = true -> allBytes plainByte s = true.
Proof.
  induction s as [|c s IH]; [reflexivity|]. cbn [allBytes]. unfold textByte at 1.
  intros H. apply andb_prop in H. destruct H as [H Hs].
  apply andb_prop in H. destruct H as [-> _]. now apply IH.
Qed.

Lemma textByte_wf (s : string) : allBytes textByte s = true -> wf s.
Proof.
  induction s as [|c s IH]; [constructor|]. cbn [allBytes]. unfold textByte at 1.
  intros H. apply andb_prop in H. destruct H as [H Hs].
  apply andb_prop in H. destruct H as [_ H]. apply N.ltb_lt in H.
  apply wf_ascii; [assumption | now apply IH].
Qed.

Lemma wf_append (a b : string) : wf a -> wf b -> wf (a ++ b).
Proof.
  intros Ha Hb. induction Ha as [|c s Hc Hs IH|chunk r s Hchunk Hs IH].
  - exact Hb.
  - cbn [append]. now apply wf_ascii.
  - rewrite append_assoc. now apply (wf_chunk chunk r).
Qed.

Lemma chunk_plain (chunk : string) (r : N) :
  rune_chunk chunk r -> allBytes plainByte chunk = true.
Proof.
  destruct 1; cbn [allBytes str1];
    repeat match goal with
    | |- context [plainByte ?c] =>
        rewrite (high_plain c) by (apply N.leb_le; try destruct (_ =? _); lia)
    end; reflexivity.
Qed.

(** The text of a string literal, between the quotes. *)
Lemma appendStringLoop_written (n : nat) :
  forall s, allBytes plainByte (json.appendStringLoop n s) = true
            /\ wf (json.appendStringLoop n s).
Proof.
  induction n as [|n IH]; intros s; [split; [reflexivity | constructor]|].
  destruct s as [|b rest]; [split; [reflexivity | constructor]|].
  cbn [json.appendStringLoop]. unfold utf8.RuneSelf.
  assert (Hesc : forall e, allBytes textByte e = true -> forall t,
            allBytes plainByte (e ++ json.appendStringLoop n t) = true
            /\ wf (e ++ json.appendStringLoop n t)).
  { intros e He t. destruct (IH t) as [Hp Hw]. split.
    - now rewrite allBytes_append, (textByte_plain e He), Hp.
    - apply wf_append; [now apply textByte_wf | assumption]. }
  destruct (byte_val b <? 128) eqn:Hascii.
  - destruct (json.htmlSafeSet b) eqn:Hsafe.
    + apply Hesc. cbn [str1 allBytes]. now rewrite (htmlSafe_text b Hsafe).
    + apply Hesc, escapeByte_text.
  - apply N.ltb_ge in Hascii. rewrite decode_take4.
    destruct (decode_spec b rest Hascii) as [Hbad | (chunk & rest' & r & Hs & Hchunk & Hdec)].
    + rewrite Hbad. change (utf8.RuneError =? utf8.RuneError) with true.
      cbn [Nat.eqb andb]. now apply Hesc.
    + pose proof (chunk_length _ _ Hchunk) as Hlen.
      rewrite Hdec, Hs, drop_append, take_append.
      assert (Hsz : (String.length chunk =? 1)%nat = false) by (apply Nat.eqb_neq; lia).
      rewrite Hsz, andb_false_r.
      destruct ((r =? 8232) || (r =? 8233)) eqn:Hsep.
      * apply Hesc.
        apply orb_prop in Hsep. destruct Hsep as [H|H]; apply N.eqb_eq in H; subst r;
          reflexivity.
      * destruct (IH rest') as [Hp Hw]. split.
        -- now rewrite allBytes_append, (chunk_plain _ _ Hchunk), Hp.
        -- now apply (wf_chunk chunk r).
Qed.

Lemma appendString_written (s : string) :
  allBytes plainByte (json.appendString s) = true /\ wf (json.appendString s).
Proof.
  unfold json.appendString.
  destruct (appendStringLoop_written (String.length s) s) as [Hp Hw]. split.
  - cbn [allBytes]. rewrite allBytes_append, Hp. reflexivity.
  - apply wf_ascii; [vm_compute; reflexivity|].
    apply wf_append; [assumption|]. apply textByte_wf. reflexivity.
Qed.

Ltac written :=
  repeat match goal with
  | |- _ /\ _ => split
  | |- allBytes plainByte (_ ++ _) = true => rewrite allBytes_append; apply andb_true_intro
  | |- wf (_ ++ _) => apply wf_append
  | |- allBytes plainByte (json.appendString _) = true => apply appendString_written
  | |- wf (json.appendString _) => apply appendString_written
  | |- allBytes plainByte _ = true => reflexivity
  | |- wf _ => apply textByte_wf; reflexivity
  end.





(** ** Valid text, trimmed *)

Lemma valid_from_wf (v : nat) :
  forall s, (String.length s <= v)%nat -> utf8.valid_from v s = true -> wf s.
Proof.
  induction v as [|v IH]; intros s Hv H.
  - destruct s; [constructor | simpl in Hv; lia].
  - destruct s as [|b rest]; [constructor|].
    cbn [utf8.valid_from] in H. cbn [String.length] in Hv.
    destruct (byte_val b <? 0x80) eqn:E.
    + rewrite decode_ascii in H by assumption.
      apply N.ltb_lt in E.
      assert (Hne : (byte_val b =? utf8.RuneError) = false)
        by (apply N.eqb_neq; unfold utf8.RuneError; lia).
      rewrite Hne in H. cbn [andb drop] in H.
      apply wf_ascii; [assumption | apply IH; [lia | assumption]].
    + apply N.ltb_ge in E.
      destruct (decode_spec b rest E) as [Hbad | (chunk & rest' & r & Hs & Hchunk & Hdec)].
      { rewrite Hbad in H. discriminate. }
      pose proof (chunk_length _ _ Hchunk) as Hlen.
      assert (Hl : S (String.length rest) = (String.length chunk + String.length rest')%nat)
        by (change (S (String.length rest)) with (String.length (String b rest));
            rewrite Hs; apply length_append).
      rewrite Hdec, Hs, drop_append in H.
      assert (Hsz : (String.length chunk =? 1)%nat = false) by (apply Nat.eqb_neq; lia).
      rewrite Hsz, andb_false_r in H.
      rewrite Hs. apply (wf_chunk chunk r); [assumption|].
      apply IH; [lia | assumption].
Qed.

Lemma ValidString_wf (s : string) : utf8.ValidString s = true -> wf s.
Proof. apply valid_from_wf. lia. Qed.

(** The first rune of well-formed text. *)
Lemma wf_first (b : ascii) (rest : string) :
  wf (String b rest) ->
  (byte_val b < 0x80 /\ wf rest
   /\ utf8.DecodeRuneInString (String b rest) = (byte_val b, 1%nat))
  \/ exists chunk r rest',
       String b rest = chunk ++ rest' /\ rune_chunk chunk r /\ wf rest'
       /\ utf8.DecodeRuneInString (String b rest) = (r, String.length chunk).
Proof.
  intros H. apply wf_ValidString in H. unfold utf8.ValidString in H.
  cbn [String.length utf8.valid_from] in H.
  destruct (byte_val b <? 0x80) eqn:E.
  - left. rewrite decode_ascii in H |- * by assumption.
    apply N.ltb_lt in E.
    assert (Hne : (byte_val b =? utf8.RuneError) = false)
      by (apply N.eqb_neq; unfold utf8.RuneError; lia).
    rewrite Hne in H. cbn [andb drop] in H.
    split; [assumption|]. split; [|reflexivity].
    apply (valid_from_wf (String.length rest)); [lia | assumption].
  - right. apply N.ltb_ge in E.
    destruct (decode_spec b rest E) as [Hbad | (chunk & rest' & r & Hs & Hchunk & Hdec)].
    { rewrite Hbad in H. discriminate. }
    pose proof (chunk_length _ _ Hchunk) as Hlen.
    assert (Hl : S (String.length rest) = (String.length chunk + String.length rest')%nat)
      by (change (S (String.length rest)) with (String.length (String b rest));
          rewrite Hs; apply length_append).
    rewrite Hdec, Hs, drop_append in H.
    assert (Hsz : (String.length chunk =? 1)%nat = false) by (apply Nat.eqb_neq; lia).
    rewrite Hsz, andb_false_r in H.
    exists chunk, r, rest'. split; [assumption|]. split; [assumption|].
    split; [|assumption].
    apply (valid_from_wf (String.length rest)); [lia | assumption].
Qed.

Lemma chunk_first (chunk : string) (r : N) :
  rune_chunk chunk r ->
  exists c t, chunk = String c t /\ 0xC2 <= byte_val c.
Proof. destruct 1; eexists; eexists; (split; [reflexivity | lia]). Qed.

(** The last rune of well-formed text. *)
Lemma wf_last (t : string) :
  wf t -> t <> EmptyString ->
  exists t' last,
    t = t' ++ last /\ wf t'
    /\ ((exists c, last = str1 c /\ byte_val c < 0x80) \/ exists r, rune_chunk last r).
Proof.
  induction 1 as [|c s Hc Hs IH|chunk r s Hchunk Hs IH]; intros Hne; [congruence|..].
  - destruct s as [|x s'].
    + exists EmptyString, (str1 c). split; [reflexivity|]. split; [constructor|].
      left. now exists c.
    + destruct IH as (t' & last & E & Hw & Hl); [discriminate|].
      exists (String c t'), last. split; [cbn [append]; now rewrite <- E|].
      split; [now apply wf_ascii | assumption].
  - destruct s as [|x s'].
    + exists EmptyString, chunk. rewrite append_nil_r. split; [reflexivity|].
      split; [constructor|]. right. now exists r.
    + destruct IH as (t' & last & E & Hw & Hl); [discriminate|].
      exists (chunk ++ t'), last. split; [now rewrite append_assoc, <- E|].
      split; [now apply (wf_chunk chunk r) | assumption].
Qed.

Lemma get_append (a b : string) (k : nat) :
  String.get (String.length a + k) (a ++ b) = String.get k b.
Proof. induction a as [|x a IH]; [reflexivity | exact IH]. Qed.

Lemma RuneStart_cont (c : ascii) :
  (0x80 <=? byte_val c) && (byte_val c <=? 0xBF) = true ->
  utf8.RuneStart (byte_val c) = false.
Proof. each_byte c; vm_compute; intros H; try discriminate H; reflexivity. Qed.

Lemma RuneStart_lead (c : ascii) :
  (0xC0 <=? byte_val c) = true -> utf8.RuneStart (byte_val c) = true.
Proof. each_byte c; vm_compute; intros H; try discriminate H; reflexivity. Qed.

Lemma DecodeLast_ascii (t : string) (c : ascii) :
  byte_val c < 0x80 ->
  utf8.DecodeLastRuneInString (t ++ str1 c) = (byte_val c, 1%nat).
Proof.
  intros Hc. unfold utf8.DecodeLastRuneInString.
  rewrite length_append. cbn [String.length str1].
  replace (String.length t + 1)%nat with (S (String.length t)) by lia.
  rewrite get_last.
  assert (E : (byte_val c <? utf8.RuneSelf) = true) by (now apply N.ltb_lt).
  now rewrite E.
Qed.

Lemma lastStart_spec (s : string) (lim : Z) (j : nat) :
  forall (f : nat) (st : Z),
    (j < f)%nat -> (lim <= st - Z.of_nat j)%Z -> (0 <= st - Z.of_nat j)%Z ->
    (forall i, (i < j)%nat ->
       exists c, String.get (Z.to_nat (st - Z.of_nat i)) s = Some c
                 /\ utf8.RuneStart (byte_val c) = false) ->
    (exists c, String.get (Z.to_nat (st - Z.of_nat j)) s = Some c
               /\ utf8.RuneStart (byte_val c) = true) ->
    utf8.lastStart f s st lim = (st - Z.of_nat j)%Z.
Proof.
  induction j as [|j IH]; intros f st Hf Hlim H0 Hcont Hlead.
  - destruct f as [|f]; [lia|]. cbn [utf8.lastStart].
    assert (E : (st <? lim)%Z = false) by (apply Z.ltb_ge; lia).
    rewrite E. destruct Hlead as (c & Hg & Hr).
    replace (st - Z.of_nat 0)%Z with st in * by lia.
    now rewrite Hg, Hr.
  - destruct f as [|f]; [lia|]. cbn [utf8.lastStart].
    assert (E : (st <? lim)%Z = false) by (apply Z.ltb_ge; lia).
    rewrite E. destruct (Hcont 0%nat) as (c & Hg & Hr); [lia|].
    replace (st - Z.of_nat 0)%Z with st in * by lia.
    rewrite Hg, Hr.
    rewrite (IH f (st - 1)%Z); [lia | lia | lia | lia | |].
    + intros i Hi. destruct (Hcont (S i)) as (c' & Hg' & Hr'); [lia|].
      exists c'. split; [|assumption].
      now replace (st - 1 - Z.of_nat i)%Z with (st - Z.of_nat (S i))%Z by lia.
    + destruct Hlead as (c' & Hg' & Hr'). exists c'. split; [|assumption].
      now replace (st - 1 - Z.of_nat j)%Z with (st - Z.of_nat (S j))%Z by lia.
Qed.

Lemma chunk_bytes (chunk : string) (r : N) :
  rune_chunk chunk r ->
  (exists c, String.get 0 chunk = Some c /\ utf8.RuneStart (byte_val c) = true)
  /\ (forall i, (0 < i < String.length chunk)%nat ->
        exists c, String.get i chunk = Some c
                  /\ utf8.RuneStart (byte_val c) = false
                  /\ 0x80 <= byte_val c).
Proof.
  assert (Hlead : forall c, 0xC2 <= byte_val c -> utf8.RuneStart (byte_val c) = true)
    by (intros c H; apply RuneStart_lead, N.leb_le; lia).
  assert (Hcont : forall c, 0x80 <= byte_val c <= 0xBF ->
                            utf8.RuneStart (byte_val c) = false)
    by (intros c H; apply RuneStart_cont, andb_true_intro; split; apply N.leb_le; lia).
  destruct 1 as [c0 c1 H0 H1|c0 c1 c2 H0 H1 H2|c0 c1 c2 c3 H0 H1 H2 H3];
    (split; [exists c0; split; [reflexivity | apply Hlead; lia]|]);
    intros i Hi; cbn [String.length str1] in Hi.
  - assert (i = 1)%nat as -> by lia. exists c1. split; [reflexivity|].
    split; [apply Hcont|]; lia.
  - assert (H1' : 0x80 <= byte_val c1 <= 0xBF)
      by (destruct (byte_val c0 =? 224), (byte_val c0 =? 237); lia).
    assert (i = 1 \/ i = 2)%nat as [-> | ->] by lia;
      eexists; (split; [reflexivity|]); (split; [apply Hcont|]); lia.
  - assert (H1' : 0x80 <= byte_val c1 <= 0xBF)
      by (destruct (byte_val c0 =? 240), (byte_val c0 =? 244); lia).
    assert (i = 1 \/ i = 2 \/ i = 3)%nat as [-> | [-> | ->]] by lia;
      eexists; (split; [reflexivity|]); (split; [apply Hcont|]); lia.
Qed.

Lemma DecodeLast_chunk (t chunk : string) (r : N) :
  rune_chunk chunk r ->
  utf8.DecodeLastRuneInString (t ++ chunk) = (r, String.length chunk).
Proof.
  intros Hchunk.
  pose proof (chunk_length _ _ Hchunk) as Hlen.
  destruct (chunk_bytes _ _ Hchunk) as [Hlead Hcont].
  pose proof (chunk_decode _ _ EmptyString Hchunk) as Hdec.
  rewrite append_nil_r in Hdec.
  pose proof (drop_append t chunk) as Hdrop.
  assert (Hget : forall k, String.get (String.length t + k) (t ++ chunk) = String.get k chunk)
    by (intros k; apply get_append).
  unfold utf8.DecodeLastRuneInString. rewrite length_append.
  generalize dependent (t ++ chunk). generalize dependent (String.length t).
  generalize dependent (String.length chunk).
  intros m Hlen Hcont Hdec n s Hdrop Hget.
  replace (n + m)%nat with (S (n + (m - 1))) by lia.
  rewrite Hget.
  destruct (Hcont (m - 1)%nat) as (cl & Hgl & _ & Hhigh); [lia|].
  rewrite Hgl.
  assert (E : (byte_val cl <? utf8.RuneSelf) = false)
    by (apply N.ltb_ge; unfold utf8.RuneSelf; lia).
  rewrite E.
  rewrite (lastStart_spec _ _ (m - 2)); try lia.
  - replace (Z.to_nat (Z.max 0 (Z.of_nat (n + (m - 1)) - 1 - Z.of_nat (m - 2)))) with n by lia.
    rewrite Hdrop, Hdec.
    assert (E' : (n + m =? S (n + (m - 1)))%nat = true) by (apply Nat.eqb_eq; lia).
    now rewrite E'.
  - intros i Hi.
    destruct (Hcont (m - 2 - i)%nat) as (c & Hg & Hr & _); [lia|].
    exists c. split; [|assumption].
    replace (Z.to_nat (Z.of_nat (n + (m - 1)) - 1 - Z.of_nat i)) with (n + (m - 2 - i))%nat
      by lia.
    now rewrite Hget.
  - destruct Hlead as (c & Hg & Hr). exists c. split; [|assumption].
    replace (Z.to_nat (Z.of_nat (n + (m - 1)) - 1 - Z.of_nat (m - 2))) with (n + 0)%nat
      by lia.
    now rewrite Hget.
Qed.

(** The last rune of well-formed text, as [DecodeLastRuneInString]
    finds it. *)
Lemma wf_DecodeLast (t : string) :
  wf t -> t <> EmptyString ->
  exists t' last,
    t = t' ++ last /\ wf t' /\ wf last /\ last <> EmptyString
    /\ snd (utf8.DecodeLastRuneInString t) = String.length last
    /\ forall rest, utf8.DecodeRuneInString (last ++ rest)
                    = (fst (utf8.DecodeLastRuneInString t), String.length last).
Proof.
  intros Hw Hne. destruct (wf_last t Hw Hne) as (t' & last & -> & Hw' & Hl).
  exists t', last. split; [reflexivity|]. split; [assumption|].
  destruct Hl as [(c & -> & Hc) | (r & Hchunk)].
  - rewrite DecodeLast_ascii by assumption. cbn [fst snd String.length str1].
    split; [apply wf_ascii; [assumption | constructor]|].
    split; [discriminate|]. split; [reflexivity|].
    intros rest. cbn [append]. apply decode_ascii. now apply N.ltb_lt.
  - rewrite (DecodeLast_chunk _ _ _ Hchunk). cbn [fst snd].
    split; [rewrite <- (append_nil_r last); apply (wf_chunk last r); [assumption|constructor]|].
    split; [pose proof (chunk_length _ _ Hchunk); destruct last; [simpl in *; lia|discriminate]|].
    split; [reflexivity|].
    intros rest. now apply chunk_decode.
Qed.

Lemma rune_decode (u : string) (r : N) (rest : string) :
  rune u r -> utf8.DecodeRuneInString (u ++ rest) = (r, String.length u).
Proof.
  destruct 1 as [c Hc|chunk r Hchunk].
  - cbn [append str1 String.length]. apply decode_ascii. now apply N.ltb_lt.
  - now apply chunk_decode.
Qed.

Lemma rune_DecodeLast (t u : string) (r : N) :
  rune u r -> utf8.DecodeLastRuneInString (t ++ u) = (r, String.length u).
Proof.
  destruct 1 as [c Hc|chunk r Hchunk].
  - now apply DecodeLast_ascii.
  - now apply DecodeLast_chunk.
Qed.

Lemma rune_length (u : string) (r : N) : rune u r -> (1 <= String.length u)%nat.
Proof.
  destruct 1 as [c Hc|chunk r Hchunk]; [cbn; lia|].
  pose proof (chunk_length _ _ Hchunk). lia.
Qed.

Lemma rune_wf (u : string) (r : N) (s : string) : rune u r -> wf s -> wf (u ++ s).
Proof.
  destruct 1 as [c Hc|chunk r Hchunk]; intros Hs.
  - now apply wf_ascii.
  - now apply (wf_chunk chunk r).
Qed.

Lemma rune_head (u : string) (r : N) :
  rune u r ->
  exists c t, u = String c t
              /\ ((byte_val c < 0x80 /\ t = EmptyString /\ r = byte_val c)
                  \/ 0xC2 <= byte_val c).
Proof.
  destruct 1 as [c Hc|chunk r Hchunk].
  - exists c, EmptyString. split; [reflexivity|]. left. auto.
  - destruct (chunk_first _ _ Hchunk) as (c & t & -> & H). exists c, t. auto.
Qed.

Lemma wf_head (s : string) :
  wf s -> s <> EmptyString ->
  exists u r rest, s = u ++ rest /\ rune u r /\ wf rest.
Proof.
  intros Hw Hne. destruct s as [|b rest]; [congruence|].
  destruct (wf_first b rest Hw) as [(Hb & Hrest & _) | (chunk & r & rest' & E & Hc & Hr & _)].
  - exists (str1 b), (byte_val b), rest. split; [reflexivity|].
    split; [now constructor | assumption].
  - exists chunk, r, rest'. split; [assumption|]. split; [now constructor | assumption].
Qed.

Lemma wf_tail (t : string) :
  wf t -> t <> EmptyString ->
  exists t' u r, t = t' ++ u /\ wf t' /\ rune u r.
Proof.
  intros Hw Hne. destruct (wf_last t Hw Hne) as (t' & last & E & Hw' & Hl).
  destruct Hl as [(c & -> & Hc) | (r & Hchunk)].
  - exists t', (str1 c), (byte_val c). split; [assumption|].
    split; [assumption | now constructor].
  - exists t', last, r. split; [assumption|]. split; [assumption | now constructor].
Qed.

Lemma spaceRunes_app (a b : string) : spaceRunes a -> spaceRunes b -> spaceRunes (a ++ b).
Proof.
  intros Ha Hb. induction Ha as [|u s r Hu Hr Hs IH]; [assumption|].
  rewrite append_assoc. now apply (spaces_cons u _ r).
Qed.

Lemma spaceRunes_one (u : string) (r : N) :
  rune u r -> strings.IsSpace r = true -> spaceRunes u.
Proof.
  intros Hu Hr. rewrite <- (append_nil_r u). apply (spaces_cons u _ r); auto. constructor.
Qed.

Lemma asciiSpace_IsSpace (c : ascii) :
  (byte_val c <? 0x80) = true -> strings.IsSpace (byte_val c) = strings.asciiSpace c.
Proof. each_byte c; vm_compute; intros H; try discriminate H; reflexivity. Qed.

(** The first rune of a well-formed prefix is that of the whole. *)
Lemma first_of_prefix (a b : string) :
  wf a -> a <> EmptyString ->
  fst (utf8.DecodeRuneInString (a ++ b)) = fst (utf8.DecodeRuneInString a).
Proof.
  intros Hw Hne. destruct (wf_head a Hw Hne) as (u & r & rest & -> & Hu & _).
  now rewrite append_assoc, !(rune_decode u r _ Hu).
Qed.

Lemma TrimLeftSpace_spec (fuel : nat) :
  forall s, wf s -> (String.length s <= fuel)%nat ->
    exists pre,
      s = pre ++ strings.TrimLeftSpace fuel s /\ spaceRunes pre
      /\ wf (strings.TrimLeftSpace fuel s)
      /\ (strings.TrimLeftSpace fuel s = EmptyString
          \/ strings.IsSpace (fst (utf8.DecodeRuneInString (strings.TrimLeftSpace fuel s)))
             = false).
Proof.
  induction fuel as [|fuel IH]; intros s Hs Hlen.
  - destruct s; [|simpl in Hlen; lia]. exists EmptyString.
    split; [reflexivity|]. split; [constructor|]. split; [constructor | now left].
  - destruct s as [|b rest].
    { exists EmptyString. split; [reflexivity|]. split; [constructor|].
      split; [constructor | now left]. }
    cbn [strings.TrimLeftSpace].
    destruct (wf_head (String b rest) Hs) as (u & r & rest' & E & Hu & Hr); [discriminate|].
    pose proof (rune_decode u r rest' Hu) as Hdec. rewrite <- E in Hdec.
    pose proof (rune_length u r Hu) as Hlu.
    assert (Hl : String.length (String b rest) = (String.length u + String.length rest')%nat)
      by (rewrite E; apply length_append).
    rewrite Hdec.
    destruct (strings.IsSpace r) eqn:Er.
    + rewrite E, drop_append.
      destruct (IH rest' Hr) as (pre & Epre & Hpre & Hw & Hend);
        [cbn [String.length] in *; lia|].
      exists (u ++ pre). rewrite append_assoc, <- Epre.
      split; [reflexivity|]. split; [now apply (spaces_cons u _ r)|].
      split; assumption.
    + exists EmptyString. split; [reflexivity|]. split; [constructor|].
      split; [assumption|]. right. now rewrite Hdec.
Qed.

Lemma length_take (i : nat) : forall s, (i <= String.length s)%nat -> String.length (take i s) = i.
Proof.
  induction i as [|i IH]; intros [|c s] H; cbn in *; try lia.
  now rewrite IH by lia.
Qed.

Lemma take_take (a b : nat) : forall s, (a <= b)%nat -> take a (take b s) = take a s.
Proof.
  revert b. induction a as [|a IH]; intros b s H; [now destruct (take b s), s|].
  destruct b as [|b]; [lia|]. destruct s as [|c s]; [reflexivity|].
  cbn [take]. now rewrite IH by lia.
Qed.

Lemma snoc_inj (a b : string) (x y : ascii) : a ++ str1 x = b ++ str1 y -> a = b /\ x = y.
Proof.
  revert b. induction a as [|c a IH]; intros [|d b] H; cbn in H.
  - injection H as ->. auto.
  - injection H as -> H. destruct b; discriminate.
  - injection H as -> H. destruct a; discriminate.
  - injection H as -> H. apply IH in H. destruct H as [-> ->]. auto.
Qed.

Lemma chunk_last (chunk : string) (r : N) :
  rune_chunk chunk r -> exists l x, chunk = l ++ str1 x /\ 0x80 <= byte_val x.
Proof.
  destruct 1 as [c0 c1 H0 H1|c0 c1 c2 H0 H1 H2|c0 c1 c2 c3 H0 H1 H2 H3].
  - exists (str1 c0), c1. split; [reflexivity | lia].
  - exists (String c0 (str1 c1)), c2. split; [reflexivity | lia].
  - exists (String c0 (String c1 (str1 c2))), c3. split; [reflexivity | lia].
Qed.

Lemma wf_snoc_ascii (p : string) (c : ascii) :
  byte_val c < 0x80 -> wf (p ++ str1 c) -> wf p.
Proof.
  intros Hc Hw.
  destruct (wf_last _ Hw) as (t' & last & E & Hw' & Hl); [destruct p; discriminate|].
  destruct Hl as [(c' & -> & _) | (r & Hchunk)].
  - apply snoc_inj in E. destruct E as [-> _]. assumption.
  - destruct (chunk_last _ _ Hchunk) as (l & x & -> & Hx).
    rewrite <- append_assoc in E. apply snoc_inj in E. destruct E as [_ ->]. lia.
Qed.

Lemma take_S (k : nat) : forall s c, String.get k s = Some c -> take (S k) s = take k s ++ str1 c.
Proof.
  induction k as [|k IH]; intros [|x s] c H; try discriminate.
  - cbn in H. injection H as ->. now destruct s.
  - cbn [take append]. f_equal. apply IH. exact H.
Qed.

Lemma get_some (k : nat) : forall s, (k < String.length s)%nat -> exists c, String.get k s = Some c.
Proof.
  induction k as [|k IH]; intros [|x s] H; cbn in H; try lia.
  - now exists x.
  - apply IH. lia.
Qed.

(** What [lastIndexFunc] finds in well-formed text: the start of the
    last rune that is no white space, if there is one. *)
Lemma lastIndexNotSpace_spec (s : string) (fuel : nat) :
  forall i, (i <= String.length s)%nat -> (i <= fuel)%nat -> wf (take i s) ->
    match strings.lastIndexNotSpace fuel s i with
    | None => spaceRunes (take i s)
    | Some j =>
        exists p u r post,
          take i s = p ++ u ++ post /\ String.length p = j /\ wf p /\ rune u r
          /\ strings.IsSpace r = false /\ spaceRunes post
    end.
Proof.
  induction fuel as [|fuel IH]; intros i Hi Hf Hw.
  - assert (i = 0)%nat as -> by lia. cbn. destruct s; constructor.
  - cbn [strings.lastIndexNotSpace].
    destruct i as [|i']; [destruct s; constructor|].
    set (i := S i') in *.
    assert (Hne : take i s <> EmptyString).
    { intros E. pose proof (length_take i s Hi) as Hl. rewrite E in Hl. discriminate. }
    destruct (wf_tail _ Hw Hne) as (t' & u & r & E & Hw' & Hu).
    pose proof (rune_length u r Hu) as Hlu.
    assert (Hlen : i = (String.length t' + String.length u)%nat)
      by (rewrite <- (length_take i s Hi), E; apply length_append).
    assert (Ht' : take (String.length t') s = t').
    { rewrite <- (take_take _ i) by lia. rewrite E. apply take_append. }
    pose proof (rune_DecodeLast t' u r Hu) as Hd. rewrite <- E in Hd. rewrite Hd.
    replace (i - String.length u)%nat with (String.length t') by lia.
    destruct (strings.IsSpace r) eqn:Er.
    + specialize (IH (String.length t')). rewrite Ht' in IH.
      destruct (strings.lastIndexNotSpace fuel s (String.length t')) as [j|].
      * destruct IH as (p & u' & r' & post & E' & Hp & Hwp & Hu' & Hr' & Hpost);
          [lia | lia | assumption|].
        exists p, u', r', (post ++ u). rewrite E, E', !append_assoc.
        split; [reflexivity|]. split; [assumption|]. split; [assumption|].
        split; [assumption|]. split; [assumption|].
        apply spaceRunes_app; [assumption | now apply (spaceRunes_one u r)].
      * rewrite E. apply spaceRunes_app;
          [apply IH; [lia | lia | assumption] | now apply (spaceRunes_one u r)].
    + exists t', u, r, EmptyString. rewrite append_nil_r.
      split; [assumption|]. split; [reflexivity|]. split; [assumption|].
      split; [assumption|]. split; [assumption | constructor].
Qed.

Lemma TrimRightSpace_spec (s : string) :
  wf s ->
  exists post,
    s = strings.TrimRightSpace s ++ post /\ spaceRunes post
    /\ wf (strings.TrimRightSpace s)
    /\ (strings.TrimRightSpace s = EmptyString
        \/ strings.IsSpace (fst (utf8.DecodeLastRuneInString (strings.TrimRightSpace s)))
           = false).
Proof.
  intros Hs. unfold strings.TrimRightSpace.
  pose proof (lastIndexNotSpace_spec s (String.length s) (String.length s)) as H.
  rewrite take_all in H. specialize (H (Nat.le_refl _) (Nat.le_refl _) Hs).
  destruct (strings.lastIndexNotSpace _ s _) as [j|].
  2:{ exists s. split; [reflexivity|]. split; [assumption|]. split; [constructor | now left]. }
  destruct H as (p & u & r & post & Es & Hj & Hp & Hu & Hr & Hpost).
  destruct (rune_head u r Hu) as (c & l & Eu & Hc).
  assert (Hget : String.get j s = Some c)
    by (rewrite Es, <- Hj, <- (Nat.add_0_r (String.length p)), get_append, Eu; reflexivity).
  assert (Hdrop : drop j s = u ++ post) by (rewrite Es, <- Hj; apply drop_append).
  assert (Htake : take (j + String.length u) s = p ++ u).
  { rewrite Es at 1. rewrite <- append_assoc, <- Hj, <- length_append. apply take_append. }
  assert (Hres : (if utf8.RuneSelf <=? byte_val c
                  then take (j + snd (utf8.DecodeRuneInString (drop j s))) s
                  else take (S j) s) = p ++ u).
  { rewrite Hdrop, (rune_decode u r post Hu). cbn [snd].
    destruct (utf8.RuneSelf <=? byte_val c) eqn:Ec; [assumption|].
    apply N.leb_gt in Ec. unfold utf8.RuneSelf in Ec.
    destruct Hc as [(_ & -> & _)|Hc]; [|lia].
    subst u. cbn [String.length] in Htake.
    now replace (S j) with (j + 1)%nat by lia. }
  rewrite Hget, Hres. exists post.
  split; [now rewrite append_assoc|]. split; [assumption|].
  split; [rewrite <- (append_nil_r u); apply wf_append; [assumption|];
          apply (rune_wf u r); [assumption | constructor]|].
  right. now rewrite (rune_DecodeLast p u r Hu).
Qed.

Lemma trimStop_spec (s : string) :
  forall stop, (stop <= String.length s)%nat -> wf (take stop s) ->
    exists post,
      take stop s = strings.trimStop stop s ++ post /\ spaceRunes post
      /\ wf (strings.trimStop stop s)
      /\ (strings.trimStop stop s = EmptyString
          \/ strings.IsSpace (fst (utf8.DecodeLastRuneInString (strings.trimStop stop s)))
             = false).
Proof.
  induction stop as [|stop IH]; intros Hle Hw.
  - exists EmptyString. cbn. destruct s; (split; [reflexivity|]); (split; [constructor|]);
      (split; [constructor | now left]).
  - cbn [strings.trimStop].
    destruct (get_some stop s) as [c Hg]; [lia|]. rewrite Hg.
    destruct (utf8.RuneSelf <=? byte_val c) eqn:Ec; [now apply TrimRightSpace_spec|].
    apply N.leb_gt in Ec. unfold utf8.RuneSelf in Ec.
    pose proof (take_S _ _ _ Hg) as Et.
    assert (Hasc : (byte_val c <? 0x80) = true) by (now apply N.ltb_lt).
    destruct (strings.asciiSpace c) eqn:Esp.
    + rewrite Et in Hw. apply wf_snoc_ascii in Hw; [|assumption].
      destruct (IH ltac:(lia) Hw) as (post & Ep & Hpost & Hwt & Hend).
      exists (post ++ str1 c). rewrite Et, Ep at 1. rewrite append_assoc.
      split; [reflexivity|]. split; [|split; assumption].
      apply spaceRunes_app; [assumption|].
      apply (spaceRunes_one _ (byte_val c)); [now constructor|].
      now rewrite asciiSpace_IsSpace.
    + exists EmptyString. rewrite append_nil_r.
      split; [reflexivity|]. split; [constructor|]. split; [assumption|].
      right. rewrite Et, DecodeLast_ascii by assumption. cbn [fst].
      now rewrite asciiSpace_IsSpace.
Qed.

(** [strings.TrimSpace] on well-formed text. *)
Lemma TrimSpace_spec (s : string) :
  wf s ->
  exists pre post,
    s = pre ++ strings.TrimSpace s ++ post
    /\ spaceRunes pre /\ spaceRunes post /\ wf (strings.TrimSpace s)
    /\ (strings.TrimSpace s = EmptyString
        \/ (strings.IsSpace (fst (utf8.DecodeRuneInString (strings.TrimSpace s))) = false
            /\ strings.IsSpace (fst (utf8.DecodeLastRuneInString (strings.TrimSpace s)))
               = false)).
Proof.
  induction s as [|c s IH]; intros Hw.
  { exists EmptyString, EmptyString. split; [reflexivity|]. split; [constructor|].
    split; [constructor|]. split; [constructor | now left]. }
  cbn [strings.TrimSpace].
  destruct (utf8.RuneSelf <=? byte_val c) eqn:Ec.
  - destruct (TrimLeftSpace_spec (String.length (String c s)) (String c s) Hw (Nat.le_refl _))
      as (pre & Epre & Hpre & HwL & HendL).
    set (L := strings.TrimLeftSpace (String.length (String c s)) (String c s)) in *.
    destruct (TrimRightSpace_spec L HwL) as (post & Epost & Hpost & HwR & HendR).
    exists pre, post. rewrite <- Epost.
    split; [assumption|]. split; [assumption|]. split; [assumption|]. split; [assumption|].
    destruct HendR as [E|HendR]; [now left|].
    destruct (strings.TrimRightSpace L) as [|x R] eqn:ER; [now left|]. right.
    split; [|assumption].
    destruct HendL as [EL|HendL]; [rewrite EL in Epost; discriminate|].
    rewrite Epost in HendL. rewrite first_of_prefix in HendL; [assumption|assumption|discriminate].
  - apply N.leb_gt in Ec. unfold utf8.RuneSelf in Ec.
    assert (Hasc : (byte_val c <? 0x80) = true) by (now apply N.ltb_lt).
    assert (Hs : wf s).
    { destruct (wf_first c s Hw) as [(_ & Hs & _) | (chunk & r & rest' & E & Hc & _)];
        [assumption|].
      destruct (chunk_first _ _ Hc) as (c0 & t & -> & H0).
      cbn [append] in E. injection E as -> _. lia. }
    destruct (strings.asciiSpace c) eqn:Esp.
    + destruct (IH Hs) as (pre & post & E & Hpre & Hpost & HwT & Hend).
      exists (String c pre), post. cbn [append]. rewrite <- E.
      split; [reflexivity|]. split; [|repeat split; assumption].
      apply (spaces_cons (str1 c) pre (byte_val c)); [now constructor| |assumption].
      now rewrite asciiSpace_IsSpace.
    + destruct (trimStop_spec (String c s) (String.length (String c s)) (Nat.le_refl _))
        as (post & E & Hpost & HwT & Hend); [now rewrite take_all|].
      rewrite take_all in E.
      exists EmptyString, post. cbn [append]. rewrite <- E.
      split; [reflexivity|]. split; [constructor|]. split; [assumption|].
      split; [assumption|].
      destruct Hend as [E0|Hend]; [now left|].
      destruct (strings.trimStop _ _) as [|x T] eqn:ET; [now left|]. right.
      split; [|assumption].
      rewrite <- (first_of_prefix (String x T) post); [|assumption|discriminate].
      rewrite <- E, decode_ascii by assumption. cbn [fst].
      now rewrite asciiSpace_IsSpace.
Qed.

Lemma TrimSpace_valid (s : string) :
  utf8.ValidString s = true -> utf8.ValidString (strings.TrimSpace s) = true.
Proof.
  intros H. apply wf_ValidString.
  destruct (TrimSpace_spec s (ValidString_wf s H)) as (pre & post & _ & _ & _ & Hw & _).
  exact Hw.
Qed.

(** X20: [strings.TrimSpace] on valid UTF-8.  The text is cut at both
    ends and nowhere else: what is cut off is white space only, what is
    left is valid UTF-8, and it is empty or neither begins nor ends with
    a white space rune. *)
Theorem X20_TrimSpace_valid_text (s : string) :
  utf8.ValidString s = true ->
  exists pre post,
    s = pre ++ strings.TrimSpace s ++ post
    /\ spaceRunes pre /\ spaceRunes post
    /\ utf8.ValidString (strings.TrimSpace s) = true
    /\ (strings.TrimSpace s = EmptyString
        \/ (strings.IsSpace (fst (utf8.DecodeRuneInString (strings.TrimSpace s))) = false
            /\ strings.IsSpace (fst (utf8.DecodeLastRuneInString (strings.TrimSpace s)))
               = false)).
Proof.
  intros H.
  destruct (TrimSpace_spec s (ValidString_wf s H)) as (pre & post & E & Hpre & Hpost & Hw & He).
  exists pre, post. repeat split; try assumption. now apply wf_ValidString.
Qed.

Lemma X20_witness :
  let s := " Ada Lovelace " ++ str1 ch_tab in
  utf8.ValidString s = true
  /\ exists pre post,
    s = pre ++ strings.TrimSpace s ++ post
    /\ spaceRunes pre /\ spaceRunes post
    /\ utf8.ValidString (strings.TrimSpace s) = true
    /\ (strings.TrimSpace s = EmptyString
        \/ (strings.IsSpace (fst (utf8.DecodeRuneInString (strings.TrimSpace s))) = false
            /\ strings.IsSpace (fst (utf8.DecodeLastRuneInString (strings.TrimSpace s)))
               = false)).
Proof.
  split; [reflexivity|].
  exact (X20_TrimSpace_valid_text (" Ada Lovelace " ++ str1 ch_tab) eq_refl).
Defined.

Lemma spaces_first (pre rest : string) :
  spaceRunes pre -> pre <> EmptyString ->
  strings.IsSpace (fst (utf8.DecodeRuneInString (pre ++ rest))) = true.
Proof.
  intros H Hne. destruct H as [|u s r Hu Hr Hs]; [congruence|].
  now rewrite append_assoc, (rune_decode u r _ Hu).
Qed.

Lemma spaces_last (post : string) :
  spaceRunes post -> forall a, post <> EmptyString ->
  strings.IsSpace (fst (utf8.DecodeLastRuneInString (a ++ post))) = true.
Proof.
  induction 1 as [|u s r Hu Hr Hs IH]; intros a Hne; [congruence|].
  destruct s as [|x s'].
  - now rewrite append_nil_r, (rune_DecodeLast a u r Hu).
  - rewrite <- append_assoc. apply IH. discriminate.
Qed.

Lemma TrimSpace_fixed (s : string) :
  wf s ->
  strings.IsSpace (fst (utf8.DecodeRuneInString s)) = false ->
  strings.IsSpace (fst (utf8.DecodeLastRuneInString s)) = false ->
  strings.TrimSpace s = s.
Proof.
  intros Hw Hf Hl.
  destruct (TrimSpace_spec s Hw) as (pre & post & E & Hpre & Hpost & _ & _).
  destruct pre as [|x pre].
  - destruct post as [|y post]; [now rewrite append_nil_r in E|].
    rewrite E, <- append_assoc, spaces_last in Hl; [discriminate | assumption | discriminate].
  - rewrite E, spaces_first in Hf; [discriminate | assumption | discriminate].
Qed.

(** X21: trimming twice.  On valid UTF-8, [strings.TrimSpace] returns
    its argument as it is exactly when the argument is empty or neither
    begins nor ends with a white space rune; so what it returns, it
    returns again. *)
Theorem X21_TrimSpace_idempotent (s : string) :
  utf8.ValidString s = true ->
  (strings.TrimSpace s = s
   <-> s = EmptyString
       \/ (strings.IsSpace (fst (utf8.DecodeRuneInString s)) = false
           /\ strings.IsSpace (fst (utf8.DecodeLastRuneInString s)) = false))
  /\ strings.TrimSpace (strings.TrimSpace s) = strings.TrimSpace s.
Proof.
  intros H. pose proof (ValidString_wf s H) as Hw.
  destruct (TrimSpace_spec s Hw) as (pre & post & E & Hpre & Hpost & HwT & Hend).
  split; [split|].
  - intros Efix. rewrite Efix in Hend. exact Hend.
  - intros [-> | [Hf Hl]]; [reflexivity | now apply TrimSpace_fixed].
  - destruct Hend as [-> | [Hf Hl]]; [reflexivity | now apply TrimSpace_fixed].
Qed.

Lemma X21_witness :
  let s := " Ada Lovelace " in
  utf8.ValidString s = true
  /\ (strings.TrimSpace s = s
      <-> s = EmptyString
          \/ (strings.IsSpace (fst (utf8.DecodeRuneInString s)) = false
              /\ strings.IsSpace (fst (utf8.DecodeLastRuneInString s)) = false))
  /\ strings.TrimSpace (strings.TrimSpace s) = strings.TrimSpace s.
Proof.
  split; [reflexivity|].
  exact (X21_TrimSpace_idempotent " Ada Lovelace " eq_refl).
Defined.

(** ** What the handler stores *)

Lemma scan_first_error (data : string) : json.scan_first None data = None.
Proof. induction data as [|c data IH]; [reflexivity | exact IH]. Qed.

Lemma scan_first_ok (data : string) :
  forall sc v, scanner_ok sc -> json.scan_first sc data = Some v -> value_ok v.
Proof.
  assert (Heof : forall sc v, scanner_ok sc -> json.eof sc = Some v -> value_ok v).
  { intros sc v Hok H. unfold json.eof in H.
    pose proof (scan_ok sc " "%char Hok) as Hok'.
    destruct (json.scan sc " ") as [[st stack]|]; [|discriminate].
    destruct st; try discriminate. injection H as <-. apply Hok'. }
  induction data as [|c data IH]; intros sc v Hok H.
  - destruct sc as [[st stack]|]; [|discriminate].
    destruct st; now apply (Heof _ _ Hok H).
  - destruct sc as [[st stack]|]; [|rewrite scan_first_error in H; discriminate].
    destruct st;
      try (cbn [json.scan_first] in H; apply (IH _ _ (scan_ok _ c Hok) H)).
    cbn in H. injection H as <-. apply Hok.
Qed.

Lemma storeLoginMember_valid (x x' : loginInput) (m : string * json.value) :
  value_ok (snd m) ->
  utf8.ValidString (inName x) = true /\ utf8.ValidString (inPhone x) = true
  /\ utf8.ValidString (inLinkedIn x) = true ->
  storeLoginMember x m = Some x' ->
  utf8.ValidString (inName x') = true /\ utf8.ValidString (inPhone x') = true
  /\ utf8.ValidString (inLinkedIn x') = true.
Proof.
  intros Hm (Hn & Hp & Hl) H. destruct m as [key v]. cbn [snd] in Hm.
  unfold storeLoginMember in H.
  assert (Hst : forall old s, utf8.ValidString old = true ->
                  json.storeString v old = Some s -> utf8.ValidString s = true)
    by (intros old s Hold E; exact (storeString_ok _ _ _ Hm Hold E)).
  destruct (json.foldName key =? "NAME")%string.
  { destruct (json.storeString v (inName x)) as [s|] eqn:E; [|discriminate].
    injection H as <-. cbn. eauto. }
  destruct (json.foldName key =? "PHONE")%string.
  { destruct (json.storeString v (inPhone x)) as [s|] eqn:E; [|discriminate].
    injection H as <-. cbn. eauto. }
  destruct (json.foldName key =? "LINKEDIN")%string; [|discriminate].
  destruct (json.storeString v (inLinkedIn x)) as [s|] eqn:E; [|discriminate].
  injection H as <-. cbn. eauto.
Qed.

Lemma storeLoginMembers_valid (ms : list (string * json.value)) :
  forall x x', Forall (fun m => value_ok (snd m)) ms ->
    utf8.ValidString (inName x) = true /\ utf8.ValidString (inPhone x) = true
    /\ utf8.ValidString (inLinkedIn x) = true ->
    storeLoginMembers x ms = Some x' ->
    utf8.ValidString (inName x') = true /\ utf8.ValidString (inPhone x') = true
    /\ utf8.ValidString (inLinkedIn x') = true.
Proof.
  induction ms as [|m ms IH]; intros x x' Hms Hx H.
  - injection H as <-. assumption.
  - inversion Hms; subst. cbn [storeLoginMembers] in H.
    destruct (storeLoginMember x m) as [x1|] eqn:E; [|discriminate].
    eapply IH; [eassumption | | eassumption].
    eapply storeLoginMember_valid; eassumption.
Qed.

(** The fields that [decoder.Decode] fills are valid UTF-8, whatever
    the body. *)
Lemma decodeLogin_valid (data : string) (inp : loginInput) :
  decodeLogin data = Some inp ->
  utf8.ValidString (inName inp) = true /\ utf8.ValidString (inPhone inp) = true
  /\ utf8.ValidString (inLinkedIn inp) = true.
Proof.
  unfold decodeLogin, json.parse_first. intros H.
  destruct (json.scan_first json.reset data) as [v|] eqn:E; [|discriminate].
  apply scan_first_ok in E; [|split; [constructor | exact I]].
  destruct v; try discriminate.
  - injection H as <-. cbn. auto.
  - eapply (storeLoginMembers_valid ms (mkLoginInput EmptyString EmptyString EmptyString));
      [|split; [|split]; reflexivity|exact H].
    now apply value_ok_object.
Qed.

(** X22: what the handler stores.  Whatever the body, the name, the
    phone and the link that [decoder.Decode] fills are valid UTF-8; the
    field stored is the field decoded with white space cut off at both
    ends and nothing else changed, it is valid UTF-8, and it neither
    begins nor ends with white space; so, given a clock that writes
    valid text, the record handed to the append is one that the codec
    writes and reads back unchanged. *)
Theorem X22_stored_fields (data now : string) (inp : loginInput) :
  decodeLogin data = Some inp ->
  utf8.ValidString now = true ->
  let submission :=
    mkSubmission (strings.TrimSpace (inName inp)) (strings.TrimSpace (inPhone inp))
                 (strings.TrimSpace (inLinkedIn inp)) now in
  let trimmed (field stored : string) :=
    exists pre post,
      field = pre ++ stored ++ post /\ spaceRunes pre /\ spaceRunes post
      /\ strings.TrimSpace stored = stored in
  validSubmission submission = true
  /\ Unmarshal (MarshalIndent [submission]) = Some [submission]
  /\ trimmed (inName inp) (Name submission)
  /\ trimmed (inPhone inp) (Phone submission)
  /\ trimmed (inLinkedIn inp) (LinkedIn submission).
Proof.
  intros Hd Hnow submission trimmed.
  destruct (decodeLogin_valid _ _ Hd) as (Hn & Hp & Hl).
  assert (Hv : validSubmission submission = true).
  { unfold validSubmission, submission. cbn [Name Phone LinkedIn Timestamp].
    now rewrite !TrimSpace_valid, Hnow by assumption. }
  assert (Ht : forall s, utf8.ValidString s = true -> trimmed s (strings.TrimSpace s)).
  { intros s Hs.
    destruct (TrimSpace_spec s (ValidString_wf s Hs)) as (pre & post & E & Hpre & Hpost & Hw & He).
    exists pre, post. repeat split; try assumption.
    destruct He as [-> | [Hf Hlast]]; [reflexivity | now apply TrimSpace_fixed]. }
  split; [assumption|].
  split; [apply Unmarshal_MarshalIndent; cbn; now rewrite Hv|].
  repeat split; now apply Ht.
Qed.

Lemma X22_witness :
  let data := loginBody " Ada Lovelace " "555-0100" EmptyString in
  let inp := mkLoginInput " Ada Lovelace " "555-0100" EmptyString in
  let now := "2024-01-01T00:00:00Z" in
  let submission :=
    mkSubmission (strings.TrimSpace (inName inp)) (strings.TrimSpace (inPhone inp))
                 (strings.TrimSpace (inLinkedIn inp)) now in
  let trimmed (field stored : string) :=
    exists pre post,
      field = pre ++ stored ++ post /\ spaceRunes pre /\ spaceRunes post
      /\ strings.TrimSpace stored = stored in
  decodeLogin data = Some inp
  /\ utf8.ValidString now = true
  /\ validSubmission submission = true
  /\ Unmarshal (MarshalIndent [submission]) = Some [submission]
  /\ trimmed (inName inp) (Name submission)
  /\ trimmed (inPhone inp) (Phone submission)
  /\ trimmed (inLinkedIn inp) (LinkedIn submission).
Proof.
  split; [reflexivity|]. split; [reflexivity|].
  exact (X22_stored_fields (loginBody " Ada Lovelace " "555-0100" EmptyString)
           "2024-01-01T00:00:00Z"
           (mkLoginInput " Ada Lovelace " "555-0100" EmptyString) eq_refl eq_refl).
Defined.

(** ** A login from end to end *)

Lemma append_calm_world (item : Submission) (w : World) :
  calm w ->
  let content := MarshalIndent (ledgerOf (history w) ++ [item]) in
  exists st1 st2,
    appendSubmissionToGitHub item w
    = (None,
       mkWorld (config w) (now w) (history w ++ [content])%list
               (List.tl (List.tl (schedule w)))
               (exchanges w
                ++ [mkExchange (getRequest (config w)) st1;
                    mkExchange (putRequest (config w) (now w) content
                                           (baseVersion (history w))) st2])%list
               (logged w)).
Proof.
  intros Hc content.
  assert (Hr : reply (next_turn w) = Served) by (now rewrite calm_next_turn).
  assert (Hc1 : calm (afterGet w)) by (now apply calm_after).
  rewrite append_result by assumption.
  rewrite (calm_next_turn _ Hc1). cbn [reply others quiet].
  rewrite arrive_calm by assumption. fold content.
  unfold afterGet, after. cbn [config now history schedule exchanges logged].
  rewrite <- app_assoc. cbn [app]. eexists. eexists. reflexivity.
Qed.

(** X23: a login from end to end.  For a POST whose body decodes to a
    name and a phone that are not empty once trimmed, when nothing
    interferes, the file decodes (or does not exist) and the clock
    writes valid text, the handler sends one GET and one PUT, answers
    201 with the JSON reply, logs nothing, and the ledger of the file is
    the one before with exactly one record more, at its end: the trimmed
    fields with the time of the server for timestamp. *)
Theorem X23_login_appends_one (r : Incoming) (w : World) (inp : loginInput)
    (before : list Submission) :
  method r = "POST" ->
  decodeLogin (rbody r) = Some inp ->
  strings.TrimSpace (inName inp) <> EmptyString ->
  strings.TrimSpace (inPhone inp) <> EmptyString ->
  calm w ->
  storedLedger (history w) = Some before ->
  utf8.ValidString (now w) = true ->
  let submission :=
    mkSubmission (strings.TrimSpace (inName inp)) (strings.TrimSpace (inPhone inp))
                 (strings.TrimSpace (inLinkedIn inp)) (now w) in
  let res := apiLogin r newResponseWriter w in
  code (fst res) = Some 201%Z
  /\ written (fst res) = [lit savedReply]
  /\ storedLedger (history (snd res)) = Some (before ++ [submission])%list
  /\ List.map (fun e => Method (sent e)) (exchanges (snd res))
     = (List.map (fun e => Method (sent e)) (exchanges w) ++ ["GET"; "PUT"])%list
  /\ logged (snd res) = logged w.
Proof.
  intros Hm Hd Hn Hp Hc Hold Hnow submission res. subst res.
  assert (Hv : validSubmission submission = true).
  { destruct (decodeLogin_valid _ _ Hd) as (Vn & Vp & Vl).
    unfold validSubmission, submission. cbn [Name Phone LinkedIn Timestamp].
    now rewrite !TrimSpace_valid, Hnow by assumption. }
  unfold apiLogin, withCORS, loginHandler, bind, getConfig, timeNow, ret. rewrite Hm, Hd.
  cbn [String.eqb Ascii.eqb Bool.eqb negb].
  apply String.eqb_neq in Hn, Hp. rewrite Hn, Hp. cbn [orb]. fold submission.
  destruct (append_calm_world submission w Hc) as (st1 & st2 & ->).
  cbn [fst snd history exchanges logged].
  split; [reflexivity|]. split; [reflexivity|].
  split.
  - rewrite storedLedger_snoc. f_equal.
    rewrite (composed_decodes _ _ _ Hold). now rewrite (coerceSubmission_valid _ Hv).
  - split; [|reflexivity]. rewrite map_app. reflexivity.
Qed.

Lemma X23_witness :
  let r := mkIncoming "POST" (loginBody " Ada Lovelace " "555-0100" EmptyString) in
  let w := world0 [MarshalIndent [bob]] [] in
  let inp := mkLoginInput " Ada Lovelace " "555-0100" EmptyString in
  let before := [bob] in
  let submission :=
    mkSubmission (strings.TrimSpace (inName inp)) (strings.TrimSpace (inPhone inp))
                 (strings.TrimSpace (inLinkedIn inp)) (now w) in
  method r = "POST"
  /\ decodeLogin (rbody r) = Some inp
  /\ strings.TrimSpace (inName inp) <> EmptyString
  /\ strings.TrimSpace (inPhone inp) <> EmptyString
  /\ calm w
  /\ storedLedger (history w) = Some before
  /\ utf8.ValidString (now w) = true
  /\ code (fst (apiLogin r newResponseWriter w)) = Some 201%Z
  /\ written (fst (apiLogin r newResponseWriter w)) = [lit savedReply]
  /\ storedLedger (history (snd (apiLogin r newResponseWriter w)))
     = Some (before ++ [submission])%list
  /\ List.map (fun e => Method (sent e)) (exchanges (snd (apiLogin r newResponseWriter w)))
     = (List.map (fun e => Method (sent e)) (exchanges w) ++ ["GET"; "PUT"])%list
  /\ logged (snd (apiLogin r newResponseWriter w)) = logged w.
Proof.
  split; [reflexivity|]. split; [reflexivity|].
  split; [discriminate|]. split; [discriminate|].
  split; [constructor|]. split; [reflexivity|]. split; [reflexivity|].
  exact (X23_login_appends_one
           (mkIncoming "POST" (loginBody " Ada Lovelace " "555-0100" EmptyString))
           (world0 [MarshalIndent [bob]] [])
           (mkLoginInput " Ada Lovelace " "555-0100" EmptyString) [bob]
           eq_refl eq_refl
           (fun H => match H in (_ = s) return (match s with EmptyString => False | _ => True end)
                     with eq_refl => I end)
           (fun H => match H in (_ = s) return (match s with EmptyString => False | _ => True end)
                     with eq_refl => I end)
           (Forall_nil _) eq_refl eq_refl).
Defined.

(** X24: a login when the store cannot be read.  For a POST whose body
    decodes to a name and a phone that are not empty once trimmed, when
    the request of the fetch fails or is answered with a failure status,
    the handler answers 500 with its fixed text, logs the error, and has
    sent the GET and nothing else: the file is as that request found
    it. *)
Theorem X24_login_fetch_fails (r : Incoming) (w : World) (inp : loginInput) :
  method r = "POST" ->
  decodeLogin (rbody r) = Some inp ->
  strings.TrimSpace (inName inp) <> EmptyString ->
  strings.TrimSpace (inPhone inp) <> EmptyString ->
  reply (next_turn w) <> Served ->
  let res := apiLogin r newResponseWriter w in
  code (fst res) = Some 500%Z
  /\ written (fst res) = [lit "failed to update GitHub file"; lit nl]
  /\ history (snd res) = arrive w
  /\ commits (snd res) = commits w
  /\ (exists st, exchanges (snd res)
                 = (exchanges w ++ [mkExchange (getRequest (config w)) st])%list)
  /\ exists e, logged (snd res)
               = (logged w ++ [[lit "append to GitHub failed: "; errText e]])%list.
Proof.
  intros Hm Hd Hn Hp Hr res. subst res.
  unfold apiLogin, withCORS, loginHandler, bind, getConfig, timeNow, ret, logPrintf.
  rewrite Hm, Hd. cbn [String.eqb Ascii.eqb Bool.eqb negb].
  apply String.eqb_neq in Hn, Hp. rewrite Hn, Hp. cbn [orb].
  destruct (append_fetch_failed
              (mkSubmission (strings.TrimSpace (inName inp)) (strings.TrimSpace (inPhone inp))
                            (strings.TrimSpace (inLinkedIn inp)) (now w)) w Hr)
    as (e & -> & _).
  cbn [fst snd]. unfold add_log, afterGet, after, commits.
  cbn [history exchanges logged].
  split; [reflexivity|]. split; [reflexivity|]. split; [reflexivity|].
  split; [rewrite filter_app; cbn; apply app_nil_r|].
  split; eexists; reflexivity.
Qed.

Lemma X24_witness :
  let r := mkIncoming "POST" (loginBody "Ada Lovelace" "555-0100" EmptyString) in
  let w := world0 [MarshalIndent [bob]] [mkTurn [] Unreachable] in
  let inp := mkLoginInput "Ada Lovelace" "555-0100" EmptyString in
  method r = "POST"
  /\ decodeLogin (rbody r) = Some inp
  /\ strings.TrimSpace (inName inp) <> EmptyString
  /\ strings.TrimSpace (inPhone inp) <> EmptyString
  /\ reply (next_turn w) <> Served
  /\ code (fst (apiLogin r newResponseWriter w)) = Some 500%Z
  /\ written (fst (apiLogin r newResponseWriter w))
     = [lit "failed to update GitHub file"; lit nl]
  /\ history (snd (apiLogin r newResponseWriter w)) = arrive w
  /\ commits (snd (apiLogin r newResponseWriter w)) = commits w
  /\ (exists st, exchanges (snd (apiLogin r newResponseWriter w))
                 = (exchanges w ++ [mkExchange (getRequest (config w)) st])%list)
  /\ exists e, logged (snd (apiLogin r newResponseWriter w))
               = (logged w ++ [[lit "append to GitHub failed: "; errText e]])%list.
Proof.
  assert (H : Unreachable <> Served) by discriminate.
  split; [reflexivity|]. split; [reflexivity|].
  split; [discriminate|]. split; [discriminate|]. split; [exact H|].
  exact (X24_login_fetch_fails
           (mkIncoming "POST" (loginBody "Ada Lovelace" "555-0100" EmptyString))
           (world0 [MarshalIndent [bob]] [mkTurn [] Unreachable])
           (mkLoginInput "Ada Lovelace" "555-0100" EmptyString)
           eq_refl eq_refl
           (fun H => match H in (_ = s) return (match s with EmptyString => False | _ => True end)
                     with eq_refl => I end)
           (fun H => match H in (_ = s) return (match s with EmptyString => False | _ => True end)
                     with eq_refl => I end)
           H).
Defined.

(** X25: the health route.  Whatever the state of the store, a request
    of [/health] that is no OPTIONS is answered 200 with the content
    type of JSON and a body that is the JSON object with the one member
    [status], of value [ok]; nothing is sent to the store and nothing is
    logged. *)
Theorem X25_health (r : Incoming) (w : World) :
  method r <> "OPTIONS" ->
  let res := health r newResponseWriter w in
  code (fst res) = Some 200%Z
  /\ HeaderGet "Content-Type" (fst res) = Some "application/json"
  /\ (exists text, written (fst res) = [lit text]
                   /\ json.parse text = Some (json.Object [("status", json.Str "ok")]))
  /\ snd res = w.
Proof.
  intros Hm res. subst res. unfold health, withCORS, healthHandler, bind, getConfig, ret.
  apply String.eqb_neq in Hm. rewrite Hm. cbn [fst snd].
  split; [reflexivity|]. split; [reflexivity|].
  split; [eexists; split; reflexivity | reflexivity].
Qed.

Lemma X25_witness :
  let r := mkIncoming "GET" EmptyString in
  let w := world0 [] [] in
  method r <> "OPTIONS"
  /\ code (fst (health r newResponseWriter w)) = Some 200%Z
  /\ HeaderGet "Content-Type" (fst (health r newResponseWriter w)) = Some "application/json"
  /\ (exists text, written (fst (health r newResponseWriter w)) = [lit text]
                   /\ json.parse text = Some (json.Object [("status", json.Str "ok")]))
  /\ snd (health r newResponseWriter w) = w.
Proof.
  assert (H : "GET" <> "OPTIONS") by discriminate.
  split; [exact H|].
  exact (X25_health (mkIncoming "GET" EmptyString) (world0 [] []) H).
Defined.

(** ** The requests of one login *)

Lemma append_exchanges (item : Submission) (w : World) :
  let r := appendSubmissionToGitHub item w in
  exists reqs,
    exchanges (snd r) = (exchanges w ++ reqs)%list
    /\ logged (snd r) = logged w
    /\ (List.map (fun e => Method (sent e)) reqs = ["GET"]
        \/ List.map (fun e => Method (sent e)) reqs = ["GET"; "PUT"])
    /\ (fst r = None -> List.map (fun e => Method (sent e)) reqs = ["GET"; "PUT"]).
Proof.
  cbn zeta. destruct (reply (next_turn w)) as [| |f] eqn:Hr.
  - rewrite append_result by assumption. cbn zeta.
    destruct (reply (next_turn (afterGet w))) as [| |f];
      [destruct (others (next_turn (afterGet w)))| |];
      cbn [fst snd exchanges logged after afterGet]; rewrite <- app_assoc;
      eexists; (split; [reflexivity|]); (split; [reflexivity|]);
      (split; [right; reflexivity|]); intros _; reflexivity.
  - destruct (append_fetch_failed item w) as (e & -> & _); [congruence|].
    cbn [fst snd exchanges logged after afterGet].
    eexists. split; [reflexivity|]. split; [reflexivity|].
    split; [left; reflexivity | discriminate].
  - destruct (append_fetch_failed item w) as (e & -> & _); [congruence|].
    cbn [fst snd exchanges logged after afterGet].
    eexists. split; [reflexivity|]. split; [reflexivity|].
    split; [left; reflexivity | discriminate].
Qed.

(** X26: the requests of one login.  Whatever the request, the state
    of the store and what the environment does, the handler sends
    nothing to the store, or one GET, or one GET and then one PUT, and
    never more: there is no retry; an answer of 201 has sent both; and
    a line is logged only with an answer of 500. *)
Theorem X26_request_budget (r : Incoming) (w : World) :
  let res := apiLogin r newResponseWriter w in
  exists reqs,
    exchanges (snd res) = (exchanges w ++ reqs)%list
    /\ (List.map (fun e => Method (sent e)) reqs = []
        \/ List.map (fun e => Method (sent e)) reqs = ["GET"]
        \/ List.map (fun e => Method (sent e)) reqs = ["GET"; "PUT"])
    /\ (code (fst res) = Some 201%Z ->
        List.map (fun e => Method (sent e)) reqs = ["GET"; "PUT"])
    /\ (code (fst res) <> Some 500%Z -> logged (snd res) = logged w).
Proof.
  cbn zeta. unfold apiLogin, withCORS, loginHandler, bind, getConfig, ret, timeNow, logPrintf.
  assert (Hnone : forall rw : ResponseWriter, code rw <> Some 201%Z ->
    exists reqs : list exchange,
      exchanges w = (exchanges w ++ reqs)%list
      /\ (List.map (fun e => Method (sent e)) reqs = []
          \/ List.map (fun e => Method (sent e)) reqs = ["GET"]
          \/ List.map (fun e => Method (sent e)) reqs = ["GET"; "PUT"])
      /\ (code rw = Some 201%Z ->
          List.map (fun e => Method (sent e)) reqs = ["GET"; "PUT"])
      /\ (code rw <> Some 500%Z -> logged w = logged w)).
  { intros rw Hrw. exists []. rewrite app_nil_r. split; [reflexivity|].
    split; [now left|]. split; [intros H; contradiction | reflexivity]. }
  destruct (method r =? "OPTIONS")%string; [apply Hnone; discriminate|].
  destruct (negb (method r =? "POST")%string); [apply Hnone; discriminate|].
  destruct (decodeLogin (rbody r)) as [inp|]; [|apply Hnone; discriminate].
  destruct (_ || _)%bool; [apply Hnone; discriminate|].
  match goal with |- context [appendSubmissionToGitHub ?item w] =>
    destruct (append_exchanges item w) as (reqs & He & Hl & Hm & Hok);
    destruct (appendSubmissionToGitHub item w) as [[e|] w1]
  end; cbn [fst snd] in *; exists reqs.
  - split; [assumption|]. split; [destruct Hm; auto|].
    split; [discriminate | intros H; exfalso; now apply H].
  - split; [assumption|]. split; [destruct Hm; auto|].
    split; [intros _; now apply Hok | intros _; assumption].
Qed.
